(** * Command-execution core of the Kontent.ai data-ops custom app

    A shallow embedding of the server-side command core (option sanitizer,
    command validator, argument builder, stream relay, rate limiter) and of
    the front-end progress classifier, with the properties stated about them.

    Conventions of the embedding.
    - A JavaScript string is a [string]; every [ascii] stands for one code
      unit below 256 (the Latin-1 range), which is where all the character
      tests of the code (digits, white space, ASCII letters) take place.
    - A JavaScript number is an IEEE 754 double ([spec_float] at precision 53
      and maximal exponent 1024, NaN without payload), with the rounding, the
      infinities and NaN of the language; [parseInt] rounds the integer it
      reads to the nearest double. Clock readings and exit codes, which are
      integers far below 2^53, are integers of [Z].
    - [Date.now()] is an explicit argument, the module-level rate-limit map
      and the HTTP response are explicit states. *)

From Stdlib Require Import ZArith QArith Qabs Qround String Ascii List Bool Lia DecimalString
  DecimalZ SpecFloat.
From stdpp Require Import gmap strings list.

Open Scope string_scope.
Set Warnings "-register-all".

(** ** JavaScript values and the string primitives the code uses *)

Module Js.

Definition code (c : ascii) : N := N_of_ascii c.

Definition in_range (lo hi : N) (c : ascii) : bool :=
  ((lo <=? code c) && (code c <=? hi))%N.

(** [\d] *)
Definition is_digit (c : ascii) : bool := in_range 48 57 c.

(** [A-Z] *)
Definition is_upper_az (c : ascii) : bool := in_range 65 90 c.

(** White space and line terminators below 256: TAB, LF, VT, FF, CR, SP, NBSP
    (what [\s] matches and what [trim] strips). *)
Definition is_space (c : ascii) : bool :=
  in_range 9 13 c || (code c =? 32)%N || (code c =? 160)%N.

(** Line terminators below 256 (what [.] does not match). *)
Definition is_line_terminator (c : ascii) : bool :=
  (code c =? 10)%N || (code c =? 13)%N.

(** Letters with a lower-case partner: A-Z, and the Latin-1 capitals
    U+00C0..U+00DE except the multiplication sign U+00D7. *)
Definition has_lower (c : ascii) : bool :=
  in_range 65 90 c || (in_range 192 222 c && negb (code c =? 215)%N).

Definition has_upper (c : ascii) : bool :=
  in_range 97 122 c || (in_range 224 254 c && negb (code c =? 247)%N).

Definition lower_char (c : ascii) : ascii :=
  if has_lower c then ascii_of_N (code c + 32) else c.

Definition upper_char (c : ascii) : ascii :=
  if has_upper c then ascii_of_N (code c - 32) else c.

Fixpoint map_chars (f : ascii -> ascii) (s : string) : string :=
  match s with
  | EmptyString => EmptyString
  | String c s' => String (f c) (map_chars f s')
  end.

(** [s.toLowerCase()] *)
Definition toLowerCase (s : string) : string := map_chars lower_char s.

(** [s.startsWith(t)] *)
Definition startsWith (s t : string) : bool := String.prefix t s.

(** [s.includes(t)] *)
Fixpoint includes (s t : string) : bool :=
  String.prefix t s ||
  match s with
  | EmptyString => false
  | String _ s' => includes s' t
  end.

Fixpoint trimStart (s : string) : string :=
  match s with
  | EmptyString => EmptyString
  | String c s' => if is_space c then trimStart s' else s
  end.

Fixpoint trimEnd (s : string) : string :=
  match s with
  | EmptyString => EmptyString
  | String c s' =>
      match trimEnd s' with
      | EmptyString => if is_space c then EmptyString else String c EmptyString
      | t => String c t
      end
  end.

(** [s.trim()] *)
Definition trim (s : string) : string := trimEnd (trimStart s).

Definition is_empty (s : string) : bool :=
  match s with EmptyString => true | _ => false end.

(** [s.split(sep)] for a one-character separator; never the empty list. *)
Fixpoint split (sep : ascii) (s : string) : list string :=
  match s with
  | EmptyString => [EmptyString]
  | String c s' =>
      if Ascii.eqb c sep then EmptyString :: split sep s'
      else match split sep s' with
           | h :: t => String c h :: t
           | [] => [String c EmptyString]
           end
  end.

(** [parts.join(sep)] *)
Fixpoint join (sep : string) (parts : list string) : string :=
  match parts with
  | [] => EmptyString
  | [p] => p
  | p :: rest => p ++ sep ++ join sep rest
  end.

(** Decimal form of an integer, as [String(n)] and template literals give. *)
Definition string_of_Z (n : Z) : string := NilEmpty.string_of_int (Z.to_int n).

(** *** Numbers *)

(** A JavaScript number: an IEEE 754 double. *)
Definition number : Type := spec_float.

Definition NaN : number := S754_nan.

(** The double nearest an integer (ties to even; infinite beyond the range). *)
Definition number_of_Z (n : Z) : number := binary_normalize 53 1024 n 0 false.

Definition isNaN (x : number) : bool :=
  match x with S754_nan => true | _ => false end.

Definition num_div : number -> number -> number := SFdiv 53 1024.
Definition num_mul : number -> number -> number := SFmul 53 1024.
Definition num_lt : number -> number -> bool := SFltb.

Definition zero : number := S754_zero false.
Definition hundred : number := number_of_Z 100.

Definition is_zero (x : number) : bool :=
  match x with S754_zero _ => true | _ => false end.

Definition is_negative_zero (x : number) : bool :=
  match x with S754_zero true => true | _ => false end.

(** [Math.max(a, b)] *)
Definition Math_max (a b : number) : number :=
  if isNaN a || isNaN b then NaN
  else if num_lt a b then b
  else if num_lt b a then a
  else if is_negative_zero a then b else a.

(** [Math.min(a, b)] *)
Definition Math_min (a b : number) : number :=
  if isNaN a || isNaN b then NaN
  else if num_lt a b then a
  else if num_lt b a then b
  else if is_negative_zero a then a else b.

(** [Math.round(x)]: the nearest integer, a tie going up. *)
Definition Math_round (x : number) : number :=
  match x with
  | S754_finite s m e =>
      if (0 <=? e)%Z then x
      else
        let sm := if s then Z.neg m else Z.pos m in
        let r := ((2 * sm + 2 ^ (- e)) / 2 ^ (1 - e))%Z in
        if (r =? 0)%Z then S754_zero s else number_of_Z r
  | _ => x
  end.

(** *** Number::toString(x) in radix 10 *)

Definition two_to (e : Z) : Q := Qpower 2 e.
Definition ten_to (n : Z) : Q := Qpower 10 n.

(** The interval of the reals that round to the double [m * 2^e]. *)
Definition rounds_low (m : positive) (e : Z) : Q :=
  (inject_Z (Z.pos m) * two_to e
   - (if Pos.eqb m (2 ^ 52) && (-1074 <? e)%Z then two_to (e - 2) else two_to (e - 1)))%Q.

Definition rounds_high (m : positive) (e : Z) : Q :=
  (inject_Z (Z.pos m) * two_to e + two_to (e - 1))%Q.

(** The [n] with [10^(n-1) <= x < 10^n], looked for from an estimate. *)
Fixpoint first_above (fuel : nat) (x : Q) (n : Z) : Z :=
  match fuel with
  | O => n
  | S fuel' => if Qlt_le_dec x (ten_to n) then n else first_above fuel' x (n + 1)%Z
  end.

Definition decimal_exponent (m : positive) (e : Z) : Z :=
  let bits := (Z.pos (digits2_pos m) + e)%Z in
  first_above 4 (inject_Z (Z.pos m) * two_to e)%Q (((bits - 1) * 30103) / 100000 - 1)%Z.

Definition closer (x : Q) (a b : Q * Z) : Q * Z :=
  (* of two candidates (value, digits) the one nearer [x]; on a tie the even *)
  match Qcompare (Qabs (fst a - x)%Q) (Qabs (fst b - x)%Q) with
  | Lt => a
  | Gt => b
  | Eq => if Z.even (snd a) then a else b
  end.

(** The best [s] with [k] digits at decimal exponent [n], if there is one. *)
Definition candidate (m : positive) (e : Z) (k n : Z) : option Z :=
  let x := (inject_Z (Z.pos m) * two_to e)%Q in
  let scale := ten_to (n - k) in
  let closed := Z.even (Z.pos m) in
  let lo := (rounds_low m e / scale)%Q in
  let hi := (rounds_high m e / scale)%Q in
  let s_lo := Z.max (if closed then Qceiling lo else Qfloor lo + 1)%Z (10 ^ (k - 1))%Z in
  let s_hi := Z.min (if closed then Qfloor hi else Qceiling hi - 1)%Z (10 ^ k - 1)%Z in
  if (s_lo <=? s_hi)%Z then
    let t := (x / scale)%Q in
    let f := Qfloor t in
    let c1 := Z.max s_lo (Z.min s_hi f) in
    let c2 := Z.max s_lo (Z.min s_hi (f + 1)%Z) in
    Some (snd (closer t (inject_Z c1, c1) (inject_Z c2, c2)))
  else None.

(** The shortest digits [s] (there are [k] of them) and the exponent [n] with
    [s * 10^(n-k)] rounding to the double. *)
Fixpoint shortest (fuel : nat) (m : positive) (e : Z) (n0 k : Z) : Z * Z * Z :=
  let x := (inject_Z (Z.pos m) * two_to e)%Q in
  match fuel with
  | O => (0, k, n0)%Z
  | S fuel' =>
      match candidate m e k n0, candidate m e k (n0 + 1) with
      | Some s, None => (s, k, n0)
      | None, Some s => (s, k, n0 + 1)%Z
      | Some s, Some s' =>
          let a := ((inject_Z s * ten_to (n0 - k))%Q, s) in
          let b := ((inject_Z s' * ten_to (n0 + 1 - k))%Q, s') in
          if Z.eqb (snd (closer x a b)) s then (s, k, n0) else (s', k, n0 + 1)%Z
      | None, None => shortest fuel' m e n0 (k + 1)%Z
      end
  end.

Fixpoint zeros (n : nat) : string :=
  match n with O => EmptyString | S n' => String "0" (zeros n') end.

Definition positive_toString (m : positive) (e : Z) : string :=
  let '(s, k, n) := shortest 17 m e (decimal_exponent m e) 1 in
  let digits := string_of_Z s in
  if (k <=? n)%Z && (n <=? 21)%Z then digits ++ zeros (Z.to_nat (n - k))
  else if (0 <? n)%Z && (n <=? 21)%Z then
    String.substring 0 (Z.to_nat n) digits ++ "."
    ++ String.substring (Z.to_nat n) (Z.to_nat (k - n)) digits
  else if (-6 <? n)%Z && (n <=? 0)%Z then "0." ++ zeros (Z.to_nat (- n)) ++ digits
  else
    let ex := (n - 1)%Z in
    let tail := "e" ++ (if (0 <=? ex)%Z then "+" else "-") ++ string_of_Z (Z.abs ex) in
    if (k =? 1)%Z then digits ++ tail
    else String.substring 0 1 digits ++ "." ++ String.substring 1 (Z.to_nat (k - 1)) digits
         ++ tail.

(** [String(x)] for a number. *)
Definition number_toString (x : number) : string :=
  match x with
  | S754_nan => "NaN"
  | S754_zero _ => "0"
  | S754_infinity false => "Infinity"
  | S754_infinity true => "-Infinity"
  | S754_finite false m e => positive_toString m e
  | S754_finite true m e => "-" ++ positive_toString m e
  end.

(** *** Values *)

(** The values a JSON request body can carry, plus [undefined]. *)
Inductive value : Type :=
| VUndefined
| VNull
| VBool (b : bool)
| VNumber (x : number)
| VString (s : string)
| VArray (items : list value)
| VObject (entries : list (string * value)).

(** ToBoolean *)
Definition truthy (v : value) : bool :=
  match v with
  | VUndefined | VNull => false
  | VBool b => b
  | VNumber x => negb (is_zero x || isNaN x)
  | VString s => negb (is_empty s)
  | VArray _ | VObject _ => true
  end.

Definition is_string (v : value) : bool :=
  match v with VString _ => true | _ => false end.

(** [Array.isArray(v)] *)
Definition isArray (v : value) : bool :=
  match v with VArray _ => true | _ => false end.

(** [String(v)]; an array joins its elements with a comma, [null] and
    [undefined] elements giving the empty string. *)
Fixpoint toString (v : value) : string :=
  match v with
  | VUndefined => "undefined"
  | VNull => "null"
  | VBool true => "true"
  | VBool false => "false"
  | VNumber x => number_toString x
  | VString s => s
  | VArray items =>
      (fix elems (l : list value) : string :=
         match l with
         | [] => EmptyString
         | x :: rest =>
             let sx := match x with
                       | VUndefined | VNull => EmptyString
                       | _ => toString x
                       end in
             match rest with
             | [] => sx
             | _ => sx ++ "," ++ elems rest
             end
         end) items
  | VObject _ => "[object Object]"
  end.

(** An object as the ordered list of its own entries ([Object.entries]). *)
Definition object := list (string * value).

(** Property read [o.k]; [undefined] when the key is absent. *)
Fixpoint get (o : object) (k : string) : value :=
  match o with
  | [] => VUndefined
  | (k', v) :: rest => if String.eqb k' k then v else get rest k
  end.

(** [Object.entries(v)] of an object or an array. *)
Definition entries_of (v : value) : object :=
  match v with
  | VObject entries => entries
  | VArray items => imap (fun i x => (string_of_Z (Z.of_nat i), x)) items
  | _ => []
  end.

End Js.

Import Js.

(** ** Rate limiter (src/server/rateLimit.ts) *)

Module RateLimit.

Definition RATE_LIMIT_WINDOW : Z := 60000.
Definition RATE_LIMIT_MAX_REQUESTS : nat := 30.

(** The body of [checkRateLimit], with the window and the maximum as
    arguments (the test suite's [RateLimiter.checkLimit] has the same body
    over instance fields). The result is the answer and the map afterwards. *)
Definition checkLimit (windowMs : Z) (maxRequests : nat)
    (now : Z) (ip : string) (rateLimitMap : gmap string (list Z))
    : bool * gmap string (list Z) :=
  let userRequests := default [] (rateLimitMap !! ip) in
  let recentRequests :=
    filter (fun timestamp => (now - timestamp < windowMs)%Z) userRequests in
  if decide (maxRequests <= length recentRequests) then (false, rateLimitMap)
  else (true, <[ip := (recentRequests ++ [now])%list]> rateLimitMap).

Definition checkRateLimit := checkLimit RATE_LIMIT_WINDOW RATE_LIMIT_MAX_REQUESTS.

(** The timestamps of a client that are still inside the window at [now]
    ([recentRequests] before the push). *)
Definition pruned (windowMs : Z) (now : Z) (ip : string) (m : gmap string (list Z)) : list Z :=
  filter (fun timestamp => (now - timestamp < windowMs)%Z) (default [] (m !! ip)).

(** Successive checks of one client at the given clock readings. *)
Fixpoint checks (windowMs : Z) (maxRequests : nat) (ip : string)
    (times : list Z) (m : gmap string (list Z)) : list bool * gmap string (list Z) :=
  match times with
  | [] => ([], m)
  | now :: rest =>
      let '(ok, m') := checkLimit windowMs maxRequests now ip m in
      let '(oks, m'') := checks windowMs maxRequests ip rest m' in
      (ok :: oks, m'')
  end.

End RateLimit.

(** ** Regular expressions, matched the way the JavaScript engine does

    A backtracking matcher: [run] lists every way a pattern can match at the
    front of the input, in the engine's order of preference (greedy stars
    first, left alternative first); [exec] takes the first one at the
    leftmost position where there is one. *)

Module Regex.

Inductive regex : Type :=
| Eps
| Chr (a : ascii)
| Cls (p : ascii -> bool)
| Dot
| Bol
| Eol
| Seq (r1 r2 : regex)
| Alt (r1 r2 : regex)
| Star (r : regex)
| Group (i : nat) (r : regex).

(** [r+] *)
Definition Plus (r : regex) : regex := Seq r (Star r).

(** A run of literal characters. *)
Fixpoint Lit (s : string) : regex :=
  match s with
  | EmptyString => Eps
  | String a s' => Seq (Chr a) (Lit s')
  end.

(** [r{n}] *)
Fixpoint Rep (n : nat) (r : regex) : regex :=
  match n with
  | O => Eps
  | S n' => Seq r (Rep n' r)
  end.

Fixpoint seqs (rs : list regex) : regex :=
  match rs with
  | [] => Eps
  | [r] => r
  | r :: rest => Seq r (seqs rest)
  end.

Definition digit : regex := Cls is_digit.
Definition space : regex := Cls is_space.
Definition one_of (cs : list ascii) : regex :=
  Cls (fun x => existsb (Ascii.eqb x) cs).

(** A regular expression literal with its [i] flag. *)
Record js_regex : Type := { re : regex; ignoreCase : bool }.

Definition captures := list (nat * string).

(** The text of group [i], [None] for [undefined]. *)
Fixpoint group (c : captures) (i : nat) : option string :=
  match c with
  | [] => None
  | (j, s) :: rest => if Nat.eqb j i then Some s else group rest i
  end.

(** Canonical comparison of two code units under the [i] flag. *)
Definition char_eq (ci : bool) (a x : ascii) : bool :=
  if ci then Ascii.eqb (upper_char a) (upper_char x) else Ascii.eqb a x.

Definition class_has (ci : bool) (p : ascii -> bool) (x : ascii) : bool :=
  if ci then p x || p (upper_char x) || p (lower_char x) else p x.

(** What was consumed between the input [s] and its suffix [s']. *)
Definition consumed (s s' : string) : string :=
  String.substring 0 (String.length s - String.length s') s.

(** Greedy iteration; an iteration that consumes nothing is refused, so the
    length of the input bounds the number of iterations. *)
Fixpoint star_iter (step : string -> captures -> list (string * captures))
    (fuel : nat) (s : string) (c : captures) : list (string * captures) :=
  match fuel with
  | O => [(s, c)]
  | S fuel' =>
      (flat_map (fun sc : string * captures =>
                   if Nat.ltb (String.length (fst sc)) (String.length s)
                   then star_iter step fuel' (fst sc) (snd sc) else [])
                (step s c) ++ [(s, c)])%list
  end.

Fixpoint run (ci : bool) (inp : string) (r : regex) (s : string) (c : captures)
    : list (string * captures) :=
  match r with
  | Eps => [(s, c)]
  | Chr a =>
      match s with
      | String x s' => if char_eq ci a x then [(s', c)] else []
      | EmptyString => []
      end
  | Cls p =>
      match s with
      | String x s' => if class_has ci p x then [(s', c)] else []
      | EmptyString => []
      end
  | Dot =>
      match s with
      | String x s' => if is_line_terminator x then [] else [(s', c)]
      | EmptyString => []
      end
  | Bol => if Nat.eqb (String.length s) (String.length inp) then [(s, c)] else []
  | Eol => if is_empty s then [(s, c)] else []
  | Seq r1 r2 =>
      flat_map (fun sc : string * captures => run ci inp r2 (fst sc) (snd sc))
               (run ci inp r1 s c)
  | Alt r1 r2 => (run ci inp r1 s c ++ run ci inp r2 s c)%list
  | Star r' => star_iter (run ci inp r') (String.length s) s c
  | Group i r' =>
      map (fun sc : string * captures => (fst sc, (i, consumed s (fst sc)) :: snd sc))
          (run ci inp r' s c)
  end.

(** Leftmost match: the first position of [s] at which [r] matches. *)
Fixpoint search (ci : bool) (inp : string) (r : regex) (s : string) : option captures :=
  match run ci inp r s [] with
  | sc :: _ => Some (snd sc)
  | [] =>
      match s with
      | EmptyString => None
      | String _ s' => search ci inp r s'
      end
  end.

(** [str.match(p)] for a pattern without the [g] flag: the captures of the
    first match, or [None] for [null]. *)
Definition exec (p : js_regex) (str : string) : option captures :=
  search (ignoreCase p) str (re p) str.

(** [p.test(str)] *)
Definition test (p : js_regex) (str : string) : bool :=
  match exec p str with Some _ => true | None => false end.

End Regex.

Import Regex.

(** ** Progress classifier (frontend/app-frontend.js) *)

Module Frontend.

Record ProgressInfo : Type := {
  percent : option number;     (* [None] is [null] *)
  message : string;
  stage : string
}.

(** The integer written by the digits at the front of [s] (mathInt). *)
Fixpoint digits_value (acc : Z) (s : string) : Z :=
  match s with
  | String x s' =>
      if is_digit x then digits_value (10 * acc + Z.of_N (code x - 48)) s' else acc
  | EmptyString => acc
  end.

(** [parseInt(s, 10)]: leading white space, an optional sign, then the longest
    run of digits, rounded to the nearest double; NaN without a digit. For
    more than 20 significant digits the language lets an implementation
    approximate the integer before rounding; the exact one is taken here. *)
Definition parseInt (s : string) : number :=
  let body (negative : bool) (t : string) : number :=
    match t with
    | String x _ =>
        if is_digit x then
          let mathInt := digits_value 0 t in
          if (mathInt =? 0)%Z then S754_zero negative
          else number_of_Z (if negative then - mathInt else mathInt)
        else NaN
    | EmptyString => NaN
    end in
  match trimStart s with
  | String "-" t => body true t
  | String "+" t => body false t
  | t => body false t
  end.

(** Truthiness of a capture: [undefined] and the empty string are falsy. *)
Definition cap_truthy (o : option string) : bool :=
  match o with
  | Some s => negb (is_empty s)
  | None => false
  end.

Definition cap_text (o : option string) : string := default EmptyString o.

(** /(\d+)%\s*[\/\\]\s*(\d+)/ *)
Definition percent_of_total_pattern : js_regex :=
  {| re := seqs [Group 1 (Plus digit); Chr "%"; Star space; one_of ["/"; "\"]%char;
                 Star space; Group 2 (Plus digit)];
     ignoreCase := false |}.

(** /(\d+)\s*of\s*(\d+)/i *)
Definition n_of_m_pattern : js_regex :=
  {| re := seqs [Group 1 (Plus digit); Star space; Lit "of"; Star space;
                 Group 2 (Plus digit)];
     ignoreCase := true |}.

(** /progress[:\s]+(\d+)%/i *)
Definition progress_pattern : js_regex :=
  {| re := seqs [Lit "progress";
                 Plus (Cls (fun x => Ascii.eqb x ":" || is_space x));
                 Group 1 (Plus digit); Chr "%"];
     ignoreCase := true |}.

(** /(\d+)\/(\d+)/ *)
Definition slash_pattern : js_regex :=
  {| re := seqs [Group 1 (Plus digit); Chr "/"; Group 2 (Plus digit)];
     ignoreCase := false |}.

(** /\[(\d+)%\]/ *)
Definition bracket_pattern : js_regex :=
  {| re := seqs [Chr "["; Group 1 (Plus digit); Chr "%"; Chr "]"];
     ignoreCase := false |}.

(** /backing up|restoring|syncing|processing/i *)
Definition stage_words_pattern : js_regex :=
  {| re := Alt (Lit "backing up") (Alt (Lit "restoring") (Alt (Lit "syncing") (Lit "processing")));
     ignoreCase := true |}.

Definition progressPatterns : list js_regex :=
  [percent_of_total_pattern; n_of_m_pattern; progress_pattern; slash_pattern;
   bracket_pattern; stage_words_pattern].

Definition stagePatterns : list (js_regex * string) := [
  ({| re := Lit "backing up"; ignoreCase := true |}, "Backing up data...");
  ({| re := Lit "restoring"; ignoreCase := true |}, "Restoring data...");
  ({| re := Lit "syncing"; ignoreCase := true |}, "Synchronizing...");
  ({| re := Lit "processing"; ignoreCase := true |}, "Processing...");
  ({| re := Lit "validating"; ignoreCase := true |}, "Validating...");
  ({| re := Lit "fetching"; ignoreCase := true |}, "Fetching data...");
  ({| re := Lit "uploading"; ignoreCase := true |}, "Uploading...");
  ({| re := Lit "downloading"; ignoreCase := true |}, "Downloading...")
].

(** The first [for] loop of [parseProgressFromOutput]. A pattern that matches
    without leading to a [return] lets the loop go on to the next pattern. *)
Fixpoint numeric_loop (patterns : list js_regex) (msg : string) : option ProgressInfo :=
  match patterns with
  | [] => None
  | pattern :: rest =>
      match exec pattern msg with
      | Some m =>
          if cap_truthy (group m 1) && cap_truthy (group m 2) then
            let current := parseInt (cap_text (group m 1)) in
            let total := parseInt (cap_text (group m 2)) in
            if negb (isNaN current) && negb (isNaN total) && num_lt zero total
            then Some {| percent := Some (num_mul (num_div current total) hundred);
                         message := msg; stage := "" |}
            else numeric_loop rest msg
          else if cap_truthy (group m 1) then
            let percent := parseInt (cap_text (group m 1)) in
            if negb (isNaN percent)
            then Some {| percent := Some percent; message := msg; stage := "" |}
            else numeric_loop rest msg
          else numeric_loop rest msg
      | None => numeric_loop rest msg
      end
  end.

(** The second [for] loop. *)
Fixpoint stage_loop (patterns : list (js_regex * string)) (msg : string) : option ProgressInfo :=
  match patterns with
  | [] => None
  | (pattern, stg) :: rest =>
      if test pattern msg
      then Some {| percent := None; message := msg; stage := stg |}
      else stage_loop rest msg
  end.

Definition parseProgressFromOutput (msg : string) : option ProgressInfo :=
  match numeric_loop progressPatterns msg with
  | Some info => Some info
  | None => stage_loop stagePatterns msg
  end.

(** What [updateProgress] and [addOutput] read and write of the page: which
    of the elements exist, [state.isRunning], [state.progress], and the
    texts and styles of the progress elements. *)
Record page : Type := {
  has_outputContainer : bool;
  has_progressContainer : bool;
  has_progressBar : bool;
  has_progressPercent : bool;
  has_progressText : bool;
  isRunning : bool;
  progress_current : number;
  progress_message : string;
  progress_stage : string;
  progressBar_width : string;
  progressPercent_textContent : string;
  progressText_textContent : string;
  progressContainer_display : string
}.

(** [a || b] on strings. *)
Definition or_string (a b : string) : string := if is_empty a then b else a.

(** [Math.min(100, Math.max(0, percent))] *)
Definition clampedPercent (percent : number) : number :=
  Math_min hundred (Math_max zero percent).

Definition updateProgress (percent : number) (message stage : string) (p : page) : page :=
  if negb (has_progressContainer p) || negb (has_progressBar p) then p
  else
    {| has_outputContainer := has_outputContainer p;
       has_progressContainer := has_progressContainer p;
       has_progressBar := has_progressBar p;
       has_progressPercent := has_progressPercent p;
       has_progressText := has_progressText p;
       isRunning := isRunning p;
       progress_current := clampedPercent percent;
       progress_message := message;
       progress_stage := stage;
       progressBar_width := number_toString (clampedPercent percent) ++ "%";
       progressPercent_textContent :=
         if has_progressPercent p
         then number_toString (Math_round (clampedPercent percent)) ++ "%"
         else progressPercent_textContent p;
       progressText_textContent :=
         if has_progressText p then or_string message (or_string stage "Processing...")
         else progressText_textContent p;
       progressContainer_display :=
         if isRunning p && has_progressContainer p then ""
         else progressContainer_display p |}.


End Frontend.

Import Frontend.

(** ** Option sanitizer and command validator (server validation module) *)

Module Validation.

(** [sanitizeInput] *)
Definition sanitizeInput (input : value) : value :=
  match input with
  | VString s => VString (trim s)
  | _ => input
  end.

Definition hex : regex := Cls (fun x => is_digit x || in_range 97 102 x).

(** /^[0-9a-f]{8}-[0-9a-f]{4}-[0-9a-f]{4}-[0-9a-f]{4}-[0-9a-f]{12}$/i *)
Definition uuidRegex : js_regex :=
  {| re := seqs [Bol; Rep 8 hex; Chr "-"; Rep 4 hex; Chr "-"; Rep 4 hex; Chr "-";
                 Rep 4 hex; Chr "-"; Rep 12 hex; Eol];
     ignoreCase := true |}.

Definition validateEnvironmentId (envId : value) : bool :=
  match envId with
  | VString s => if is_empty s then false else test uuidRegex (trim s)
  | _ => false
  end.

Definition validateApiKey (apiKey : value) (minLength : nat) : bool :=
  match apiKey with
  | VString s => if is_empty s then false else Nat.leb minLength (String.length (trim s))
  | _ => false
  end.

(** The segment walk of Node's POSIX [path.normalize]: empty and [.] segments
    are dropped, [..] removes the segment before it when there is one that is
    not itself [..], and is kept in a relative path otherwise. The stack is
    held last segment first. *)
Definition normalize_step (allowAboveRoot : bool) (stack : list string) (seg : string)
    : list string :=
  if is_empty seg || String.eqb seg "." then stack
  else if String.eqb seg ".." then
    match stack with
    | top :: below =>
        if String.eqb top ".." then (if allowAboveRoot then seg :: stack else stack)
        else below
    | [] => if allowAboveRoot then [seg] else []
    end
  else seg :: stack.

Definition normalizeString (path : string) (allowAboveRoot : bool) : string :=
  join "/" (rev (fold_left (normalize_step allowAboveRoot) (split "/" path) [])).

Fixpoint last_char (s : string) : option ascii :=
  match s with
  | EmptyString => None
  | String c EmptyString => Some c
  | String _ s' => last_char s'
  end.

(** [path.normalize] (POSIX) *)
Definition path_normalize (path : string) : string :=
  if is_empty path then "."
  else
    let isAbsolute := startsWith path "/" in
    let trailingSeparator :=
      match last_char path with Some c => Ascii.eqb c "/" | None => false end in
    let p := normalizeString path (negb isAbsolute) in
    if is_empty p then
      (if isAbsolute then "/" else if trailingSeparator then "./" else ".")
    else
      let p' := if trailingSeparator then p ++ "/" else p in
      if isAbsolute then "/" ++ p' else p'.

Definition validateFilePath (filePath : value) (maxLength : nat) : bool :=
  match filePath with
  | VString s =>
      if is_empty s then false
      else
        let normalized := path_normalize s in
        negb (includes normalized "..")
        && Nat.ltb 0 (String.length normalized)
        && Nat.ltb (String.length normalized) maxLength
  | _ => false
  end.

Record ValidationResult : Type := { valid : bool; message : option string }.

Definition invalid (msg : string) : ValidationResult :=
  {| valid := false; message := Some msg |}.
Definition ok_result : ValidationResult := {| valid := true; message := None |}.

(** [commandParts[i]]: [None] is [undefined]. *)
Definition part (parts : list string) (i : nat) : option string := nth_error parts i.

Definition part_is (p : option string) (s : string) : bool :=
  match p with Some x => String.eqb x s | None => false end.

(** [!options.entities || !Array.isArray(options.entities) || options.entities.length === 0] *)
Definition entities_missing (options : object) : bool :=
  let e := get options "entities" in
  negb (truthy e) || negb (isArray e)
  || match e with VArray items => Nat.eqb (List.length items) 0 | _ => false end.

(** [!options.outPath || (typeof options.outPath === 'string' && options.outPath.trim() === '')] *)
Definition outPath_blank (options : object) : bool :=
  let o := get options "outPath" in
  negb (truthy o)
  || match o with VString s => is_empty (trim s) | _ => false end.

(** [options] is only read, property by property; it is given as the list in
    which a read finds its value (own entries first, then inherited ones). *)
Definition validateCommandOptions (command : string) (options : object) : ValidationResult :=
  let commandParts := split " " command in
  let mainCommand := part commandParts 0 in
  let subCommand := part commandParts 1 in
  let has k := truthy (get options k) in
  if part_is mainCommand "environment" then
    if part_is subCommand "backup" then
      if negb (has "environmentId") || negb (has "apiKey")
      then invalid "environmentId and apiKey are required for environment backup"
      else ok_result
    else if part_is subCommand "restore" then
      if negb (has "environmentId") || negb (has "apiKey") || negb (has "fileName")
      then invalid "environmentId, apiKey, and fileName are required for environment restore"
      else ok_result
    else if part_is subCommand "clean" then
      if negb (has "environmentId") || negb (has "apiKey")
      then invalid "environmentId and apiKey are required for environment clean"
      else ok_result
    else ok_result
  else if part_is mainCommand "sync" then
    if part_is subCommand "run" then
      if negb (has "targetEnvironmentId") || negb (has "targetApiKey") || entities_missing options
      then invalid "targetEnvironmentId, targetApiKey, and entities are required for sync run"
      else if negb (has "sourceEnvironmentId") && negb (has "folderName")
      then invalid "Either sourceEnvironmentId+sourceApiKey or folderName is required for sync run"
      else if has "sourceEnvironmentId" && negb (has "sourceApiKey")
      then invalid "sourceApiKey is required when using sourceEnvironmentId"
      else ok_result
    else if part_is subCommand "snapshot" then
      if negb (has "environmentId") || negb (has "apiKey") || entities_missing options
      then invalid "environmentId, apiKey, and entities are required for sync snapshot"
      else ok_result
    else if part_is subCommand "diff" then
      if negb (has "targetEnvironmentId") || negb (has "targetApiKey")
      then invalid "targetEnvironmentId and targetApiKey are required for sync diff"
      else if negb (has "sourceEnvironmentId") && negb (has "folderName")
      then invalid "Either sourceEnvironmentId+sourceApiKey or folderName is required for sync diff"
      else if has "sourceEnvironmentId" && negb (has "sourceApiKey")
      then invalid "sourceApiKey is required when using sourceEnvironmentId"
      else if has "advanced" && outPath_blank options
      then invalid "outPath is required when advanced option is enabled"
      else ok_result
    else ok_result
  else if part_is mainCommand "migrate-content" || part_is mainCommand "migrations" then
    ok_result
  else invalid ("Unknown command: " ++ command).

(** A value returned or an [Error] thrown with its message. *)
Inductive outcome (A : Type) : Type :=
| Returned (a : A)
| Thrown (msg : string).
Arguments Returned {A} a.
Arguments Thrown {A} msg.

Definition key_is_environment_id (key : string) : bool :=
  includes (toLowerCase key) "environmentid" || includes (toLowerCase key) "environment_id".
Definition key_is_api_key (key : string) : bool :=
  includes (toLowerCase key) "apikey" || includes (toLowerCase key) "api_key".
Definition key_is_file_path (key : string) : bool :=
  includes (toLowerCase key) "filename" || includes (toLowerCase key) "file_name"
  || includes (toLowerCase key) "outpath" || includes (toLowerCase key) "folder".

(** The messages one entry pushes onto [errors], in the order of the three
    field checks. *)
Definition entry_errors (key : string) (v : value) : list string :=
  ((if key_is_environment_id key && truthy v && negb (validateEnvironmentId v)
    then [(key ++ " must be a valid UUID format")%string] else [])
   ++ (if key_is_api_key key && truthy v && negb (validateApiKey v 10)
       then [(key ++ " appears to be invalid")%string] else [])
   ++ (if key_is_file_path key && truthy v && negb (validateFilePath v 500)
       then [(key ++ " contains invalid characters or path traversal attempt")%string] else []))%list.

(** The object the sanitizer builds: its own entries in insertion order, and
    the entries of its prototype. The prototype of a fresh object literal
    has none of the option names; an assignment to the key [__proto__]
    replaces it and creates no own entry. *)
Record CommandOptions : Type := { entries : object; inherited : object }.

(** What a property read on the object goes through. *)
Definition properties (o : CommandOptions) : object := (entries o ++ inherited o)%list.

(** [sanitized[key] = v] *)
Definition assign (o : CommandOptions) (key : string) (v : value) : CommandOptions :=
  if String.eqb key "__proto__" then
    match v with
    | VObject _ | VArray _ => {| entries := entries o; inherited := entries_of v |}
    | VNull => {| entries := entries o; inherited := [] |}
    | _ => o
    end
  else {| entries := (entries o ++ [(key, v)])%list; inherited := inherited o |}.

(** The [for] loop of [validateAndSanitizeOptions] over [Object.entries],
    threading [sanitized] and [errors]. *)
Fixpoint sanitize_loop (options : object) (sanitized : CommandOptions) (errors : list string)
    : CommandOptions * list string :=
  match options with
  | [] => (sanitized, errors)
  | (key, v) :: rest =>
      if startsWith key "_" then sanitize_loop rest (assign sanitized key v) errors
      else sanitize_loop rest (assign sanitized key (sanitizeInput v))
                         (errors ++ entry_errors key v)%list
  end.

Definition validateAndSanitizeOptions (_command : string) (options : object)
    : outcome CommandOptions :=
  let '(sanitized, errors) :=
    sanitize_loop options {| entries := []; inherited := [] |} [] in
  if Nat.ltb 0 (List.length errors)
  then Thrown ("Validation errors: " ++ join ", " errors)
  else Returned sanitized.

End Validation.

Import Validation.

(** ** Argument builder (server commands module) *)

Module Commands.

(** [key.replace(/([A-Z])/g, '-$1')] *)
Fixpoint dash_upper (key : string) : string :=
  match key with
  | EmptyString => EmptyString
  | String c rest =>
      if is_upper_az c then String "-" (String c (dash_upper rest))
      else String c (dash_upper rest)
  end.

Definition kebabKey (key : string) : string := toLowerCase (dash_upper key).

(** What one [forEach] step pushes onto [args]. *)
Definition pushed (key : string) (v : value) : list string :=
  match v with
  | VNull | VUndefined => []
  | VString EmptyString => []
  | _ =>
      if startsWith key "_" then []
      else
        let flag := "--" ++ kebabKey key in
        match v with
        | VBool b => if b then [flag] else []
        | VArray items => flat_map (fun x => [flag; toString x]) items
        | VObject _ => []
        | _ => [flag; toString v]
        end
  end.

Definition buildDataOpsArgs (command : string) (options : object) : list string :=
  fold_left (fun args kv => (args ++ pushed (fst kv) (snd kv))%list)
            options (split " " command).

End Commands.

Import Commands.

(** ** Executor and stream relay (server executor and routes modules) *)

Module Server.

(** What the server process is configured with and finds on disk: the path of
    the CLI and whether [fs.access] on it succeeds. *)
Record environment : Type := { DATA_OPS_CLI : string; cli_exists : bool }.

(** The log of process creations: one argument vector per [execa] call. *)
Definition spawn_log := list (list string).

Definition cli_not_found (env : environment) : string :=
  "Data-ops CLI not found at " ++ DATA_OPS_CLI env ++ ". "
  ++ "Please ensure the data-ops repository is built. Run: cd data-ops && npm run build".

(** The [try] block of [executeDataOpsCommand]. *)
Definition execute_try (env : environment) (command : string) (options : object)
    (spawns : spawn_log) : outcome (list string) * spawn_log :=
  match validateAndSanitizeOptions command options with
  | Thrown msg => (Thrown msg, spawns)
  | Returned sanitizedOptions =>
      let validation := validateCommandOptions command (properties sanitizedOptions) in
      if negb (valid validation) then
        (Thrown (match message validation with
                 | Some m => if is_empty m then "Invalid command options" else m
                 | None => "Invalid command options"
                 end), spawns)
      else if negb (cli_exists env) then (Thrown (cli_not_found env), spawns)
      else
        let args := buildDataOpsArgs command (entries sanitizedOptions) in
        (Returned args, (spawns ++ [("node" :: DATA_OPS_CLI env :: args)%list])%list)
  end.

(** [executeDataOpsCommand]: the [catch] block rewrites any error whose
    message contains "not found" and rethrows the others. *)
Definition executeDataOpsCommand (env : environment) (command : string) (options : object)
    (spawns : spawn_log) : outcome (list string) * spawn_log :=
  match execute_try env command options spawns with
  | (Thrown msg, spawns') =>
      if includes msg "not found" then (Thrown (cli_not_found env), spawns')
      else (Thrown msg, spawns')
  | r => r
  end.

(** [getErrorSolution] (server errors module) *)
Definition getErrorSolution (errorMessage : string) : string :=
  if includes errorMessage "not found" || includes errorMessage "ENOENT" then
    "Please ensure the data-ops CLI is installed and accessible in your PATH, or set the DATA_OPS_CLI_PATH environment variable."
  else if includes errorMessage "required" then
    "Please ensure all required fields are filled in correctly."
  else if includes errorMessage "permission" then
    "Please check file permissions and ensure you have the necessary access rights."
  else
    "Please check the error message and try again. If the issue persists, review the logs for more details.".

Inductive StreamMessage : Type :=
| Connected (message : string)
| Output (level message : string)
| Progress (percent : Z) (message stage : string)
| Complete (success : bool) (message : string)
| ErrorEvent (message : string) (solution : option string).

Record ProgressStage : Type := { pattern : js_regex; stage_percent : Z; stage_name : string }.

Definition ci (r : regex) : js_regex := {| re := r; ignoreCase := true |}.

Definition progressStages : list (string * list ProgressStage) := [
  ("environment backup", [
     {| pattern := ci (Alt (Lit "backing up") (Lit "starting backup"));
        stage_percent := 10; stage_name := "Starting backup..." |};
     {| pattern := ci (Alt (seqs [Lit "fetching"; Star Dot; Lit "content"]) (Lit "retrieving"));
        stage_percent := 30; stage_name := "Fetching content..." |};
     {| pattern := ci (Alt (seqs [Lit "processing"; Star Dot; Lit "assets"])
                           (seqs [Lit "downloading"; Star Dot; Lit "assets"]));
        stage_percent := 50; stage_name := "Processing assets..." |};
     {| pattern := ci (Alt (seqs [Lit "creating"; Star Dot; Lit "zip"]) (Lit "compressing"));
        stage_percent := 80; stage_name := "Creating backup file..." |};
     {| pattern := ci (Alt (seqs [Lit "backup"; Star Dot; Lit "complete"]) (Lit "finished"));
        stage_percent := 100; stage_name := "Backup complete!" |} ]);
  ("environment restore", [
     {| pattern := ci (Alt (Lit "restoring") (Lit "starting restore"));
        stage_percent := 10; stage_name := "Starting restore..." |};
     {| pattern := ci (Alt (Lit "extracting") (Lit "unzipping"));
        stage_percent := 20; stage_name := "Extracting backup..." |};
     {| pattern := ci (Alt (Lit "uploading") (Lit "importing"));
        stage_percent := 50; stage_name := "Importing data..." |};
     {| pattern := ci (Alt (seqs [Lit "restore"; Star Dot; Lit "complete"]) (Lit "finished"));
        stage_percent := 100; stage_name := "Restore complete!" |} ]);
  ("sync run", [
     {| pattern := ci (Alt (Lit "syncing") (Lit "starting sync"));
        stage_percent := 10; stage_name := "Starting sync..." |};
     {| pattern := ci (Alt (Lit "comparing") (Lit "analyzing"));
        stage_percent := 30; stage_name := "Comparing environments..." |};
     {| pattern := ci (Alt (seqs [Lit "applying"; Star Dot; Lit "changes"]) (Lit "updating"));
        stage_percent := 60; stage_name := "Applying changes..." |};
     {| pattern := ci (Alt (seqs [Lit "sync"; Star Dot; Lit "complete"]) (Lit "finished"));
        stage_percent := 100; stage_name := "Sync complete!" |} ])
].

(** [progressStages[command] || []] *)
Fixpoint stages_of (table : list (string * list ProgressStage)) (command : string)
    : list ProgressStage :=
  match table with
  | [] => []
  | (name, stages) :: rest => if String.eqb name command then stages else stages_of rest command
  end.

(** One execution's response stream and the variables its handlers close
    over. [written] is what [res.write] has sent, oldest first. *)
Record relay : Type := {
  commandStages : list ProgressStage;
  written : list StreamMessage;
  ended : bool;
  lastProgressUpdate : Z;
  killed : bool;
  kill_signals : list string
}.

(** [res.write]; nothing is sent once the response has ended. *)
Definition write (msg : StreamMessage) (r : relay) : relay :=
  if ended r then r
  else {| commandStages := commandStages r; written := (written r ++ [msg])%list;
          ended := ended r; lastProgressUpdate := lastProgressUpdate r;
          killed := killed r; kill_signals := kill_signals r |}.

(** [res.end()] *)
Definition end_response (r : relay) : relay :=
  {| commandStages := commandStages r; written := written r;
     ended := true; lastProgressUpdate := lastProgressUpdate r;
     killed := killed r; kill_signals := kill_signals r |}.

Definition set_lastProgressUpdate (t : Z) (r : relay) : relay :=
  {| commandStages := commandStages r; written := written r;
     ended := ended r; lastProgressUpdate := t;
     killed := killed r; kill_signals := kill_signals r |}.

(** [cp.kill(signal)] *)
Definition kill (signal : string) (r : relay) : relay :=
  {| commandStages := commandStages r; written := written r;
     ended := ended r; lastProgressUpdate := lastProgressUpdate r;
     killed := true; kill_signals := (kill_signals r ++ [signal])%list |}.

(** [output.split('\n').filter(line => line.trim())] *)
Definition lines_of (data : string) : list string :=
  List.filter (fun line => negb (is_empty (trim line))) (split "010"%char data).

(** The [for ... break] over [commandStages] for one line; the clock is read
    once per chunk. *)
Fixpoint stage_scan (stages : list ProgressStage) (now : Z) (line : string) (r : relay)
    : relay :=
  match stages with
  | [] => r
  | stg :: rest =>
      if test (pattern stg) line && (500 <? now - lastProgressUpdate r)%Z
      then set_lastProgressUpdate now
             (write (Progress (stage_percent stg) line (stage_name stg)) r)
      else stage_scan rest now line r
  end.

Definition on_stdout_line (now : Z) (r : relay) (line : string) : relay :=
  write (Output "info" line) (stage_scan (commandStages r) now line r).

Definition on_stderr_line (r : relay) (line : string) : relay :=
  write (Output "error" line) r.

(** The events the handlers of one execution are registered for: data on the
    two pipes of the child process, its [close] and [error] events, and the
    [close] of the request. *)
Inductive event : Type :=
| StdoutData (now : Z) (data : string)
| StderrData (data : string)
| Close (exit_code : option Z)       (* [None] is [null] *)
| ProcessError (message : string)
| RequestClose.

Definition exit_text (exit_code : option Z) : string :=
  match exit_code with
  | Some c => string_of_Z c
  | None => "null"
  end.

Definition on_close (exit_code : option Z) (r : relay) : relay :=
  end_response
    (match exit_code with
     | Some 0%Z => write (Complete true "Command completed successfully") r
     | _ => write (Complete false ("Command exited with code " ++ exit_text exit_code)) r
     end).

Definition handle (r : relay) (e : event) : relay :=
  match e with
  | StdoutData now data => fold_left (on_stdout_line now) (lines_of data) r
  | StderrData data => fold_left on_stderr_line (lines_of data) r
  | Close exit_code => on_close exit_code r
  | ProcessError msg => end_response (write (ErrorEvent msg None) r)
  | RequestClose => if killed r then r else kill "SIGTERM" r
  end.

Definition handle_all (events : list event) (r : relay) : relay :=
  fold_left handle events r.

(** The stream as the route leaves it once the headers and the first event
    are written and the handlers are registered. *)
Definition open_stream (command : string) : relay :=
  {| commandStages := stages_of progressStages command;
     written := [Connected "Connected to command stream"];
     ended := false; lastProgressUpdate := 0;
     killed := false; kill_signals := [] |}.

(** The response of the execute route: a JSON rejection with its status, its
    [error] and its [solution] (the [details] field, present in development
    only, is left out), or the event stream. *)
Inductive response : Type :=
| Json (status : nat) (error solution : string)
| EventStream (r : relay).

Definition is_object (v : value) : bool :=
  match v with VNull | VArray _ | VObject _ => true | _ => false end.

(** The [catch] of the route before any header has been sent. *)
Definition reject (msg : string) : response :=
  if includes msg "Validation errors" then
    Json 500 msg "Please correct the validation errors and try again."
  else if includes msg "not found" then
    Json 500 "Data-ops CLI not found"
         "Please ensure the data-ops repository is built. Run: cd data-ops && npm run build"
  else Json 500 msg (getErrorSolution msg).

(** POST /api/execute, up to the registration of the handlers. *)
Definition execute_route (env : environment) (body : object) (spawns : spawn_log)
    : response * spawn_log :=
  let command := get body "command" in
  let options := get body "options" in
  match command with
  | VString cmd =>
      if is_empty cmd then
        (Json 400 "Command is required" "Please select a command to execute", spawns)
      else
        let n := List.length (split " " cmd) in
        if Nat.ltb n 2 || Nat.ltb 3 n then
          (Json 400 "Invalid command format"
                "Command must be in the format: <command> <subcommand>", spawns)
        else if truthy options && negb (is_object options) then
          (Json 400 "Invalid options format" "Options must be an object", spawns)
        else
          match executeDataOpsCommand env cmd
                  (if truthy options then entries_of options else []) spawns with
          | (Returned _, spawns') =>
              (EventStream (open_stream cmd), spawns')
          | (Thrown msg, spawns') => (reject msg, spawns')
          end
  | _ => (Json 400 "Command is required" "Please select a command to execute", spawns)
  end.

(** The events a response has put on the stream. *)
Definition stream_of (resp : response) : list StreamMessage :=
  match resp with
  | Json _ _ _ => []
  | EventStream r => written r
  end.

End Server.

Import Server.

(** ** Vocabulary of the stated properties *)

Module Claims.

(** An option counts as present when its value is truthy. *)
Definition present (options : object) (k : string) : bool := truthy (get options k).



(** The domain/action pairs declared by [getCommands]. *)
Definition declared_commands : list string :=
  ["environment backup"; "environment restore"; "environment clean";
   "sync run"; "sync snapshot"; "sync diff"].

Definition declared (command : string) : bool :=
  existsb (String.eqb command) declared_commands.

(** The first token of a command string. *)
Definition domain_of (command : string) : option string := part (split " " command) 0.

Definition known_domain (command : string) : bool :=
  part_is (domain_of command) "environment" || part_is (domain_of command) "sync"
  || part_is (domain_of command) "migrate-content" || part_is (domain_of command) "migrations".

(** The flag name as the description of the argument builder words it: the
    first character is kept and each later upper-case letter becomes a dash
    and its lower-case form. *)
Fixpoint dash_lower (s : string) : string :=
  match s with
  | EmptyString => EmptyString
  | String c rest =>
      if has_lower c then String "-" (String (lower_char c) (dash_lower rest))
      else String c (dash_lower rest)
  end.

Definition kebab_internal (key : string) : string :=
  match key with
  | EmptyString => EmptyString
  | String c rest => String c (dash_lower rest)
  end.

Fixpoint all_chars (p : ascii -> bool) (s : string) : bool :=
  match s with
  | EmptyString => true
  | String c rest => p c && all_chars p rest
  end.

(** A camel-case key: no leading capital, and no capital outside A-Z. *)
Definition camel_case (key : string) : bool :=
  match key with
  | EmptyString => true
  | String c rest =>
      negb (has_lower c) && all_chars (fun x => implb (has_lower x) (is_upper_az x)) rest
  end.

(** A file-path value as the sanitizer is described to accept it: no
    parent-directory token, no NUL, something left after trimming, and fewer
    than 500 characters. *)
Definition file_path_ok (s : string) : bool :=
  negb (includes s "..")
  && negb (includes s (String "000"%char EmptyString))
  && negb (is_empty (trim s))
  && Nat.ltb (String.length (trim s)) 500.

(** Events that can reach the handlers while the command is running. *)
Definition running_event (e : event) : bool :=
  match e with
  | StdoutData _ _ | StderrData _ | RequestClose => true
  | Close _ | ProcessError _ => false
  end.

(** Events relayed while the command is running: output and progress. *)
Definition relayed (msg : StreamMessage) : bool :=
  match msg with
  | Output _ _ | Progress _ _ _ => true
  | _ => false
  end.


(** *** The progress classifier as it is described *)

(** A run of one or more decimal digits. *)
Definition digit_text (s : string) : bool := negb (is_empty s) && all_chars is_digit s.

(** The integer that a run of digits writes: every digit weighs ten times
    the digit after it. *)
Fixpoint integer_of (s : string) : Z :=
  match s with
  | EmptyString => 0
  | String x rest =>
      (Z.of_N (code x - 48) * 10 ^ Z.of_nat (String.length rest) + integer_of rest)%Z
  end.

(** What a numeric pattern is made of: an integer (a run of digits), a text,
    white space (possibly none), a run of one or more characters of a kind,
    or one character of a list. A text is given in lower case. *)
Inductive piece : Type :=
| Integer
| Text (t : string)
| Blank
| Among (p : ascii -> bool)
| OneOf (cs : list ascii).

Record numeric_shape : Type := { pieces : list piece; any_case : bool }.

Definition colon_or_space (x : ascii) : bool := Ascii.eqb x ":" || is_space x.

(** "N% / M" or "N% \ M", "N of M", "Progress: N%", "N/M", "[N%]", in this
    order; letter case counts in none of the words. *)
Definition numeric_shapes : list numeric_shape :=
  [ {| pieces := [Integer; Text "%"; Blank; OneOf ["/"; "\"]%char; Blank; Integer];
       any_case := false |};
    {| pieces := [Integer; Blank; Text "of"; Blank; Integer]; any_case := true |};
    {| pieces := [Text "progress"; Among colon_or_space; Integer; Text "%"];
       any_case := true |};
    {| pieces := [Integer; Text "/"; Integer]; any_case := false |};
    {| pieces := [Text "["; Integer; Text "%"; Text "]"]; any_case := false |} ].

(** The longest run of characters of [p] at the front of [s], and the rest. *)
Fixpoint span (p : ascii -> bool) (s : string) : string * string :=
  match s with
  | String x rest =>
      if p x then (String x (fst (span p rest)), snd (span p rest)) else (EmptyString, s)
  | EmptyString => (EmptyString, EmptyString)
  end.

Definition same_char (any_case : bool) (a x : ascii) : bool :=
  if any_case then Ascii.eqb a (lower_char x) else Ascii.eqb a x.

(** What follows the text [t] at the front of [s]. *)
Fixpoint after_text (any_case : bool) (t s : string) : option string :=
  match t, s with
  | EmptyString, _ => Some s
  | String a t', String x s' =>
      if same_char any_case a x then after_text any_case t' s' else None
  | String _ _, EmptyString => None
  end.

(** Reading the pieces at the front of [s]: the integers read, as they are
    written, and what follows the last piece. *)
Fixpoint read (any_case : bool) (ps : list piece) (s : string)
    : option (list string * string) :=
  match ps with
  | [] => Some ([], s)
  | Integer :: rest =>
      if is_empty (fst (span is_digit s)) then None
      else
        match read any_case rest (snd (span is_digit s)) with
        | Some (ns, after) => Some (fst (span is_digit s) :: ns, after)
        | None => None
        end
  | Text t :: rest =>
      match after_text any_case t s with
      | Some s' => read any_case rest s'
      | None => None
      end
  | Blank :: rest => read any_case rest (snd (span is_space s))
  | Among p :: rest =>
      if is_empty (fst (span p s)) then None else read any_case rest (snd (span p s))
  | OneOf cs :: rest =>
      match s with
      | String x s' => if existsb (Ascii.eqb x) cs then read any_case rest s' else None
      | EmptyString => None
      end
  end.

(** The integers of the leftmost place of the line where the shape is read. *)
Fixpoint find_shape (sh : numeric_shape) (s : string) : option (list string) :=
  match read (any_case sh) (pieces sh) s with
  | Some (ns, _) => Some ns
  | None =>
      match s with
      | EmptyString => None
      | String _ s' => find_shape sh s'
      end
  end.

(** What one shape yields on a line: for two integers N and M with M > 0 the
    quotient of N by M times 100, in double precision; for a single integer,
    that integer; nothing otherwise. *)
Definition shape_percent (sh : numeric_shape) (line : string) : option number :=
  match find_shape sh line with
  | Some [n; m] =>
      if (0 <? integer_of m)%Z
      then Some (num_mul (num_div (number_of_Z (integer_of n)) (number_of_Z (integer_of m)))
                         hundred)
      else None
  | Some [n] => Some (number_of_Z (integer_of n))
  | _ => None
  end.

(** The first shape that yields a percentage wins. *)
Fixpoint first_percent (shapes : list numeric_shape) (line : string) : option number :=
  match shapes with
  | [] => None
  | sh :: rest =>
      match shape_percent sh line with
      | Some x => Some x
      | None => first_percent rest line
      end
  end.

(** The stage keywords with their labels, in order. *)
Definition stage_keywords : list (string * string) :=
  [("backing up", "Backing up data..."); ("restoring", "Restoring data...");
   ("syncing", "Synchronizing..."); ("processing", "Processing...");
   ("validating", "Validating..."); ("fetching", "Fetching data...");
   ("uploading", "Uploading..."); ("downloading", "Downloading...")].

(** The label of the first keyword found in the line, letter case ignored. *)
Fixpoint first_keyword (keywords : list (string * string)) (line : string) : option string :=
  match keywords with
  | [] => None
  | (kw, label) :: rest =>
      if includes (toLowerCase line) kw then Some label else first_keyword rest line
  end.

Inductive signal : Type :=
| Percent (x : number)
| Stage (label : string).

Definition classify (line : string) : option signal :=
  match first_percent numeric_shapes line with
  | Some x => Some (Percent x)
  | None => option_map Stage (first_keyword stage_keywords line)
  end.

(** The result of the code read as a signal about [line]. *)
Definition agrees (line : string) (res : option ProgressInfo) (sig : option signal) : Prop :=
  match res, sig with
  | Some info, Some (Percent x) =>
      Frontend.percent info = Some x
      /\ Frontend.message info = line /\ Frontend.stage info = ""
  | Some info, Some (Stage label) =>
      Frontend.percent info = None /\ Frontend.message info = line
      /\ Frontend.stage info = label
  | None, None => True
  | _, _ => False
  end.

(** The percentage as the claim words it, 100*N/M, read in double precision
    and read in the rationals. *)
Definition hundred_times_first (n m : Z) : number :=
  num_div (num_mul hundred (number_of_Z n)) (number_of_Z m).

Definition exact_percent (n m : Z) : Q := (100 * inject_Z n / inject_Z m)%Q.

(** The rational that a number is, when it is finite. *)
Definition rational_of (x : number) : option Q :=
  match x with
  | S754_zero _ => Some 0%Q
  | S754_finite s m e =>
      Some ((if s then -1 else 1) * inject_Z (Z.pos m) * two_to e)%Q
  | _ => None
  end.

(** *** Notions used to relate the patterns of the code to the shapes *)

(** Lower-case ASCII letters and the space: the characters of the keywords. *)
Definition plain_char (a : ascii) : bool := in_range 97 122 a || Ascii.eqb a " ".

Definition all_ascii : list ascii := map ascii_of_nat (seq 0 256).

(** The regular expression of a text and of a list of pieces; the integers
    are the groups, numbered from [i] on. *)
Definition text_regex (t : string) : regex :=
  match t with
  | String a EmptyString => Chr a
  | _ => Lit t
  end.

Fixpoint pieces_regexes (i : nat) (ps : list piece) : list regex :=
  match ps with
  | [] => []
  | Integer :: rest => Group i (Plus digit) :: pieces_regexes (S i) rest
  | Text t :: rest => text_regex t :: pieces_regexes i rest
  | Blank :: rest => Star space :: pieces_regexes i rest
  | Among p :: rest => Plus (Cls p) :: pieces_regexes i rest
  | OneOf cs :: rest => one_of cs :: pieces_regexes i rest
  end.

Definition shape_regex (sh : numeric_shape) : js_regex :=
  {| re := seqs (pieces_regexes 1 (pieces sh)); ignoreCase := any_case sh |}.

(** The captures after the integers [ns] are read as groups [i], [i+1], ... *)
Fixpoint add_groups (i : nat) (ns : list string) (c : captures) : captures :=
  match ns with
  | [] => c
  | n :: rest => add_groups (S i) rest ((i, n) :: c)
  end.

(** The remainders a greedy run over the characters of [p] can stop at, the
    shortest remainder first. *)
Fixpoint drops (p : ascii -> bool) (s : string) : list string :=
  match s with
  | String x rest => if p x then (drops p rest ++ [s])%list else [s]
  | EmptyString => [EmptyString]
  end.

(** The engine's test of a class or of a character is the plain one. *)
Definition class_closed (ci : bool) (p : ascii -> bool) : bool :=
  forallb (fun x => Bool.eqb (class_has ci p x) (p x)) all_ascii.

Definition text_closed (ci : bool) (t : string) : bool :=
  all_chars (fun a => forallb (fun x => Bool.eqb (char_eq ci a x) (same_char ci a x))
                              all_ascii) t.

Definition none_of (C q : ascii -> bool) : bool :=
  forallb (fun x => implb (C x) (negb (q x))) all_ascii.

(** No character of [C] can start what the pieces read. *)
Fixpoint shut (ci : bool) (C : ascii -> bool) (ps : list piece) : bool :=
  match ps with
  | [] => false
  | Integer :: _ => none_of C is_digit
  | Text EmptyString :: rest => shut ci C rest
  | Text (String a _) :: _ => none_of C (same_char ci a)
  | Blank :: rest => none_of C is_space && shut ci C rest
  | Among p :: _ => none_of C p
  | OneOf cs :: _ => none_of C (fun x => existsb (Ascii.eqb x) cs)
  end.

Definition is_nil (ps : list piece) : bool :=
  match ps with [] => true | _ => false end.

(** Reading the pieces greedily loses no match: what follows a run cannot
    start with a character of the run. *)
Fixpoint determined (ci : bool) (ps : list piece) : bool :=
  match ps with
  | [] => true
  | Integer :: rest => (is_nil rest || shut ci is_digit rest) && determined ci rest
  | Text t :: rest => text_closed ci t && determined ci rest
  | Blank :: rest => (is_nil rest || shut ci is_space rest) && determined ci rest
  | Among p :: rest =>
      class_closed ci p && (is_nil rest || shut ci p rest) && determined ci rest
  | OneOf cs :: rest =>
      class_closed ci (fun x => existsb (Ascii.eqb x) cs) && determined ci rest
  end.

Fixpoint integers (ps : list piece) : nat :=
  match ps with
  | [] => 0
  | Integer :: rest => S (integers rest)
  | _ :: rest => integers rest
  end.

(** *** Vocabulary of the statements about numbers and exit codes *)

(** A number that is not below zero: its sign bit is clear, or it is NaN. *)
Definition not_negative (x : number) : Prop :=
  match x with
  | S754_zero s | S754_infinity s | S754_finite s _ _ => s = false
  | S754_nan => True
  end.

(** A shape that is read greedily without loss and holds one or two
    integers. *)
Definition usable (sh : numeric_shape) : bool :=
  determined (any_case sh) (pieces sh)
  && (Nat.eqb (integers (pieces sh)) 1 || Nat.eqb (integers (pieces sh)) 2).

(** A run of [n] nines. *)
Fixpoint nines (n : nat) : string :=
  match n with O => EmptyString | S n' => String "9" (nines n') end.



(** *** Validation failures of an execute request *)

(** The option identifiers declared by [getCommands]. *)
Definition option_ids : list string :=
  ["environmentId"; "apiKey"; "fileName"; "secureAssetDeliveryKey"; "include"; "exclude";
   "kontentUrl"; "excludeInactiveLanguages"; "skipWarning"; "targetEnvironmentId";
   "targetApiKey"; "entities"; "sourceEnvironmentId"; "sourceApiKey"; "folderName";
   "skipConfirmation"; "advanced"; "outPath"; "noOpen"].

(** The options the route hands to the executor: [options || {}]. *)
Definition request_options (body : object) : object :=
  if truthy (get body "options") then entries_of (get body "options") else [].

(** The request passes the format checks made before the executor is called. *)
Definition well_formed (body : object) : bool :=
  match get body "command" with
  | VString cmd =>
      negb (is_empty cmd)
      && Nat.leb 2 (List.length (split " " cmd))
      && Nat.leb (List.length (split " " cmd)) 3
      && negb (truthy (get body "options") && negb (is_object (get body "options")))
  | _ => false
  end.

(** The options of a request fail sanitization or command validation, with
    the message of the failure. *)
Inductive validation_failure (cmd : string) (options : object) : string -> Prop :=
| sanitize_fails (msg : string) :
    validateAndSanitizeOptions cmd options = Thrown msg ->
    validation_failure cmd options msg
| validate_fails (sanitized : CommandOptions) (msg : string) :
    validateAndSanitizeOptions cmd options = Returned sanitized ->
    validateCommandOptions cmd (properties sanitized) = invalid msg ->
    validation_failure cmd options msg.

(** An entry the sanitizer records a violation for. *)
Definition violates (key : string) (v : value) : bool :=
  negb (startsWith key "_")
  && match entry_errors key v with [] => false | _ => true end.

(** An option that does not meet what the command validator asks of it. *)
Definition offending (options : object) (k : string) : bool :=
  negb (present options k)
  || (String.eqb k "entities" && entities_missing options)
  || (String.eqb k "outPath" && outPath_blank options).

(** The text names one of the given option keys. *)
Definition names_one_of (keys : list string) (text : string) : bool :=
  existsb (fun k => includes text k) keys.

(** *** Auxiliary notions of the proofs and the inputs of the examples *)

(** What a handler may do to a stream: append messages that all satisfy [P],
    leaving the end flag and the stage table alone. *)
Definition extends (P : StreamMessage -> bool) (r r' : relay) : Prop :=
  exists more, written r' = (written r ++ more)%list
               /\ forallb P more = true
               /\ ended r' = ended r
               /\ commandStages r' = commandStages r
               /\ (ended r = true -> more = []).

(** The errors of one entry, none for an internal key. *)
Definition errors_of (kv : string * value) : list string :=
  if startsWith (fst kv) "_" then [] else entry_errors (fst kv) (snd kv).


(** A request for a command of an unknown domain. *)
Definition unknown_command_request : object :=
  [("command", VString "deploy now"); ("options", VObject [])].

(** A request with a too short API key under a key that contains "not found". *)
Definition not_found_key_request : object :=
  [("command", VString "environment backup");
   ("options", VObject [("apiKey not found", VString "short")])].

(** An [environment backup] request without its [apiKey]. *)
Definition missing_key_request : object :=
  [("command", VString "environment backup");
   ("options", VObject [("environmentId", VString "123e4567-e89b-12d3-a456-426614174000")])].

(** An [environment backup] request whose options sit under [__proto__]. *)
Definition inherited_options_request : object :=
  [("command", VString "environment backup");
   ("options",
    VObject [("__proto__",
              VObject [("environmentId", VString "123e4567-e89b-12d3-a456-426614174000");
                       ("apiKey", VString "aaaaaaaaaaaaaaaaaaaa")])])].

(** A server whose CLI is built and in place. *)
Definition some_env : environment :=
  {| DATA_OPS_CLI := "/app/data-ops/build/src/index.js"; cli_exists := true |}.

End Claims.

Import Claims.

(** ** Further parts of the server and of the front end *)

Module More.

(** *** Rate-limit middleware (src/server/rateLimit.ts) *)

(** What the middleware reads of a request: [req.ip] and
    [req.connection.remoteAddress], [None] for [undefined]. *)
Record request : Type := { req_ip : option string; remoteAddress : option string }.

(** The middleware either calls [next()] or answers 429 with this body. *)
Inductive middleware_result : Type :=
| Next
| TooManyRequests (error message : string) (retryAfter : Z).

Definition opt_is (o : option string) (s : string) : bool :=
  match o with Some x => String.eqb x s | None => false end.

(** [a || b] on strings that may be undefined: the empty string is falsy. *)
Definition or_else (a : option string) (b : option string) : option string :=
  match a with
  | Some x => if is_empty x then b else a
  | None => b
  end.

(** [req.ip || req.connection.remoteAddress || 'unknown'] *)
Definition client_key (req : request) : string :=
  default "unknown" (or_else (or_else (req_ip req) (remoteAddress req)) (Some "unknown")).

Definition rateLimitMiddleware (NODE_ENV : option string) (req : request) (now : Z)
    (rateLimitMap : gmap string (list Z)) : middleware_result * gmap string (list Z) :=
  if opt_is NODE_ENV "development"
     && (opt_is (req_ip req) "127.0.0.1" || opt_is (req_ip req) "::1")
  then (Next, rateLimitMap)
  else
    match RateLimit.checkRateLimit now (client_key req) rateLimitMap with
    | (false, m) =>
        (TooManyRequests "Too many requests" "Rate limit exceeded. Please try again later."
                         ((RateLimit.RATE_LIMIT_WINDOW + 999) / 1000), m)
    | (true, m) => (Next, m)
    end.

(** The timestamps admitted among successive checks of one client. *)
Fixpoint admitted (windowMs : Z) (maxRequests : nat) (ip : string)
    (times : list Z) (m : gmap string (list Z)) : list Z :=
  match times with
  | [] => []
  | now :: rest =>
      let '(ok, m') := RateLimit.checkLimit windowMs maxRequests now ip m in
      ((if ok then [now] else []) ++ admitted windowMs maxRequests ip rest m')%list
  end.

(** Clock readings that never go back, none before [from]. *)
Fixpoint nondecreasing (from : Z) (times : list Z) : Prop :=
  match times with
  | [] => True
  | t :: rest => (from <= t)%Z /\ nondecreasing t rest
  end.

(** *** The command table (getCommands in the routes module)

    Of each option its identifier, its type, whether it is required, and its
    [fetchable], [implies] and [dependsOn] fields; the presentation texts
    (name, description, tooltip, label, placeholder, choices) are left out. *)

Inductive option_type : Type :=
| text | password | checkbox | multiselect | entity_multiselect.

Record CommandOption : Type := {
  id : string;
  type : option_type;
  required : bool;
  fetchable : bool;
  implies : list string;
  dependsOn : option string
}.

Definition opt (i : string) (t : option_type) (r : bool) : CommandOption :=
  {| id := i; type := t; required := r; fetchable := false; implies := []; dependsOn := None |}.

Definition entities_opt (i : string) : CommandOption :=
  {| id := i; type := entity_multiselect; required := false; fetchable := true;
     implies := []; dependsOn := None |}.

Definition getCommands : list (string * list CommandOption) := [
  ("environment backup",
   [opt "environmentId" text true; opt "apiKey" password true; opt "fileName" text false;
    opt "secureAssetDeliveryKey" password false; entities_opt "include";
    entities_opt "exclude"; opt "kontentUrl" text false]);
  ("environment restore",
   [opt "environmentId" text true; opt "apiKey" password true; opt "fileName" text true;
    entities_opt "include"; entities_opt "exclude";
    opt "excludeInactiveLanguages" checkbox false; opt "kontentUrl" text false]);
  ("environment clean",
   [opt "environmentId" text true; opt "apiKey" password true;
    entities_opt "include"; entities_opt "exclude";
    opt "skipWarning" checkbox false; opt "kontentUrl" text false]);
  ("sync run",
   [opt "targetEnvironmentId" text true; opt "targetApiKey" password true;
    opt "entities" multiselect true; opt "sourceEnvironmentId" text false;
    opt "sourceApiKey" password false; opt "folderName" text false;
    opt "skipConfirmation" checkbox false; opt "kontentUrl" text false]);
  ("sync snapshot",
   [opt "environmentId" text true; opt "apiKey" password true;
    opt "entities" multiselect true; opt "folderName" text false;
    opt "kontentUrl" text false]);
  ("sync diff",
   [opt "targetEnvironmentId" text true; opt "targetApiKey" password true;
    opt "sourceEnvironmentId" text false; opt "sourceApiKey" password false;
    opt "folderName" text false; opt "entities" multiselect false;
    {| id := "advanced"; type := checkbox; required := false; fetchable := false;
       implies := ["outPath"]; dependsOn := None |};
    {| id := "outPath"; type := text; required := false; fetchable := false;
       implies := []; dependsOn := Some "advanced" |};
    {| id := "noOpen"; type := checkbox; required := false; fetchable := false;
       implies := []; dependsOn := Some "advanced" |};
    opt "kontentUrl" text false])
].

(** *** The checks of POST /api/fetch-entities before the client is created *)

Inductive fetch_gate : Type :=
| FetchRejected (status : nat) (error solution : string)
| FetchProceeds (environmentId apiKey : value).

Definition fetch_entities_gate (body : object) : fetch_gate :=
  let environmentId := get body "environmentId" in
  let apiKey := get body "apiKey" in
  if negb (truthy environmentId) || negb (truthy apiKey) then
    FetchRejected 400 "environmentId and apiKey are required"
                  "Please provide both environment ID and API key."
  else if negb (validateEnvironmentId environmentId) then
    FetchRejected 400 "Invalid environment ID format" "Environment ID must be a valid UUID."
  else if negb (validateApiKey apiKey 10) then
    FetchRejected 400 "Invalid API key format"
                  "API key appears to be invalid. Please check your Management API key."
  else FetchProceeds environmentId apiKey.

(** *** Front-end input utilities (frontend/app-frontend.js, src/utils/validation.js) *)

(** [s.replace(/[<>]/g, '')] *)
Fixpoint strip_angle (s : string) : string :=
  match s with
  | EmptyString => EmptyString
  | String c rest =>
      if Ascii.eqb c "<" || Ascii.eqb c ">" then strip_angle rest
      else String c (strip_angle rest)
  end.

(** The front end's [sanitizeInput]. *)
Definition frontend_sanitizeInput (input : value) : value :=
  match input with
  | VString s => VString (strip_angle (trim s))
  | _ => input
  end.

(** The front end's [isValidFilePath]. *)
Definition isValidFilePath (filePath : value) (maxLength : nat) : bool :=
  match filePath with
  | VString s =>
      if is_empty s then false
      else
        let normalized := trim s in
        Nat.ltb 0 (String.length normalized)
        && Nat.ltb (String.length normalized) maxLength
        && negb (includes normalized "..")
        && negb (includes normalized (String "000"%char EmptyString))
  | _ => false
  end.

(** *** Vocabulary of the further properties *)

(** A string laid out character by character on a list of tests. *)
Fixpoint fits (shape : list (ascii -> bool)) (s : string) : bool :=
  match shape, s with
  | [], EmptyString => true
  | p :: ps, String x rest => p x && fits ps rest
  | _, _ => false
  end.

(** A hexadecimal digit of either case. *)
Definition is_hex (x : ascii) : bool :=
  is_digit x || in_range 97 102 x || in_range 65 70 x.

Definition is_dash (x : ascii) : bool := Ascii.eqb x "-".

(** xxxxxxxx-xxxx-xxxx-xxxx-xxxxxxxxxxxx *)
Definition uuid_shape : list (ascii -> bool) :=
  (repeat is_hex 8 ++ [is_dash] ++ repeat is_hex 4 ++ [is_dash] ++ repeat is_hex 4
   ++ [is_dash] ++ repeat is_hex 4 ++ [is_dash] ++ repeat is_hex 12)%list.

(** Patterns made of single-character tests and anchors only, and what
    matching one of them at the front of [s] leaves. *)
Fixpoint linear (r : regex) : Prop :=
  match r with
  | Eps | Chr _ | Cls _ | Bol | Eol => True
  | Seq a b => linear a /\ linear b
  | _ => False
  end.

Fixpoint walk (ci : bool) (inp : string) (r : regex) (s : string) : option string :=
  match r with
  | Eps => Some s
  | Chr a =>
      match s with
      | String x s' => if char_eq ci a x then Some s' else None
      | EmptyString => None
      end
  | Cls p =>
      match s with
      | String x s' => if class_has ci p x then Some s' else None
      | EmptyString => None
      end
  | Bol => if Nat.eqb (String.length s) (String.length inp) then Some s else None
  | Eol => if is_empty s then Some s else None
  | Seq a b =>
      match walk ci inp a s with
      | Some s' => walk ci inp b s'
      | None => None
      end
  | _ => None
  end.

(** The first and the last character of a string are not white space. *)
Definition no_outer_space (s : string) : bool :=
  match s with
  | EmptyString => true
  | String c _ =>
      negb (is_space c)
      && match last_char s with Some l => negb (is_space l) | None => true end
  end.

(** A relative path climbs above its starting directory: walking its
    segments from depth [d], a [..] is met at depth 0. *)
Fixpoint climbs (d : nat) (segments : list string) : bool :=
  match segments with
  | [] => false
  | seg :: rest =>
      if is_empty seg || String.eqb seg "." then climbs d rest
      else if String.eqb seg ".." then
        match d with
        | O => true
        | S d' => climbs d' rest
        end
      else climbs (S d) rest
  end.

(** The sanitized form of one entry. *)
Definition sanitized_entry (kv : string * value) : string * value :=
  if startsWith (fst kv) "_" then kv else (fst kv, sanitizeInput (snd kv)).

Definition is_output (msg : StreamMessage) : bool :=
  match msg with Output _ _ => true | _ => false end.

Definition is_request_close (e : event) : bool :=
  match e with RequestClose => true | _ => false end.

(** The tests a pattern without anchors makes, one per character. *)
Fixpoint shape_of (ci : bool) (r : regex) : list (ascii -> bool) :=
  match r with
  | Chr a => [char_eq ci a]
  | Cls p => [class_has ci p]
  | Seq a b => (shape_of ci a ++ shape_of ci b)%list
  | _ => []
  end.

Fixpoint unanchored (r : regex) : Prop :=
  match r with
  | Eps | Chr _ | Cls _ => True
  | Seq a b => unanchored a /\ unanchored b
  | _ => False
  end.

(** Matching a list of character tests at the front of a string. *)
Fixpoint strip (shape : list (ascii -> bool)) (s : string) : option string :=
  match shape with
  | [] => Some s
  | p :: ps =>
      match s with
      | String x rest => if p x then strip ps rest else None
      | EmptyString => None
      end
  end.

(** The part of the UUID pattern between [^] and [$]. *)
Definition uuid_body : regex :=
  seqs [Rep 8 hex; Chr "-"; Rep 4 hex; Chr "-"; Rep 4 hex; Chr "-"; Rep 4 hex; Chr "-";
        Rep 12 hex].

(** The characters of the segments of a path and one separator for each. *)
Definition weight (l : list string) : nat := list_sum (map (fun e => S (String.length e)) l).

Definition empties (l : list string) : nat := List.length (List.filter is_empty l).

(** An entry that assignment stores as an own property. *)
Definition not_proto (kv : string * value) : bool := negb (String.eqb (fst kv) "__proto__").

(** The option is given as its declaration asks: truthy, and a list with at
    least one item when it is a multiple choice. *)
Definition given (options : object) (o : CommandOption) : bool :=
  present options (id o)
  && match type o with
     | multiselect | entity_multiselect =>
         match get options (id o) with
         | VArray (_ :: _) => true
         | _ => false
         end
     | _ => true
     end.

(** A handler leaves the kill state as it is. *)
Definition same_kill (r r' : relay) : Prop :=
  killed r' = killed r /\ kill_signals r' = kill_signals r.

(** What a handler appends while the response is open. *)
Definition grows (r r' : relay) (more : list StreamMessage) : Prop :=
  written r' = (written r ++ more)%list /\ ended r' = false
  /\ commandStages r' = commandStages r.

(** *** The execute route as it is registered, and the lines of a chunk *)

(** What POST /api/execute answers: the 429 of the rate-limit middleware, or
    the answer of the handler. *)
Inductive route_answer : Type :=
| RateLimited (error message : string) (retryAfter : Z)
| Answered (r : response).

(** The route as it is registered: the middleware, then the handler. *)
Definition post_execute (NODE_ENV : option string) (req : request) (now : Z)
    (rateLimitMap : gmap string (list Z)) (env : environment) (body : object)
    (spawns : spawn_log) : route_answer * gmap string (list Z) * spawn_log :=
  match rateLimitMiddleware NODE_ENV req now rateLimitMap with
  | (Next, m) =>
      let '(r, spawns') := execute_route env body spawns in (Answered r, m, spawns')
  | (TooManyRequests error message retryAfter, m) =>
      (RateLimited error message retryAfter, m, spawns)
  end.

Definition line_feed : ascii := "010"%char.

(** The text whose lines are [segs]: a line feed between two lines. *)
Fixpoint lf_joined (segs : list string) : string :=
  match segs with
  | [] => EmptyString
  | [seg] => seg
  | seg :: rest => seg ++ String line_feed (lf_joined rest)
  end.

Definition no_line_feed (s : string) : bool :=
  all_chars (fun c => negb (Ascii.eqb c line_feed)) s.

(** Nothing but white space. *)
Definition blank (s : string) : bool := all_chars is_space s.

Definition not_blank (s : string) : bool := negb (blank s).

(** *** Example inputs *)

Definition clean_request : object :=
  [("command", VString "environment clean");
   ("options", VObject [("environmentId", VString "123e4567-e89b-12d3-a456-426614174000");
                        ("apiKey", VString "aaaaaaaaaaaaaaaaaaaa");
                        ("skipWarning", VBool true)])].

(** A client with 30 requests on record, all made at 1000 ms. *)
Definition busy_client : request :=
  {| req_ip := Some "203.0.113.7"; remoteAddress := None |}.

Definition busy_map : gmap string (list Z) := {[ "203.0.113.7" := repeat 1000%Z 30 ]}.

(** The record of the busy client after 30 more requests, admitted at 61000. *)
Definition busy_again_map : gmap string (list Z) :=
  {[ "203.0.113.7" := repeat 61000%Z 30 ]}.

End More.

Import More.

(** * Properties *)

(** ** Rate limiter *)

Section RateLimitFacts.

Import RateLimit.

Implicit Types (m : gmap string (list Z)) (ip : string) (now : Z).

Lemma checkLimit_admit windowMs maxRequests now ip m :
  length (pruned windowMs now ip m) < maxRequests ->
  checkLimit windowMs maxRequests now ip m
  = (true, <[ip := (pruned windowMs now ip m ++ [now])%list]> m).
Proof.
  intros Hlt. unfold checkLimit, pruned in *.
  destruct (decide _) as [Hge | _]; [lia | reflexivity].
Qed.

Lemma checkLimit_reject windowMs maxRequests now ip m :
  maxRequests <= length (pruned windowMs now ip m) ->
  checkLimit windowMs maxRequests now ip m = (false, m).
Proof.
  intros Hge. unfold checkLimit, pruned in *.
  destruct (decide _) as [_ | Hlt]; [reflexivity | lia].
Qed.

Lemma pruned_insert windowMs now ip l m :
  pruned windowMs now ip (<[ip := l]> m)
  = filter (fun timestamp => (now - timestamp < windowMs)%Z) l.
Proof. unfold pruned. by rewrite lookup_insert_eq. Qed.

Lemma pruned_fresh windowMs now ip m :
  m !! ip = None -> pruned windowMs now ip m = [].
Proof. intros H. unfold pruned. by rewrite H. Qed.

(** C9: a check prunes the client's timestamps to the window, then admits and
    records the request exactly when the pruned count is strictly below the
    maximum; with a window of 1000 ms and a maximum of 3, four checks of a
    fresh client within 999 ms answer true, true, true, false, and a check
    once the window has elapsed answers true again. *)
Theorem checkLimit_sliding_window :
  (forall windowMs maxRequests now ip m,
      (fst (checkLimit windowMs maxRequests now ip m) = true
       <-> length (pruned windowMs now ip m) < maxRequests)
      /\ (fst (checkLimit windowMs maxRequests now ip m) = true ->
          snd (checkLimit windowMs maxRequests now ip m)
          = <[ip := (pruned windowMs now ip m ++ [now])%list]> m))
  /\ (forall ip m (t1 t2 t3 t4 t5 : Z),
         m !! ip = None ->
         (t1 <= t2 <= t3)%Z -> (t3 <= t4)%Z -> (t4 - t1 <= 999)%Z ->
         (1000 <= t5 - t4)%Z ->
         fst (checks 1000 3 ip [t1; t2; t3; t4; t5] m)
         = [true; true; true; false; true]).
Proof.
  split.
  - intros windowMs maxRequests now ip m.
    destruct (decide (length (pruned windowMs now ip m) < maxRequests)) as [Hlt | Hge].
    + rewrite (checkLimit_admit _ _ _ _ _ Hlt). simpl. split; [tauto | reflexivity].
    + rewrite checkLimit_reject by lia. simpl. split; [split; [discriminate | lia] | discriminate].
  - intros ip m t1 t2 t3 t4 t5 Hfresh H123 H34 Hspan Hlater.
    unfold checks.
    rewrite checkLimit_admit; rewrite (pruned_fresh _ _ _ _ Hfresh); [| simpl; lia].
    rewrite app_nil_l.
    rewrite checkLimit_admit; rewrite pruned_insert.
    2: { rewrite filter_cons_True by lia. rewrite filter_nil. simpl. lia. }
    rewrite filter_cons_True by lia. rewrite filter_nil. simpl app.
    rewrite checkLimit_admit; rewrite pruned_insert.
    2: { rewrite !filter_cons_True by lia. rewrite filter_nil. simpl. lia. }
    rewrite !filter_cons_True by lia. rewrite filter_nil. simpl app.
    rewrite checkLimit_reject.
    2: { rewrite pruned_insert. rewrite !filter_cons_True by lia. rewrite filter_nil.
         simpl. lia. }
    rewrite checkLimit_admit; rewrite pruned_insert.
    2: { rewrite !filter_cons_False by lia. rewrite filter_nil. simpl. lia. }
    reflexivity.
Qed.

Lemma checkLimit_sliding_window_witness :
  (∅ : gmap string (list Z)) !! "203.0.113.7" = None
  /\ fst (checks 1000 3 "203.0.113.7" [0; 300; 600; 999; 1999]%Z ∅)
     = [true; true; true; false; true].
Proof.
  split; [reflexivity |].
  apply (proj2 checkLimit_sliding_window "203.0.113.7" ∅ 0 300 600 999 1999)%Z;
    [reflexivity | lia | lia | lia | lia].
Defined.

(** C10: a rejected check leaves the whole map as it was; neither the
    request's timestamp nor the pruned list is stored. *)
Theorem checkLimit_reject_keeps_map windowMs maxRequests now ip m :
  fst (checkLimit windowMs maxRequests now ip m) = false ->
  snd (checkLimit windowMs maxRequests now ip m) = m
  /\ snd (checkLimit windowMs maxRequests now ip m) !! ip = m !! ip.
Proof.
  intros Hrej.
  destruct (decide (length (pruned windowMs now ip m) < maxRequests)) as [Hlt | Hge].
  - rewrite (checkLimit_admit _ _ _ _ _ Hlt) in Hrej. discriminate.
  - rewrite checkLimit_reject by lia. by split.
Qed.

Lemma checkLimit_reject_keeps_map_witness :
  fst (checkLimit 1000 3 999 "203.0.113.7" {[ "203.0.113.7" := [0; 300; 600]%Z ]}) = false
  /\ snd (checkLimit 1000 3 999 "203.0.113.7" {[ "203.0.113.7" := [0; 300; 600]%Z ]})
     = {[ "203.0.113.7" := [0; 300; 600]%Z ]}.
Proof.
  split; [reflexivity |].
  apply (checkLimit_reject_keeps_map 1000 3 999 "203.0.113.7"
           {[ "203.0.113.7" := [0; 300; 600]%Z ]}).
  reflexivity.
Defined.

End RateLimitFacts.

(** ** Strings and characters *)

Section StringFacts.

Lemma length_append_string (a b : string) :
  String.length (a ++ b) = String.length a + String.length b.
Proof. induction a as [| x a IH]; simpl; [reflexivity | by rewrite IH]. Qed.

Lemma substring_prefix (a b : string) :
  String.substring 0 (String.length a) (a ++ b) = a.
Proof. induction a as [| x a IH]; simpl; [by destruct b | by rewrite IH]. Qed.

Lemma consumed_app (d rest : string) : consumed (d ++ rest) rest = d.
Proof.
  unfold consumed. rewrite length_append_string.
  replace (String.length d + String.length rest - String.length rest)
    with (String.length d) by lia.
  apply substring_prefix.
Qed.

Lemma all_ascii_complete (x : ascii) : In x all_ascii.
Proof.
  unfold all_ascii. rewrite <- (ascii_nat_embedding x).
  apply in_map, in_seq. pose proof (nat_ascii_bounded x). lia.
Qed.

Lemma for_all_ascii (P : ascii -> bool) :
  forallb P all_ascii = true -> forall x, P x = true.
Proof. intros H x. rewrite forallb_forall in H. apply H, all_ascii_complete. Qed.

Lemma class_digit_ci (ci : bool) (x : ascii) : class_has ci is_digit x = is_digit x.
Proof.
  destruct ci; [| reflexivity]. revert x.
  assert (H : forall x, Bool.eqb (class_has true is_digit x) (is_digit x) = true).
  { apply for_all_ascii. vm_compute. reflexivity. }
  intros x. apply eqb_prop, H.
Qed.

Lemma digit_not_space (x : ascii) :
  is_digit x = true -> is_space x = false /\ x <> "-"%char /\ x <> "+"%char.
Proof.
  assert (H : forall x, implb (is_digit x)
                          (negb (is_space x) && negb (Ascii.eqb x "-") && negb (Ascii.eqb x "+")) = true).
  { apply for_all_ascii. vm_compute. reflexivity. }
  intros Hd. specialize (H x). rewrite Hd in H. simpl in H.
  apply andb_prop in H as [[H1 H2]%andb_prop H3].
  apply negb_true_iff in H1, H2, H3. apply Ascii.eqb_neq in H2, H3. by repeat split.
Qed.

End StringFacts.


(** ** Command validator *)

Section ValidatorFacts.

Implicit Types (options : object).







(** C5, as stated, fails: commands outside the declared pairs that the
    validator lets through. *)
Lemma undeclared_commands_accepted :
  declared "migrations run" = false
  /\ validateCommandOptions "migrations run" [] = ok_result
  /\ declared "environment publish" = false
  /\ validateCommandOptions "environment publish" [] = ok_result.
Proof. repeat split. Qed.

(** C5 (amended): a command whose first token is none of [environment],
    [sync], [migrate-content], [migrations] fails validation with the message
    "Unknown command: <command>", whatever the options; a command of the
    [migrate-content] or [migrations] domain is accepted without any option
    check. *)
Theorem unknown_domain_rejected command options :
  (known_domain command = false ->
     validateCommandOptions command options = invalid ("Unknown command: " ++ command))
  /\ (part_is (domain_of command) "migrate-content"
      || part_is (domain_of command) "migrations" = true ->
        validateCommandOptions command options = ok_result).
Proof.
  unfold known_domain, domain_of, validateCommandOptions.
  destruct (part (split " " command) 0) as [d |]; simpl.
  - destruct (String.eqb_spec d "environment") as [-> | _]; [split; discriminate |].
    destruct (String.eqb_spec d "sync") as [-> | _]; [split; discriminate |].
    simpl. destruct (String.eqb d "migrate-content" || String.eqb d "migrations");
      split; (discriminate || reflexivity).
  - split; [reflexivity | discriminate].
Qed.

Lemma unknown_domain_rejected_witness :
  known_domain "deploy now" = false
  /\ validateCommandOptions "deploy now" [("apiKey", VString "aaaaaaaaaaaaaaaaaaaa")]
     = invalid "Unknown command: deploy now".
Proof.
  split; [reflexivity |].
  apply (proj1 (unknown_domain_rejected "deploy now" _)). reflexivity.
Defined.

End ValidatorFacts.

(** ** Argument builder *)

Section BuilderFacts.

Implicit Types (key command : string) (v : value) (options : object).

Lemma fold_push_flat_map (f : string * value -> list string) options (init : list string) :
  fold_left (fun args kv => (args ++ f kv)%list) options init
  = (init ++ flat_map f options)%list.
Proof.
  revert init. induction options as [| kv rest IH]; intros init; simpl.
  - by rewrite app_nil_r.
  - rewrite IH. by rewrite <- app_assoc.
Qed.

Lemma buildDataOpsArgs_flat_map command options :
  buildDataOpsArgs command options
  = (split " " command ++ flat_map (fun kv => pushed (fst kv) (snd kv)) options)%list.
Proof. unfold buildDataOpsArgs. apply fold_push_flat_map. Qed.

Lemma length_flag_pairs (flag : string) (items : list value) :
  List.length (flat_map (fun x => [flag; toString x]) items) = 2 * List.length items.
Proof. induction items as [| x rest IH]; simpl; [reflexivity | rewrite IH; lia]. Qed.

Lemma kebabKey_cons (c : ascii) (rest : string) :
  kebabKey (String c rest)
  = if is_upper_az c then String "-" (String (lower_char c) (kebabKey rest))
    else String (lower_char c) (kebabKey rest).
Proof.
  unfold kebabKey, toLowerCase. simpl.
  destruct (is_upper_az c); reflexivity.
Qed.

Lemma kebabKey_dash_lower (s : string) :
  all_chars (fun x => implb (has_lower x) (is_upper_az x)) s = true ->
  kebabKey s = dash_lower s.
Proof.
  induction s as [| c rest IH]; [reflexivity |].
  simpl. intros [Hc Hrest]%andb_prop. rewrite kebabKey_cons, (IH Hrest).
  unfold lower_char, has_lower, is_upper_az in *.
  destruct (in_range 65 90 c); [reflexivity |].
  destruct (in_range 192 222 c && negb (code c =? 215)%N); [discriminate | reflexivity].
Qed.

(** C4, as stated, fails on the flag name. A leading capital gets a dash as
    well, so the flag is not the key with its internal capitals replaced; and
    a capital outside A-Z (here U+00C0) is lower-cased without a dash,
    whichever letters count as internal. *)
Lemma leading_capital_flag :
  (buildDataOpsArgs "sync run" [("Verbose", VBool true)] = ["sync"; "run"; "---verbose"]
   /\ "--" ++ kebab_internal "Verbose" = "--Verbose")
  /\ (buildDataOpsArgs "sync run" [(String (ascii_of_N 192) "b", VBool true)]
      = ["sync"; "run"; "--" ++ String (ascii_of_N 224) "b"]
      /\ kebab_internal (String (ascii_of_N 192) "b") = String (ascii_of_N 192) "b"
      /\ dash_lower (String (ascii_of_N 192) "b") = String "-" (String (ascii_of_N 224) "b")).
Proof. repeat split. Qed.

(** C4 (amended): the argument vector is the space-split command followed,
    option by option in iteration order, by what [pushed] gives: nothing for
    [null], [undefined], the empty string, [false], a bare object, or a key
    starting with an underscore; the bare flag for [true]; the flag before
    each element's string form for an array, hence 2N tokens; the flag and the
    string form for a number or a non-empty string. The flag is two dashes and
    the key with every letter A-Z, a leading one included, replaced by a dash
    and its lower-case form and every other character lower-cased; for a
    camel-case key, one with no leading capital and no capital outside
    A-Z, this is the replacement of the internal capitals. A number is
    given in the form [String] gives it. *)
Theorem buildDataOpsArgs_tokens command options :
  buildDataOpsArgs command options
  = (split " " command ++ flat_map (fun kv => pushed (fst kv) (snd kv)) options)%list
  /\ (forall key v,
        (v = VNull \/ v = VUndefined \/ v = VString "" \/ v = VBool false
         \/ (exists entries, v = VObject entries) \/ startsWith key "_" = true) ->
        pushed key v = [])
  /\ (forall key, startsWith key "_" = false ->
        pushed key (VBool true) = ["--" ++ kebabKey key]
        /\ (forall items,
              pushed key (VArray items)
              = flat_map (fun x => ["--" ++ kebabKey key; toString x]) items
              /\ List.length (pushed key (VArray items)) = 2 * List.length items)
        /\ (forall x, pushed key (VNumber x) = ["--" ++ kebabKey key; number_toString x])
        /\ (forall s, is_empty s = false ->
              pushed key (VString s) = ["--" ++ kebabKey key; s]))
  /\ (kebabKey "" = ""
      /\ (forall c rest,
            kebabKey (String c rest)
            = if is_upper_az c then String "-" (String (lower_char c) (kebabKey rest))
              else String (lower_char c) (kebabKey rest))
      /\ (forall key, camel_case key = true -> kebabKey key = kebab_internal key)).
Proof.
  split; [apply buildDataOpsArgs_flat_map |].
  split; [| split].
  - intros key v H. unfold pushed.
    destruct H as [-> | [-> | [-> | [-> | [[entries ->] | Hkey]]]]]; try reflexivity.
    + by destruct (startsWith key "_").
    + by destruct (startsWith key "_").
    + rewrite Hkey. destruct v as [| | b | n | s | items | entries]; try reflexivity.
      by destruct s.
  - intros key Hkey. unfold pushed. rewrite Hkey.
    split; [reflexivity |]. split; [| split].
    + intros items. split; [reflexivity | apply length_flag_pairs].
    + reflexivity.
    + intros s Hs. destruct s; [discriminate | reflexivity].
  - split; [reflexivity |]. split; [apply kebabKey_cons |].
    intros [| c rest]; [reflexivity |]. simpl.
    intros [Hc Hrest]%andb_prop. rewrite kebabKey_cons, (kebabKey_dash_lower _ Hrest).
    unfold lower_char, is_upper_az, has_lower in *.
    destruct (in_range 65 90 c); [discriminate |].
    destruct (in_range 192 222 c && negb (code c =? 215)%N); [discriminate | reflexivity].
Qed.

Example number_tokens :
  pushed "limit" (VNumber (number_of_Z (10 ^ 21))) = ["--limit"; "1e+21"]
  /\ pushed "ratio" (VNumber (num_div (number_of_Z 1) (number_of_Z 8))) = ["--ratio"; "0.125"]
  /\ pushed "count" (VNumber (number_of_Z (-42))) = ["--count"; "-42"]
  /\ pushed "share" (VNumber (num_div (number_of_Z 1) (number_of_Z 3)))
     = ["--share"; "0.3333333333333333"].
Proof. repeat apply conj; vm_compute; reflexivity. Qed.

Lemma buildDataOpsArgs_tokens_witness :
  startsWith "environmentId" "_" = false
  /\ pushed "environmentId" (VBool true) = ["--environment-id"].
Proof.
  split; [reflexivity |].
  apply (proj1 (proj1 (proj2 (proj2 (buildDataOpsArgs_tokens "environment backup" [])))
                  "environmentId" eq_refl)).
Defined.

End BuilderFacts.

(** ** Option sanitizer *)

(** C7: three values that break the stated file-path rule and that the
    sanitizer nevertheless lets through without recording a violation: a
    parent-directory token that [path.normalize] resolves away, a NUL
    character, and a value of white space only. *)
Theorem sanitizer_accepts_bad_paths :
  (file_path_ok "folder/../backup.zip" = false
   /\ validateAndSanitizeOptions "environment backup"
        [("fileName", VString "folder/../backup.zip")]
      = Returned {| entries := [("fileName", VString "folder/../backup.zip")];
                    inherited := [] |})
  /\ (file_path_ok ("backup" ++ String "000"%char ".zip") = false
      /\ validateAndSanitizeOptions "environment backup"
           [("fileName", VString ("backup" ++ String "000"%char ".zip"))]
         = Returned {| entries := [("fileName", VString ("backup" ++ String "000"%char ".zip"))];
                       inherited := [] |})
  /\ (file_path_ok "   " = false
      /\ validateAndSanitizeOptions "environment backup" [("folderName", VString "   ")]
         = Returned {| entries := [("folderName", VString "")]; inherited := [] |}).
Proof. repeat split. Qed.

(** ** Stream relay *)

Section RelayFacts.

Implicit Types (r : relay) (e : event) (msg : StreamMessage).

Lemma write_ended msg r : ended r = true -> write msg r = r.
Proof. intros H. unfold write. by rewrite H. Qed.

Lemma extends_refl P r : extends P r r.
Proof. exists []. rewrite app_nil_r. by repeat split. Qed.

Lemma extends_trans P r1 r2 r3 : extends P r1 r2 -> extends P r2 r3 -> extends P r1 r3.
Proof.
  intros (m1 & W1 & P1 & E1 & S1 & N1) (m2 & W2 & P2 & E2 & S2 & N2).
  exists (m1 ++ m2)%list. repeat split.
  - by rewrite W2, W1, app_assoc.
  - by rewrite forallb_app, P1, P2.
  - congruence.
  - congruence.
  - intros H. rewrite (N1 H). rewrite N2; [reflexivity | congruence].
Qed.

Lemma extends_write P msg r : P msg = true -> extends P r (write msg r).
Proof.
  intros HP. unfold write. destruct (ended r) eqn:E; [apply extends_refl |].
  exists [msg]. simpl. rewrite HP. repeat split; congruence.
Qed.

Lemma extends_set_lastProgressUpdate P t r : extends P r (set_lastProgressUpdate t r).
Proof. exists []. simpl. rewrite app_nil_r. by repeat split. Qed.

Lemma extends_kill P sig r : extends P r (kill sig r).
Proof. exists []. simpl. rewrite app_nil_r. by repeat split. Qed.

Lemma extends_fold {A} P (f : relay -> A -> relay) (l : list A) r :
  (forall r0 a, commandStages r0 = commandStages r -> extends P r0 (f r0 a)) ->
  extends P r (fold_left f l r).
Proof.
  intros Hf. assert (Hgen : forall r0, commandStages r0 = commandStages r ->
                                       extends P r0 (fold_left f l r0)).
  { induction l as [| a rest IH]; intros r0 Hr0; simpl; [apply extends_refl |].
    eapply extends_trans; [apply (Hf r0 a Hr0) |].
    apply IH. destruct (Hf r0 a Hr0) as (_ & _ & _ & _ & S & _). congruence. }
  by apply Hgen.
Qed.

Lemma extends_stage_scan P stages now line r :
  (forall stg, In stg stages -> P (Progress (stage_percent stg) line (stage_name stg)) = true) ->
  extends P r (stage_scan stages now line r).
Proof.
  induction stages as [| stg rest IH]; intros HP; simpl; [apply extends_refl |].
  destruct (test (pattern stg) line && (500 <? now - lastProgressUpdate r)%Z).
  - eapply extends_trans; [apply extends_write, HP; by left |].
    apply extends_set_lastProgressUpdate.
  - apply IH. intros stg' Hin. apply HP. by right.
Qed.

(** While the command runs, a handler only appends output and progress
    events whose percentage is one of the stage table. *)
Lemma extends_running P e r :
  running_event e = true ->
  (forall level line, P (Output level line) = true) ->
  (forall stg line, In stg (commandStages r) ->
                    P (Progress (stage_percent stg) line (stage_name stg)) = true) ->
  extends P r (handle r e).
Proof.
  intros He HO HP. destruct e as [now data | data | code | m |]; try discriminate; simpl.
  - apply extends_fold. intros r0 line Hr0. unfold on_stdout_line.
    eapply extends_trans; [| apply extends_write, HO].
    apply extends_stage_scan. intros stg Hin. apply HP. by rewrite <- Hr0.
  - apply extends_fold. intros r0 line _. apply extends_write, HO.
  - destruct (killed r); [apply extends_refl | apply extends_kill].
Qed.

Lemma handle_ended e r :
  ended r = true -> written (handle r e) = written r /\ ended (handle r e) = true.
Proof.
  intros H. destruct e as [now data | data | code | m |]; simpl.
  - destruct (extends_running (fun _ => true) (StdoutData now data) r eq_refl)
      as (more & W & _ & E & _ & N); [done | done |].
    simpl in W, E. rewrite W, E, (N H), app_nil_r. by split.
  - destruct (extends_running (fun _ => true) (StderrData data) r eq_refl)
      as (more & W & _ & E & _ & N); [done | done |].
    simpl in W, E. rewrite W, E, (N H), app_nil_r. by split.
  - unfold on_close. destruct code as [[| |] |]; rewrite write_ended by done; by split.
  - rewrite write_ended by done. by split.
  - destruct (killed r); by split.
Qed.

Lemma handle_all_ended events r :
  ended r = true ->
  written (handle_all events r) = written r /\ ended (handle_all events r) = true.
Proof.
  revert r. induction events as [| e rest IH]; intros r H; simpl; [by split |].
  destruct (handle_ended e r H) as [W E].
  destruct (IH _ E) as [W' E']. split; congruence.
Qed.

Lemma handle_all_running P events r :
  forallb running_event events = true ->
  (forall level line, P (Output level line) = true) ->
  (forall stg line, In stg (commandStages r) ->
                    P (Progress (stage_percent stg) line (stage_name stg)) = true) ->
  extends P r (handle_all events r).
Proof.
  intros Hev HO HP. unfold handle_all. revert r HP.
  induction events as [| e rest IH]; intros r HP; simpl; [apply extends_refl |].
  simpl in Hev. apply andb_prop in Hev as [He Hrest].
  pose proof (extends_running P e r He HO HP) as Hstep.
  eapply extends_trans; [exact Hstep |].
  apply IH; [exact Hrest |].
  destruct Hstep as (_ & _ & _ & _ & S & _). intros stg line Hin. apply HP. by rewrite <- S.
Qed.






Example exit_code_messages :
  written (handle_all [Close (Some 137%Z)] (open_stream "sync run"))
  = [Connected "Connected to command stream";
     Complete false "Command exited with code 137"]
  /\ written (handle_all [Close (Some (-2)%Z)] (open_stream "sync run"))
     = [Connected "Connected to command stream";
        Complete false "Command exited with code -2"]
  /\ written (handle_all [Close None] (open_stream "sync run"))
     = [Connected "Connected to command stream";
        Complete false "Command exited with code null"].
Proof. repeat split. Qed.

End RelayFacts.

(** ** Captures of a match *)

Section MatcherFacts.

Implicit Types (step : string -> captures -> list (string * captures)).

Lemma flat_map_all_nil {A B} (f : A -> list B) (l : list A) :
  (forall a, f a = []) -> flat_map f l = [].
Proof. intros H. induction l as [| a l IH]; simpl; [reflexivity | by rewrite H, IH]. Qed.

Lemma star_iter_more_fuel step fuel (s : string) (c : captures) :
  String.length s <= fuel -> star_iter step (S fuel) s c = star_iter step fuel s c.
Proof.
  revert s c. induction fuel as [| fuel IH]; intros s c Hlen.
  - simpl. rewrite flat_map_all_nil; [reflexivity |].
    intros sc. destruct (Nat.ltb_spec (String.length (fst sc)) (String.length s));
      [lia | reflexivity].
  - change (star_iter step (S (S fuel)) s c)
      with (flat_map (fun sc : string * captures =>
                        if Nat.ltb (String.length (fst sc)) (String.length s)
                        then star_iter step (S fuel) (fst sc) (snd sc) else [])
                     (step s c) ++ [(s, c)])%list.
    change (star_iter step (S fuel) s c)
      with (flat_map (fun sc : string * captures =>
                        if Nat.ltb (String.length (fst sc)) (String.length s)
                        then star_iter step fuel (fst sc) (snd sc) else [])
                     (step s c) ++ [(s, c)])%list.
    f_equal. apply flat_map_ext. intros sc.
    destruct (Nat.ltb_spec (String.length (fst sc)) (String.length s));
      [apply IH; lia | reflexivity].
Qed.

(** The fuel given to a star, the length of the input, is enough: more fuel
    finds the same matches in the same order. *)
Lemma star_iter_fuel step fuel (s : string) (c : captures) :
  String.length s <= fuel ->
  star_iter step fuel s c = star_iter step (String.length s) s c.
Proof.
  intros Hlen. induction Hlen as [| fuel Hle IH]; [reflexivity |].
  by rewrite star_iter_more_fuel.
Qed.

Example uuid_accepted :
  validateEnvironmentId (VString "  123E4567-e89b-12d3-a456-426614174000  ") = true
  /\ validateEnvironmentId (VString "123e4567e89b12d3a456426614174000") = false
  /\ validateEnvironmentId (VString "123e4567-e89b-12d3-a456-42661417400g") = false.
Proof. repeat split. Qed.

Example stage_pattern_spans_no_line_break :
  test (ci (seqs [Lit "fetching"; Star Dot; Lit "content"])) "Fetching all CONTENT" = true
  /\ test (ci (seqs [Lit "fetching"; Star Dot; Lit "content"]))
          ("fetching" ++ String "013"%char "content") = false.
Proof. split; reflexivity. Qed.

End MatcherFacts.

(** ** Numbers *)

Section NumberFacts.

Lemma iter_pos_shift {A} (f : A -> A) (p : positive) (x : A) :
  SpecFloat.iter_pos f p (f x) = f (SpecFloat.iter_pos f p x).
Proof.
  revert x. induction p as [p IH | p IH |]; intros x; simpl; try reflexivity;
    by rewrite !IH.
Qed.

Lemma iter_pos_succ {A} (f : A -> A) (p : positive) (x : A) :
  SpecFloat.iter_pos f (Pos.succ p) x = f (SpecFloat.iter_pos f p x).
Proof.
  revert x. induction p as [p IH | p IH |]; intros x; simpl; try reflexivity.
  - by rewrite !IH, !iter_pos_shift.
  - by rewrite !iter_pos_shift.
Qed.

Lemma shr_1_pos (q : positive) (r s : bool) :
  (1 < Z.pos (digits2_pos q))%Z ->
  exists q' r' s',
    shr_1 (Build_shr_record (Z.pos q) r s) = Build_shr_record (Z.pos q') r' s'
    /\ Z.pos (digits2_pos q') = (Z.pos (digits2_pos q) - 1)%Z.
Proof.
  destruct q as [q | q |]; cbn [digits2_pos shr_1]; intros H; [| | lia];
    (eexists; eexists; eexists; split; [reflexivity | lia]).
Qed.

(** Shifting a mantissa right by fewer bits than it has leaves a mantissa. *)
Lemma shr_keeps_positive (p q : positive) (r s : bool) :
  (Z.pos p < Z.pos (digits2_pos q))%Z ->
  exists q' r' s',
    SpecFloat.iter_pos shr_1 p (Build_shr_record (Z.pos q) r s) = Build_shr_record (Z.pos q') r' s'
    /\ Z.pos (digits2_pos q') = (Z.pos (digits2_pos q) - Z.pos p)%Z.
Proof.
  revert q r s. induction p as [| p IH] using Pos.peano_ind; intros q r s H.
  - simpl. apply shr_1_pos. lia.
  - rewrite iter_pos_succ.
    destruct (IH q r s) as (q1 & r1 & s1 & E1 & D1); [lia |].
    rewrite E1. destruct (shr_1_pos q1 r1 s1) as (q2 & r2 & s2 & E2 & D2); [lia |].
    exists q2, r2, s2. split; [exact E2 | lia].
Qed.

Lemma shr_fexp_positive (q : positive) (e : Z) (l : location) :
  (-1074 <= e)%Z ->
  exists q' r' s' e',
    shr_fexp 53 1024 (Z.pos q) e l = (Build_shr_record (Z.pos q') r' s', e')
    /\ (-1074 <= e')%Z.
Proof.
  intros He. unfold shr_fexp, shr, fexp, emin. simpl Zdigits2.
  assert (Hrec : exists r s, shr_record_of_loc (Z.pos q) l = Build_shr_record (Z.pos q) r s).
  { destruct l as [| []]; simpl; eauto. }
  destruct Hrec as (r & s & ->).
  destruct (Z.max (Z.pos (digits2_pos q) + e - 53) (3 - 1024 - 53) - e)%Z as [| p | p] eqn:En.
  - exists q, r, s, e. split; [reflexivity | exact He].
  - destruct (shr_keeps_positive p q r s) as (q' & r' & s' & E & _); [lia |].
    exists q', r', s', (e + Z.pos p)%Z. rewrite E. split; [reflexivity | lia].
  - exists q, r, s, e. split; [reflexivity | exact He].
Qed.

Lemma round_nearest_even_positive (q : positive) (l : location) :
  exists q', round_nearest_even (Z.pos q) l = Z.pos q'.
Proof.
  destruct l as [| []]; cbn [round_nearest_even]; eauto.
  destruct (Z.even (Z.pos q)); eauto.
Qed.

Lemma binary_round_aux_positive (sx : bool) (q : positive) (e : Z) (l : location) :
  (-1074 <= e)%Z ->
  (exists m e', binary_round_aux 53 1024 sx (Z.pos q) e l = S754_finite sx m e')
  \/ binary_round_aux 53 1024 sx (Z.pos q) e l = S754_infinity sx.
Proof.
  intros He. unfold binary_round_aux.
  destruct (shr_fexp_positive q e l He) as (q1 & r1 & s1 & e1 & -> & He1).
  simpl shr_m.
  destruct (round_nearest_even_positive q1 (loc_of_shr_record (Build_shr_record (Z.pos q1) r1 s1)))
    as (q2 & ->).
  destruct (shr_fexp_positive q2 e1 loc_Exact He1) as (q3 & r3 & s3 & e3 & -> & _).
  simpl shr_m. destruct (e3 <=? 1024 - 53)%Z; [left; eauto | right; reflexivity].
Qed.

Lemma shl_align_exponent (m : positive) (e e' : Z) :
  (-1074 <= e)%Z -> (-1074 <= e')%Z -> (-1074 <= snd (shl_align m e e'))%Z.
Proof. intros He He'. unfold shl_align. destruct (e' - e)%Z; simpl; assumption. Qed.

Lemma binary_round_positive (sx : bool) (m : positive) :
  (exists m' e', binary_round 53 1024 sx m 0 = S754_finite sx m' e')
  \/ binary_round 53 1024 sx m 0 = S754_infinity sx.
Proof.
  unfold binary_round.
  pose proof (shl_align_exponent m 0 (fexp 53 1024 (Z.pos (digits2_pos m) + 0))) as H.
  destruct (shl_align m 0 (fexp 53 1024 (Z.pos (digits2_pos m) + 0))) as [mz ez].
  apply binary_round_aux_positive. apply H; [lia |]. unfold fexp, emin. lia.
Qed.

(** The double nearest a positive integer is a positive number or +Infinity;
    the one nearest 0 is +0. *)
Lemma number_of_Z_sign (z : Z) :
  (0 <= z)%Z ->
  num_lt zero (number_of_Z z) = (0 <? z)%Z
  /\ isNaN (number_of_Z z) = false
  /\ not_negative (number_of_Z z).
Proof.
  intros Hz. destruct z as [| m | m]; [by repeat split | | lia].
  unfold number_of_Z, binary_normalize.
  destruct (binary_round_positive false m) as [(m' & e' & ->) | ->]; by repeat split.
Qed.










(** The forms of [String(x)]: integers in full below 10^21, the shortest
    digits that read back as the same double, the exponent form beyond. *)
Example number_strings :
  number_toString (number_of_Z 0) = "0"
  /\ number_toString (S754_zero true) = "0"
  /\ number_toString NaN = "NaN"
  /\ number_toString (number_of_Z (10 ^ 400)) = "Infinity"
  /\ number_toString (number_of_Z (- 10 ^ 400)) = "-Infinity"
  /\ number_toString (number_of_Z 123456789) = "123456789"
  /\ number_toString (number_of_Z (2 ^ 60)) = "1152921504606847000"
  /\ number_toString (number_of_Z (10 ^ 21)) = "1e+21"
  /\ number_toString (number_of_Z (10 ^ 23)) = "1e+23"
  /\ number_toString (num_div (number_of_Z 1) (number_of_Z 10)) = "0.1"
  /\ number_toString (num_div (number_of_Z 57) (number_of_Z 4)) = "14.25"
  /\ number_toString (num_div (number_of_Z 1) (number_of_Z (10 ^ 6))) = "0.000001"
  /\ number_toString (num_div (number_of_Z 1) (number_of_Z (10 ^ 7))) = "1e-7"
  /\ number_toString (num_div (number_of_Z 15) (number_of_Z (10 ^ 8))) = "1.5e-7"
  /\ number_toString (S754_finite false 1 (-1074)) = "5e-324"
  /\ number_toString (S754_finite false 9007199254740991 971) = "1.7976931348623157e+308".
Proof. repeat apply conj; vm_compute; reflexivity. Qed.

Example rounding_to_integers :
  Math_round (num_div (number_of_Z 5) (number_of_Z 2)) = number_of_Z 3
  /\ Math_round (num_div (number_of_Z (-5)) (number_of_Z 2)) = number_of_Z (-2)
  /\ Math_round (num_div (number_of_Z (-1)) (number_of_Z 4)) = S754_zero true
  /\ Math_round (num_div (number_of_Z 100) (number_of_Z 3)) = number_of_Z 33
  /\ Math_round NaN = NaN.
Proof. repeat apply conj; vm_compute; reflexivity. Qed.

End NumberFacts.

(** ** Reading the numeric patterns *)

Section ShapeFacts.

Implicit Types (p C : ascii -> bool) (s t : string) (c : captures) (ps : list piece).

Lemma forall_ascii (P : ascii -> bool) (x : ascii) :
  forallb P all_ascii = true -> P x = true.
Proof. intros H. rewrite forallb_forall in H. apply H, all_ascii_complete. Qed.

Lemma class_closed_eq ci p x : class_closed ci p = true -> class_has ci p x = p x.
Proof. intros H. apply eqb_prop, (forall_ascii _ x H). Qed.

Lemma none_of_no C q x : none_of C q = true -> C x = true -> q x = false.
Proof.
  intros H HC. pose proof (forall_ascii _ x H) as Hx. simpl in Hx.
  rewrite HC in Hx. simpl in Hx. by apply negb_true_iff.
Qed.

Lemma class_space_ci ci x : class_has ci is_space x = is_space x.
Proof.
  destruct ci; [| reflexivity].
  assert (H : class_closed true is_space = true) by (vm_compute; reflexivity).
  by apply class_closed_eq.
Qed.

Lemma span_app p s : s = fst (span p s) ++ snd (span p s).
Proof.
  induction s as [| x s IH]; [reflexivity |]. simpl.
  destruct (p x); simpl; [| reflexivity].
  change (String x (fst (span p s)) ++ snd (span p s))
    with (String x (fst (span p s) ++ snd (span p s))).
  by rewrite <- IH.
Qed.

(** The remainders of a greedy run: the first is what follows the longest
    run, every other one starts with a character of the run. *)
Lemma drops_shape p s :
  exists others,
    drops p s = snd (span p s) :: others
    /\ Forall (fun t => exists x t', t = String x t' /\ p x = true) others.
Proof.
  induction s as [| x s (others & E & F)]; [by exists [] |]. simpl.
  destruct (p x) eqn:Hx; simpl.
  - exists (others ++ [String x s])%list. rewrite E. split; [reflexivity |].
    apply Forall_app. split; [exact F |]. constructor; [by eauto | constructor].
  - by exists [].
Qed.

Lemma flat_map_pairs {A B} (l : list (A * B)) :
  flat_map (fun sc : A * B => [(fst sc, snd sc)]) l = l.
Proof. induction l as [| [a b] l IH]; [reflexivity | simpl; by rewrite IH]. Qed.

Lemma run_seqs_cons ci inp (r : regex) (rs : list regex) s c :
  run ci inp (seqs (r :: rs)) s c
  = flat_map (fun sc : string * captures => run ci inp (seqs rs) (fst sc) (snd sc))
             (run ci inp r s c).
Proof.
  destruct rs as [| r' rs]; [| reflexivity].
  simpl. by rewrite flat_map_pairs.
Qed.

Lemma star_class_fuel ci inp p fuel s c :
  String.length s <= fuel ->
  star_iter (run ci inp (Cls p)) fuel s c
  = map (fun t => (t, c)) (drops (class_has ci p) s).
Proof.
  revert s. induction fuel as [| fuel IH]; intros s Hlen.
  - destruct s; [reflexivity | simpl in Hlen; lia].
  - destruct s as [| x s]; [reflexivity |].
    cbn [star_iter run drops]. destruct (class_has ci p x).
    + cbn [flat_map fst snd]. rewrite app_nil_r.
      destruct (Nat.ltb_spec (String.length s) (String.length (String x s))) as [_ | H];
        [| simpl in H; lia].
      rewrite IH by (simpl in Hlen; lia). by rewrite map_app.
    + reflexivity.
Qed.

Lemma run_star_class ci inp p s c :
  run ci inp (Star (Cls p)) s c = map (fun t => (t, c)) (drops (class_has ci p) s).
Proof.
  change (run ci inp (Star (Cls p)) s c)
    with (star_iter (run ci inp (Cls p)) (String.length s) s c).
  by apply star_class_fuel.
Qed.

Lemma run_plus_class ci inp p s c :
  run ci inp (Plus (Cls p)) s c
  = match s with
    | String x s' =>
        if class_has ci p x then map (fun t => (t, c)) (drops (class_has ci p) s') else []
    | EmptyString => []
    end.
Proof.
  change (run ci inp (Plus (Cls p)) s c)
    with (flat_map (fun sc : string * captures =>
                      run ci inp (Star (Cls p)) (fst sc) (snd sc))
                   (run ci inp (Cls p) s c)).
  destruct s as [| x s']; [reflexivity |].
  change (run ci inp (Cls p) (String x s') c)
    with (if class_has ci p x then [(s', c)] else []).
  destruct (class_has ci p x); [| reflexivity].
  cbn [flat_map fst snd]. rewrite app_nil_r. apply run_star_class.
Qed.

(** A run that is followed by something it cannot start. *)
Lemma flat_map_first {A B} (f : A -> list B) (a : A) (others : list A) :
  Forall (fun y => f y = []) others -> flat_map f (a :: others) = f a.
Proof.
  intros H. simpl. assert (E : flat_map f others = []).
  { induction H as [| y l Hy _ IH]; [reflexivity | simpl; by rewrite Hy, IH]. }
  by rewrite E, app_nil_r.
Qed.

Lemma run_text ci inp (t : string) s c :
  text_closed ci t = true ->
  run ci inp (text_regex t) s c
  = match after_text ci t s with Some s' => [(s', c)] | None => [] end.
Proof.
  assert (Hlit : forall t s, text_closed ci t = true ->
            run ci inp (Lit t) s c
            = match after_text ci t s with Some s' => [(s', c)] | None => [] end).
  { clear t s. induction t as [| a t IH]; intros s Ht; [by destruct s |].
    simpl in Ht. apply andb_prop in Ht as [Ha Ht].
    cbn [Lit run after_text]. destruct s as [| x s']; [reflexivity |].
    rewrite (eqb_prop _ _ (forall_ascii _ x Ha)).
    destruct (same_char ci a x); [| reflexivity].
    cbn [flat_map fst snd]. rewrite app_nil_r. by apply IH. }
  intros Ht. destruct t as [| a [| b t']]; try (by apply Hlit).
  unfold text_regex. cbn [run after_text]. destruct s as [| x s']; [reflexivity |].
  simpl in Ht. apply andb_prop in Ht as [Ha _].
  rewrite (eqb_prop _ _ (forall_ascii _ x Ha)).
  by destruct (same_char ci a x).
Qed.

Lemma run_integer ci inp (i : nat) s c :
  run ci inp (Group i (Plus digit)) s c
  = if is_empty (fst (span is_digit s)) then []
    else map (fun t => (t, (i, consumed s t) :: c))
             (match s with String _ s' => drops is_digit s' | EmptyString => [] end).
Proof.
  change (run ci inp (Group i (Plus digit)) s c)
    with (map (fun sc : string * captures => (fst sc, (i, consumed s (fst sc)) :: snd sc))
              (run ci inp (Plus (Cls is_digit)) s c)).
  rewrite run_plus_class. destruct s as [| x s']; [reflexivity |].
  rewrite class_digit_ci. cbn [span]. destruct (is_digit x) eqn:Hx; [| reflexivity].
  cbn [fst is_empty]. rewrite map_map.
  assert (E : forall t, drops (class_has ci is_digit) t = drops is_digit t).
  { intros t. induction t as [| y t IH]; [reflexivity |]. simpl.
    by rewrite class_digit_ci, IH. }
  by rewrite E.
Qed.

Lemma drops_ext p q s : (forall x, p x = q x) -> drops p s = drops q s.
Proof.
  intros H. induction s as [| x s IH]; [reflexivity |]. simpl. by rewrite H, IH.
Qed.

(** What cannot start with a character of [C] does not match in front of one. *)
Lemma shut_blocks ci inp ps :
  determined ci ps = true ->
  forall C i x t c,
    shut ci C ps = true -> C x = true ->
    run ci inp (seqs (pieces_regexes i ps)) (String x t) c = [].
Proof.
  induction ps as [| piece rest IH]; intros Hdet C i x t c Hshut HC; [discriminate |].
  destruct piece as [| txt | | q | cs]; cbn [pieces_regexes]; rewrite run_seqs_cons;
    cbn [determined shut] in Hdet, Hshut.
  - rewrite run_integer. cbn [span]. by rewrite (none_of_no _ _ x Hshut HC).
  - apply andb_prop in Hdet as [Htxt Hrest]. rewrite run_text by exact Htxt.
    destruct txt as [| a txt'].
    + cbn [after_text flat_map fst snd]. rewrite app_nil_r. by apply (IH Hrest C).
    + cbn [after_text]. by rewrite (none_of_no _ _ x Hshut HC).
  - apply andb_prop in Hdet as [_ Hrest]. apply andb_prop in Hshut as [Hsp Hshut].
    unfold space. rewrite run_star_class. cbn [drops]. rewrite class_space_ci, (none_of_no _ _ x Hsp HC).
    cbn [map flat_map fst snd]. rewrite app_nil_r. by apply (IH Hrest C).
  - apply andb_prop in Hdet as [[Hq _]%andb_prop _]. rewrite run_plus_class.
    by rewrite (class_closed_eq _ _ x Hq), (none_of_no _ _ x Hshut HC).
  - apply andb_prop in Hdet as [Hcs _]. unfold one_of. cbn [run].
    by rewrite (class_closed_eq _ _ x Hcs), (none_of_no _ _ x Hshut HC).
Qed.

(** After a greedy run only its longest form goes on. *)
Lemma run_after_greedy ci inp rest (i : nat) (g : string -> captures) p s0 others :
  determined ci rest = true ->
  is_nil rest || shut ci p rest = true ->
  Forall (fun t => exists x t', t = String x t' /\ p x = true) others ->
  hd_error (flat_map (fun sc : string * captures =>
                        run ci inp (seqs (pieces_regexes i rest)) (fst sc) (snd sc))
                     (map (fun t => (t, g t)) (s0 :: others)))
  = hd_error (run ci inp (seqs (pieces_regexes i rest)) s0 (g s0)).
Proof.
  intros Hdet Hnext Hothers. destruct rest as [| piece rest'].
  - cbn [pieces_regexes seqs run]. by rewrite flat_map_pairs.
  - cbn [is_nil orb] in Hnext. cbn [map]. rewrite flat_map_first; [reflexivity |].
    apply List.Forall_forall. intros sc Hin. apply in_map_iff in Hin as (t & <- & Hin).
    rewrite List.Forall_forall in Hothers. destruct (Hothers t Hin) as (x & t' & -> & Hx).
    by apply (shut_blocks ci inp _ Hdet p).
Qed.

(** The engine and the reader agree on the first way to match the pieces. *)
Lemma run_pieces ci inp ps :
  determined ci ps = true ->
  forall i s c,
    hd_error (run ci inp (seqs (pieces_regexes i ps)) s c)
    = option_map (fun r : list string * string => (snd r, add_groups i (fst r) c))
                 (read ci ps s).
Proof.
  induction ps as [| piece rest IH]; intros Hdet i s c; [reflexivity |].
  destruct piece as [| txt | | q | cs]; cbn [pieces_regexes read]; rewrite run_seqs_cons;
    cbn [determined] in Hdet.
  - apply andb_prop in Hdet as [Hnext Hrest]. rewrite run_integer.
    destruct (is_empty (fst (span is_digit s))) eqn:Hd; [reflexivity |].
    destruct s as [| x s']; [discriminate Hd |].
    cbn [span] in *. destruct (is_digit x) eqn:Hx; [| discriminate Hd]. cbn [fst snd].
    destruct (drops_shape is_digit s') as (others & -> & Hothers).
    rewrite (run_after_greedy ci inp rest (S i)
               (fun t => (i, consumed (String x s') t) :: c) is_digit _ _ Hrest Hnext Hothers).
    rewrite (IH Hrest).
    assert (E : consumed (String x s') (snd (span is_digit s'))
                = String x (fst (span is_digit s'))).
    { rewrite (span_app is_digit s') at 1.
      change (String x (fst (span is_digit s') ++ snd (span is_digit s')))
        with (String x (fst (span is_digit s')) ++ snd (span is_digit s')).
      apply consumed_app. }
    rewrite E. by destruct (read ci rest (snd (span is_digit s'))) as [[ns after] |].
  - apply andb_prop in Hdet as [Htxt Hrest]. rewrite run_text by exact Htxt.
    destruct (after_text ci txt s) as [s' |]; [| reflexivity].
    cbn [flat_map fst snd]. rewrite app_nil_r. by apply IH.
  - apply andb_prop in Hdet as [Hnext Hrest]. unfold space. rewrite run_star_class.
    rewrite (drops_ext _ is_space) by (intros; apply class_space_ci).
    destruct (drops_shape is_space s) as (others & -> & Hothers).
    rewrite (run_after_greedy ci inp rest i (fun _ => c) is_space _ _ Hrest Hnext Hothers).
    by apply IH.
  - apply andb_prop in Hdet as [[Hq Hnext]%andb_prop Hrest]. rewrite run_plus_class.
    destruct s as [| x s']; [reflexivity |].
    rewrite (class_closed_eq _ _ x Hq). cbn [span].
    destruct (q x) eqn:Hx; [| reflexivity]. cbn [fst snd is_empty].
    rewrite (drops_ext _ q) by (intros; by apply class_closed_eq).
    destruct (drops_shape q s') as (others & -> & Hothers).
    rewrite (run_after_greedy ci inp rest i (fun _ => c) q _ _ Hrest Hnext Hothers).
    by apply IH.
  - apply andb_prop in Hdet as [Hcs Hrest]. unfold one_of. cbn [run].
    destruct s as [| x s']; [reflexivity |].
    rewrite (class_closed_eq _ _ x Hcs).
    destruct (existsb (Ascii.eqb x) cs); [| reflexivity].
    cbn [flat_map fst snd]. rewrite app_nil_r. by apply IH.
Qed.

(** A match of the pattern of a shape: the leftmost place where it is read. *)
Lemma exec_shape (sh : numeric_shape) (line : string) :
  determined (any_case sh) (pieces sh) = true ->
  exec (shape_regex sh) line = option_map (fun ns => add_groups 1 ns []) (find_shape sh line).
Proof.
  intros Hdet. unfold exec, shape_regex. cbn [re ignoreCase].
  generalize line at 1 as inp. intros inp.
  induction line as [| x s IH]; cbn [search find_shape];
    pose proof (run_pieces (any_case sh) inp (pieces sh) Hdet 1) as Hrun.
  - specialize (Hrun "" []).
    destruct (run (any_case sh) inp (seqs (pieces_regexes 1 (pieces sh))) "" []) as [| sc l],
             (read (any_case sh) (pieces sh) "") as [[ns after] |];
      simpl in Hrun; try discriminate; [reflexivity |].
    by injection Hrun as ->.
  - specialize (Hrun (String x s) []).
    destruct (run (any_case sh) inp (seqs (pieces_regexes 1 (pieces sh))) (String x s) [])
      as [| sc l],
      (read (any_case sh) (pieces sh) (String x s)) as [[ns after] |];
      simpl in Hrun; try discriminate; [exact IH |].
    by injection Hrun as ->.
Qed.

(** What is read are integers, as many as the shape has. *)
Lemma read_integers ci ps s ns after :
  read ci ps s = Some (ns, after) ->
  List.length ns = integers ps /\ Forall (fun n => digit_text n = true) ns.
Proof.
  revert s ns after. induction ps as [| piece rest IH]; intros s ns after.
  - intros [= <- _]. by split.
  - destruct piece as [| txt | | q | cs]; cbn [read integers].
    + destruct (is_empty (fst (span is_digit s))) eqn:Hd; [discriminate |].
      destruct (read ci rest (snd (span is_digit s))) as [[ns' after'] |] eqn:E;
        [| discriminate].
      intros [= <- _]. destruct (IH _ _ _ E) as [L F]. split; [simpl; by rewrite L |].
      constructor; [| exact F]. unfold digit_text. rewrite Hd. simpl.
      clear. induction s as [| x s IHs]; [reflexivity |]. simpl.
      destruct (is_digit x) eqn:Hx; [simpl; by rewrite Hx, IHs | reflexivity].
    + destruct (after_text ci txt s); [apply IH | discriminate].
    + apply IH.
    + destruct (is_empty (fst (span q s))); [discriminate | apply IH].
    + destruct s as [| x s']; [discriminate |].
      destruct (existsb (Ascii.eqb x) cs); [apply IH | discriminate].
Qed.

Lemma find_shape_integers (sh : numeric_shape) (line : string) (ns : list string) :
  find_shape sh line = Some ns ->
  List.length ns = integers (pieces sh) /\ Forall (fun n => digit_text n = true) ns.
Proof.
  induction line as [| x s IH]; cbn [find_shape];
    destruct (read (any_case sh) (pieces sh) _) as [[ns' after] |] eqn:E;
    try discriminate; try (intros [= <-]; by apply (read_integers _ _ _ _ _ E)).
  exact IH.
Qed.

End ShapeFacts.

(** ** Progress classifier *)

Section ClassifierFacts.

Implicit Types (line : string) (p : js_regex) (m : captures).

Lemma plain_char_eq (a x : ascii) :
  plain_char a = true -> char_eq true a x = Ascii.eqb a (lower_char x).
Proof.
  assert (H : forall a, forallb (fun x => implb (plain_char a)
                (Bool.eqb (char_eq true a x) (Ascii.eqb a (lower_char x)))) all_ascii = true).
  { apply for_all_ascii. vm_compute. reflexivity. }
  intros Ha. specialize (H a). rewrite forallb_forall in H.
  specialize (H x (all_ascii_complete x)). rewrite Ha in H. simpl in H.
  by apply eqb_prop.
Qed.

Lemma run_lit (inp kw s : string) (c : captures) :
  all_chars plain_char kw = true ->
  match run true inp (Lit kw) s c with [] => false | _ => true end
  = String.prefix kw (toLowerCase s).
Proof.
  revert s. induction kw as [| a kw IH]; intros s Hkw.
  - simpl. by destruct (toLowerCase s).
  - simpl in Hkw. apply andb_prop in Hkw as [Ha Hkw].
    destruct s as [| x s]; [reflexivity |].
    cbn [Lit run]. rewrite (plain_char_eq a x Ha).
    change (toLowerCase (String x s)) with (String (lower_char x) (toLowerCase s)).
    cbn [String.prefix].
    destruct (Ascii.eqb_spec a (lower_char x)) as [-> | Hne].
    + cbn [flat_map fst snd]. rewrite app_nil_r. rewrite IH by exact Hkw.
      destruct (ascii_dec _ _); [reflexivity | contradiction].
    + simpl. destruct (ascii_dec _ _); [contradiction | reflexivity].
Qed.

Lemma search_lit (inp kw s : string) :
  all_chars plain_char kw = true ->
  match search true inp (Lit kw) s with Some _ => true | None => false end
  = includes (toLowerCase s) kw.
Proof.
  intros Hkw. induction s as [| x s IH].
  - simpl. pose proof (run_lit inp kw "" [] Hkw) as H. simpl in H.
    destruct (run true inp (Lit kw) "" []); rewrite <- H; reflexivity.
  - cbn [search]. pose proof (run_lit inp kw (String x s) [] Hkw) as H.
    change (toLowerCase (String x s)) with (String (lower_char x) (toLowerCase s)) in *.
    cbn [includes]. rewrite <- H, <- IH.
    destruct (run true inp (Lit kw) (String x s) []); reflexivity.
Qed.

Lemma test_keyword (kw line : string) :
  all_chars plain_char kw = true ->
  test {| re := Lit kw; ignoreCase := true |} line = includes (toLowerCase line) kw.
Proof. intros Hkw. unfold test, exec. simpl. by apply search_lit. Qed.

Lemma stage_loop_agrees line :
  match stage_loop stagePatterns line, first_keyword stage_keywords line with
  | Some info, Some label =>
      Frontend.percent info = None /\ Frontend.message info = line
      /\ Frontend.stage info = label
  | None, None => True
  | _, _ => False
  end.
Proof.
  unfold stagePatterns, stage_keywords. cbn [stage_loop first_keyword].
  rewrite !test_keyword by reflexivity.
  repeat (destruct (includes (toLowerCase line) _); [by repeat split |]).
  exact I.
Qed.

Lemma digits_value_integer (n : string) (acc : Z) :
  all_chars is_digit n = true ->
  digits_value acc n = (acc * 10 ^ Z.of_nat (String.length n) + integer_of n)%Z.
Proof.
  revert acc. induction n as [| x n IH]; intros acc Hn; [simpl; lia |].
  simpl in Hn. apply andb_prop in Hn as [Hx Hn].
  cbn [digits_value integer_of String.length]. rewrite Hx, (IH _ Hn).
  rewrite Nat2Z.inj_succ, Z.pow_succ_r by lia. lia.
Qed.

Lemma integer_of_nonneg (n : string) : (0 <= integer_of n)%Z.
Proof.
  induction n as [| x n IH]; [simpl; lia |]. cbn [integer_of].
  assert (0 <= 10 ^ Z.of_nat (String.length n))%Z by (apply Z.pow_nonneg; lia).
  nia.
Qed.

Lemma parseInt_digits (n : string) :
  digit_text n = true ->
  parseInt n = number_of_Z (integer_of n) /\ cap_truthy (Some n) = true.
Proof.
  unfold digit_text. destruct n as [| x t]; [discriminate |]. cbn [is_empty negb andb].
  intros Hn. split; [| reflexivity].
  pose proof (digits_value_integer (String x t) 0 Hn) as Hv.
  simpl in Hn. apply andb_prop in Hn as [Hx _].
  destruct (digit_not_space x Hx) as (Hs & Hm & Hp).
  unfold parseInt. cbn [trimStart]. rewrite Hs.
  assert (Hbody : (if is_digit x
                   then if (digits_value 0 (String x t) =? 0)%Z then S754_zero false
                        else number_of_Z (digits_value 0 (String x t))
                   else NaN) = number_of_Z (integer_of (String x t))).
  { rewrite Hx, Hv, Z.mul_0_l, Z.add_0_l.
    destruct (Z.eqb_spec (integer_of (String x t)) 0) as [-> | _]; reflexivity. }
  destruct x as [[] [] [] [] [] [] [] []]; try (exfalso; vm_compute in Hx; discriminate);
    exact Hbody.
Qed.

Lemma numeric_loop_agrees (shapes : list numeric_shape) (tail : list js_regex) line :
  forallb usable shapes = true ->
  numeric_loop tail line = None ->
  match numeric_loop (map shape_regex shapes ++ tail) line, first_percent shapes line with
  | Some info, Some x =>
      Frontend.percent info = Some x
      /\ Frontend.message info = line /\ Frontend.stage info = ""
  | None, None => True
  | _, _ => False
  end.
Proof.
  intros Hok Htail. induction shapes as [| sh rest IH]; simpl.
  - by rewrite Htail.
  - simpl in Hok. apply andb_prop in Hok as [[Hdet Hint]%andb_prop Hrest].
    specialize (IH Hrest). rewrite (exec_shape sh line Hdet). unfold shape_percent.
    destruct (find_shape sh line) as [ns |] eqn:F; [| exact IH]. cbn [option_map].
    destruct (find_shape_integers sh line ns F) as [L D].
    apply orb_prop in Hint as [H1 | H2].
    + apply Nat.eqb_eq in H1. rewrite H1 in L.
      destruct ns as [| n [| n' ns']]; try discriminate L.
      inversion D as [| ? ? Dn _]; subst.
      cbn [add_groups group Nat.eqb]. destruct (parseInt_digits n Dn) as [Hp Ht].
      rewrite Ht. cbn [cap_truthy andb]. change (cap_text (Some n)) with n. cbv zeta.
      rewrite Hp.
      destruct (number_of_Z_sign (integer_of n) (integer_of_nonneg n)) as (_ & -> & _).
      by repeat split.
    + apply Nat.eqb_eq in H2. rewrite H2 in L.
      destruct ns as [| n [| d [| d' ns']]]; try discriminate L.
      inversion D as [| ? ? Dn D']; subst. inversion D' as [| ? ? Dd _]; subst.
      cbn [add_groups group Nat.eqb]. destruct (parseInt_digits n Dn) as [Hpn Htn].
      destruct (parseInt_digits d Dd) as [Hpd Htd].
      rewrite Htn, Htd. cbn [andb]. change (cap_text (Some n)) with n.
      change (cap_text (Some d)) with d. cbv zeta. rewrite Hpn, Hpd.
      destruct (number_of_Z_sign (integer_of n) (integer_of_nonneg n)) as (_ & -> & _).
      destruct (number_of_Z_sign (integer_of d) (integer_of_nonneg d)) as (-> & -> & _).
      cbn [negb andb].
      destruct (0 <? integer_of d)%Z; [by repeat split | exact IH].
Qed.

Lemma run_lit_captures ci inp (kw s : string) (c : captures) (sc : string * captures) :
  In sc (run ci inp (Lit kw) s c) -> snd sc = c.
Proof.
  revert s. induction kw as [| a kw IH]; intros s.
  - simpl. by intros [<- | []].
  - cbn [Lit run]. destruct s as [| x s']; [intros [] |].
    destruct (char_eq ci a x); [| intros []].
    cbn [flat_map fst snd]. rewrite app_nil_r. apply IH.
Qed.

Lemma stage_words_no_percent line : numeric_loop [stage_words_pattern] line = None.
Proof.
  cbn [numeric_loop].
  destruct (exec stage_words_pattern line) as [m |] eqn:E; [| reflexivity].
  assert (Hm : m = []).
  { unfold exec, stage_words_pattern in E. cbn [re ignoreCase] in E.
    revert E. generalize line at 1 as inp. intros inp.
    induction line as [| x s IH]; cbn [search];
      match goal with
      | |- context [run ?ci ?i ?r ?t []] =>
          destruct (run ci i r t []) as [| sc l] eqn:R
      end; try discriminate; try exact IH;
      intros [= <-];
      (assert (Hin : In sc (run true inp
                 (Alt (Lit "backing up")
                    (Alt (Lit "restoring") (Alt (Lit "syncing") (Lit "processing")))) _ []))
         by (rewrite R; by left));
      cbn [run] in Hin; rewrite !in_app_iff in Hin;
      destruct Hin as [H | [H | [H | H]]]; exact (run_lit_captures _ _ _ _ _ _ H). }
  subst m. reflexivity.
Qed.

Lemma progressPatterns_shapes :
  progressPatterns = (map shape_regex numeric_shapes ++ [stage_words_pattern])%list.
Proof. reflexivity. Qed.

Lemma parse_agrees_classify line :
  agrees line (parseProgressFromOutput line) (classify line).
Proof.
  unfold parseProgressFromOutput, classify, agrees.
  assert (Hok : forallb usable numeric_shapes = true) by (vm_compute; reflexivity).
  pose proof (numeric_loop_agrees numeric_shapes [stage_words_pattern] line
                Hok (stage_words_no_percent line)) as Hnum.
  rewrite <- progressPatterns_shapes in Hnum.
  destruct (numeric_loop progressPatterns line) as [info |],
           (first_percent numeric_shapes line) as [x |]; try contradiction.
  - exact Hnum.
  - pose proof (stage_loop_agrees line) as Hst.
    destruct (stage_loop stagePatterns line) as [info |],
             (first_keyword stage_keywords line) as [label |]; simpl; try contradiction;
      assumption.
Qed.

Example zero_total_falls_through :
  parseProgressFromOutput "3/0 then [50%]"
  = Some {| percent := Some (number_of_Z 50); Frontend.message := "3/0 then [50%]";
            stage := "" |}
  /\ parseProgressFromOutput "0/0 5/10" = None.
Proof. apply conj; vm_compute; reflexivity. Qed.

Example backslash_ratio :
  code "\"%char = 92%N
  /\ agrees "45% \ 100" (parseProgressFromOutput "45% \ 100")
            (Some (Percent (number_of_Z 45))).
Proof. split; [reflexivity |]. vm_compute. by repeat split. Qed.

Example of_is_case_insensitive :
  parseProgressFromOutput "step 3 OF 4"
  = Some {| percent := Some (number_of_Z 75);
            Frontend.message := "step 3 OF 4"; stage := "" |}.
Proof. vm_compute. reflexivity. Qed.

(** C3, as stated, fails on the percentage: the code divides first and
    multiplies afterwards, in double precision. For "1 of 3" it returns the
    double written 33.33333333333333, which is neither the double that
    100*1/3 gives, written 33.333333333333336, nor the rational 100/3. *)
Lemma percent_is_not_hundred_times :
  exists info x,
    parseProgressFromOutput "1 of 3" = Some info
    /\ Frontend.percent info = Some x
    /\ number_toString x = "33.33333333333333"
    /\ number_toString (hundred_times_first 1 3) = "33.333333333333336"
    /\ x <> hundred_times_first 1 3
    /\ (forall q, rational_of x = Some q -> ~ (q == exact_percent 1 3)%Q).
Proof.
  eexists. eexists. split; [vm_compute; reflexivity |].
  split; [reflexivity |].
  split; [vm_compute; reflexivity |]. split; [vm_compute; reflexivity |].
  split; [vm_compute; discriminate |].
  intros q [= <-]. vm_compute. discriminate.
Qed.

(** C3 (amended): on every line the classifier returns what the ordered
    shapes give: the percentage of the first numeric shape that yields one
    (for two integers N and M with M > 0 the quotient of the doubles nearest
    N and M, times 100, in double precision; for a single integer the double
    nearest it), the later shapes being left untried; failing that, the label
    of the first stage keyword found in the line, letter case ignored, with
    no percentage; failing that, nothing. In particular "45% / 100" gives 45,
    "Progress: 72%" gives 72, "Backing up content..." gives the stage
    "Backing up data..." and "hello world" gives nothing. *)
Theorem classifier_refines line :
  agrees line (parseProgressFromOutput line) (classify line)
  /\ agrees "45% / 100" (parseProgressFromOutput "45% / 100")
            (Some (Percent (number_of_Z 45)))
  /\ agrees "Progress: 72%" (parseProgressFromOutput "Progress: 72%")
            (Some (Percent (number_of_Z 72)))
  /\ agrees "Backing up content..." (parseProgressFromOutput "Backing up content...")
            (Some (Stage "Backing up data..."))
  /\ parseProgressFromOutput "hello world" = None.
Proof.
  split; [apply parse_agrees_classify |].
  repeat apply conj; vm_compute; reflexivity.
Qed.

End ClassifierFacts.

Section PercentFacts.







(** Nor is the percentage always a number: two integers of 310 digits are
    both read as Infinity, whose quotient is NaN, and the clamp of
    [updateProgress] lets NaN through. *)
Lemma percent_not_a_number :
  parseProgressFromOutput (nines 310 ++ "/" ++ nines 310)
  = Some {| percent := Some NaN; Frontend.message := nines 310 ++ "/" ++ nines 310;
            stage := "" |}
  /\ clampedPercent NaN = NaN
  /\ number_toString (clampedPercent NaN) ++ "%" = "NaN%".
Proof. repeat apply conj; vm_compute; reflexivity. Qed.


Example shown_progress :
  forall p, has_progressContainer p = true -> has_progressBar p = true ->
            has_progressPercent p = true ->
    (progressBar_width
       (updateProgress (num_mul (num_div (number_of_Z 1) (number_of_Z 3)) hundred) "" "" p)
     = "33.33333333333333%"
     /\ progressPercent_textContent
          (updateProgress (num_mul (num_div (number_of_Z 1) (number_of_Z 3)) hundred) "" "" p)
        = "33%")
    /\ progressBar_width (updateProgress (number_of_Z 150) "" "" p) = "100%"
    /\ progressPercent_textContent (updateProgress NaN "" "" p) = "NaN%".
Proof.
  intros p Hc Hb Hp. unfold updateProgress. rewrite Hc, Hb, Hp.
  cbn [negb orb progressBar_width progressPercent_textContent].
  repeat apply conj; vm_compute; reflexivity.
Qed.


End PercentFacts.

(** ** Rejection of invalid requests *)

Section RejectionFacts.

Implicit Types (s t a b key cmd msg : string) (options : object).

Lemma prefix_refl_app t rest : String.prefix t (t ++ rest) = true.
Proof.
  induction t as [| x t IH]; simpl; [by destruct rest |].
  destruct (ascii_dec x x); [exact IH | contradiction].
Qed.

Lemma includes_unfold s t :
  includes s t
  = String.prefix t s || match s with EmptyString => false | String _ s' => includes s' t end.
Proof. destruct s; reflexivity. Qed.

Lemma includes_here t rest : includes (t ++ rest) t = true.
Proof. rewrite includes_unfold, prefix_refl_app. reflexivity. Qed.

Lemma includes_app_r a b t : includes b t = true -> includes (a ++ b) t = true.
Proof.
  intros H. induction a as [| x a IH]; simpl; [exact H |].
  rewrite IH. apply orb_true_r.
Qed.

Lemma includes_middle a t b : includes (a ++ t ++ b) t = true.
Proof. apply includes_app_r, includes_here. Qed.

Lemma append_cons (x : ascii) s t : String x s ++ t = String x (s ++ t).
Proof. reflexivity. Qed.

Lemma append_empty_r s : s ++ "" = s.
Proof. induction s as [| x s IH]; [reflexivity | by rewrite append_cons, IH]. Qed.

Lemma append_assoc_string a b t : (a ++ b) ++ t = a ++ b ++ t.
Proof. induction a as [| x a IH]; [reflexivity | by rewrite !append_cons, IH]. Qed.

Lemma join_member (sep e : string) (parts : list string) :
  In e parts -> exists a b, join sep parts = a ++ e ++ b.
Proof.
  induction parts as [| p rest IH]; [intros [] |].
  intros [-> | Hin].
  - destruct rest as [| q rest']; simpl.
    + exists "", "". simpl. by rewrite append_empty_r.
    + exists "", (sep ++ join sep (q :: rest')). reflexivity.
  - destruct (IH Hin) as (a & b & E). destruct rest as [| q rest']; [destruct Hin |].
    exists (p ++ sep ++ a), b.
    change (join sep (p :: q :: rest')) with (p ++ sep ++ join sep (q :: rest')).
    by rewrite E, !append_assoc_string.
Qed.

Lemma sanitize_loop_errors options (sanitized : CommandOptions) (errors : list string) :
  snd (sanitize_loop options sanitized errors) = (errors ++ flat_map errors_of options)%list.
Proof.
  revert sanitized errors. induction options as [| [k v] rest IH]; intros san errs; simpl.
  - by rewrite app_nil_r.
  - unfold errors_of at 1. simpl. destruct (startsWith k "_"); rewrite IH.
    + reflexivity.
    + by rewrite <- app_assoc.
Qed.

Lemma entry_error_names key v e : In e (entry_errors key v) -> exists rest, e = key ++ rest.
Proof.
  unfold entry_errors. rewrite !in_app_iff.
  intros [H | [H | H]];
    match type of H with In _ (if ?b then _ else _) => destruct b end;
    simpl in H; try contradiction; destruct H as [<- | []]; eexists; reflexivity.
Qed.

Lemma sanitizer_names cmd options msg :
  validateAndSanitizeOptions cmd options = Thrown msg ->
  (exists key v, In (key, v) options /\ violates key v = true)
  /\ (forall key v, In (key, v) options -> violates key v = true -> includes msg key = true).
Proof.
  unfold validateAndSanitizeOptions.
  destruct (sanitize_loop options _ []) as [san errs] eqn:E.
  pose proof (sanitize_loop_errors options {| entries := []; inherited := [] |} [])
    as Herrs.
  rewrite E in Herrs.
  simpl in Herrs. subst errs.
  destruct (Nat.ltb 0 _) eqn:Hlen; [| discriminate]. intros [= <-].
  split.
  - destruct (flat_map errors_of options) as [| e rest] eqn:F; [discriminate |].
    assert (Hin : In e (flat_map errors_of options)) by (rewrite F; by left).
    apply in_flat_map in Hin as ([k v] & Hkv & He). exists k, v. split; [exact Hkv |].
    unfold violates, errors_of in *. simpl in He.
    destruct (startsWith k "_"); [destruct He |].
    by destruct (entry_errors k v).
  - intros key v Hin Hv. unfold violates in Hv. apply andb_prop in Hv as [Hint Hne].
    destruct (entry_errors key v) as [| e rest] eqn:Ee; [discriminate |].
    assert (He : In e (flat_map errors_of options)).
    { apply in_flat_map. exists (key, v). split; [exact Hin |].
      unfold errors_of. simpl. apply negb_true_iff in Hint. rewrite Hint, Ee. by left. }
    destruct (entry_error_names key v e) as [tail ->]; [rewrite Ee; by left |].
    destruct (join_member ", " _ _ He) as (a & b & ->).
    apply includes_app_r.
    rewrite append_assoc_string. apply includes_middle.
Qed.

Ltac split_condition :=
  repeat match goal with
         | H : (_ || _)%bool = true |- _ => apply orb_prop in H as [H | H]
         | H : (_ && _)%bool = true |- _ => apply andb_prop in H as [? H]
         | H : negb _ = true |- _ => apply negb_true_iff in H
         end.

Ltac offending_by_hyp :=
  unfold offending, present;
  match goal with
  | H : truthy (get ?o ?k) = false |- context [truthy (get ?o ?k)] => rewrite H; reflexivity
  | H : entities_missing ?o = true |- _ =>
      rewrite H; destruct (truthy (get o "entities")); reflexivity
  | H : outPath_blank ?o = true |- _ =>
      rewrite H; destruct (truthy (get o "outPath")); reflexivity
  end.

Ltac name_key k :=
  exists k; split; [simpl; tauto | split; [offending_by_hyp | reflexivity]].

Ltac find_key :=
  first [ name_key "environmentId" | name_key "apiKey" | name_key "fileName"
        | name_key "targetEnvironmentId" | name_key "targetApiKey" | name_key "entities"
        | name_key "sourceEnvironmentId" | name_key "sourceApiKey" | name_key "folderName"
        | name_key "outPath" ].

Lemma validator_names cmd options msg :
  validateCommandOptions cmd options = invalid msg ->
  (known_domain cmd = true ->
     exists k, In k option_ids /\ offending options k = true /\ includes msg k = true)
  /\ (known_domain cmd = false -> msg = "Unknown command: " ++ cmd)
  /\ is_empty msg = false.
Proof.
  unfold validateCommandOptions, known_domain, domain_of. intros H.
  destruct (part_is (part (split " " cmd) 0) "environment") eqn:?,
           (part_is (part (split " " cmd) 0) "sync") eqn:?,
           (part_is (part (split " " cmd) 0) "migrate-content") eqn:?,
           (part_is (part (split " " cmd) 0) "migrations") eqn:?;
    cbn [orb] in *;
  repeat match type of H with
         | context [if ?b then _ else _] => destruct b eqn:?
         end;
    try discriminate H; injection H as <-;
    (split; [| split; [| reflexivity]]);
    try (intros; discriminate); try (intros _; reflexivity);
    intros _; split_condition; find_key.
Qed.

Lemma execute_try_failure env cmd options msg spawns :
  validation_failure cmd options msg ->
  execute_try env cmd options spawns = (Thrown msg, spawns).
Proof.
  intros [m Hs | san m Hs Hv]; unfold execute_try; rewrite Hs; [reflexivity |].
  rewrite Hv. simpl. destruct (validator_names _ _ _ Hv) as (_ & _ & ->). reflexivity.
Qed.

Lemma executeDataOpsCommand_failure env cmd options msg spawns :
  validation_failure cmd options msg ->
  executeDataOpsCommand env cmd options spawns
  = (Thrown (if includes msg "not found" then cli_not_found env else msg), spawns).
Proof.
  intros H. unfold executeDataOpsCommand. rewrite (execute_try_failure _ _ _ _ _ H).
  by destruct (includes msg "not found").
Qed.

Lemma reject_is_json msg : exists err sol, reject msg = Json 500 err sol.
Proof.
  unfold reject. destruct (includes msg "Validation errors"); [by eexists; eexists |].
  destruct (includes msg "not found"); by eexists; eexists.
Qed.

Lemma reject_keeps_message msg :
  includes msg "not found" = false -> exists sol, reject msg = Json 500 msg sol.
Proof.
  intros H. unfold reject. rewrite H.
  destruct (includes msg "Validation errors"); by eexists.
Qed.

(** C2, as stated, fails on the message: an unknown command is rejected with
    a message that names the command and no option, and a violation on a key
    that contains "not found" is reported as a missing CLI. *)
Lemma rejection_names_no_option :
  (validation_failure "deploy now" (request_options unknown_command_request)
     "Unknown command: deploy now"
   /\ execute_route some_env unknown_command_request []
      = (Json 500 "Unknown command: deploy now"
           "Please check the error message and try again. If the issue persists, review the logs for more details.",
         [])
   /\ names_one_of (option_ids ++ map fst (request_options unknown_command_request))%list
        "Unknown command: deploy now" = false)
  /\ (validation_failure "environment backup" (request_options not_found_key_request)
        "Validation errors: apiKey not found appears to be invalid"
      /\ execute_route some_env not_found_key_request []
         = (Json 500 "Data-ops CLI not found"
              "Please ensure the data-ops repository is built. Run: cd data-ops && npm run build",
            [])
      /\ names_one_of (option_ids ++ map fst (request_options not_found_key_request))%list
           "Data-ops CLI not found" = false).
Proof.
  split; (split; [| split; reflexivity]).
  - eapply validate_fails; reflexivity.
  - apply sanitize_fails. reflexivity.
Qed.

(** C2 (amended): a request whose options fail sanitization or command
    validation is answered by a JSON rejection; nothing is written to the
    event stream and no process is created. When the request passes the
    format checks and the failure message does not contain "not found", the
    rejection carries that message, which names every key the sanitizer
    found in violation or, for a command of a known domain, an option that
    does not meet the violated rule; for an unknown domain it names the
    command. *)
Theorem validation_failure_rejected env body spawns cmd msg :
  get body "command" = VString cmd ->
  validation_failure cmd (request_options body) msg ->
  (exists status err sol, execute_route env body spawns = (Json status err sol, spawns))
  /\ stream_of (fst (execute_route env body spawns)) = []
  /\ snd (execute_route env body spawns) = spawns
  /\ (well_formed body = true -> includes msg "not found" = false ->
        exists sol, execute_route env body spawns = (Json 500 msg sol, spawns))
  /\ (forall m, validateAndSanitizeOptions cmd (request_options body) = Thrown m ->
        m = msg
        /\ (exists key v, In (key, v) (request_options body) /\ violates key v = true)
        /\ (forall key v, In (key, v) (request_options body) -> violates key v = true ->
                          includes msg key = true))
  /\ (forall sanitized,
        validateAndSanitizeOptions cmd (request_options body) = Returned sanitized ->
        (known_domain cmd = true ->
           exists k, In k option_ids /\ offending (properties sanitized) k = true
                     /\ includes msg k = true)
        /\ (known_domain cmd = false -> msg = "Unknown command: " ++ cmd)).
Proof.
  intros Hcmd Hfail.
  assert (Hroute : exists status err sol,
             execute_route env body spawns = (Json status err sol, spawns)).
  { unfold execute_route. rewrite Hcmd.
    destruct (is_empty cmd); [by repeat eexists |].
    destruct (_ || _); [by repeat eexists |].
    destruct (_ && _); [by repeat eexists |].
    fold (request_options body).
    rewrite (executeDataOpsCommand_failure _ _ _ _ _ Hfail).
    destruct (reject_is_json (if includes msg "not found" then cli_not_found env else msg))
      as (err & sol & ->). by repeat eexists. }
  split; [exact Hroute |].
  destruct Hroute as (status & err & sol & Hr).
  split; [by rewrite Hr |]. split; [by rewrite Hr |].
  split; [| split].
  - intros Hwf Hnf. unfold execute_route, well_formed in *. rewrite Hcmd in *.
    apply andb_prop in Hwf as [[[H1 H2]%andb_prop H3]%andb_prop H4].
    apply negb_true_iff in H1, H4. rewrite H1, H4.
    apply Nat.leb_le in H2, H3.
    replace (Nat.ltb (List.length (split " " cmd)) 2 || Nat.ltb 3 (List.length (split " " cmd)))
      with false.
    2: { symmetry. apply orb_false_intro; apply Nat.ltb_ge; lia. }
    fold (request_options body).
    rewrite (executeDataOpsCommand_failure _ _ _ _ _ Hfail), Hnf.
    destruct (reject_keeps_message msg Hnf) as [sol' ->]. by exists sol'.
  - intros m Hm. destruct Hfail as [m' Hs | san m' Hs Hv]; [| congruence].
    assert (m = m') as -> by congruence.
    split; [reflexivity |]. by apply (sanitizer_names cmd).
  - intros sanitized Hs. destruct Hfail as [m' Hs' | san m' Hs' Hv]; [congruence |].
    assert (san = sanitized) as -> by congruence.
    destruct (validator_names _ _ _ Hv) as (K & U & _). by split.
Qed.

(** Options that arrive under the key [__proto__] become the prototype of the
    sanitized object: the validator reads them, the argument builder, which
    goes through the own entries, does not. *)
Remark inherited_options_pass_validation :
  execute_route some_env inherited_options_request []
  = (EventStream (open_stream "environment backup"),
     [["node"; DATA_OPS_CLI some_env; "environment"; "backup"]]).
Proof. reflexivity. Qed.

Lemma validation_failure_rejected_witness :
  get missing_key_request "command" = VString "environment backup"
  /\ validation_failure "environment backup" (request_options missing_key_request)
       "environmentId and apiKey are required for environment backup"
  /\ snd (execute_route some_env missing_key_request []) = [].
Proof.
  split; [reflexivity |].
  assert (H : validation_failure "environment backup" (request_options missing_key_request)
                "environmentId and apiKey are required for environment backup")
    by (eapply validate_fails; reflexivity).
  split; [exact H |].
  apply (proj1 (proj2 (proj2 (validation_failure_rejected some_env missing_key_request []
                                "environment backup" _ eq_refl H)))).
Defined.

End RejectionFacts.

(** * Further properties *)

(** ** Further properties of the rate limiter *)

Section RateLimitMore.

Import RateLimit.

Implicit Types (m : gmap string (list Z)) (ip : string) (now : Z).

Lemma filter_window_twice windowMs (n now : Z) (l : list Z) :
  (n <= now)%Z ->
  filter (fun t => (now - t < windowMs)%Z) (filter (fun t => (n - t < windowMs)%Z) l)
  = filter (fun t => (now - t < windowMs)%Z) l.
Proof.
  intros Hle. induction l as [| t l IH]; [reflexivity |].
  destruct (decide (n - t < windowMs)%Z) as [Hn | Hn].
  - rewrite (filter_cons_True (fun t => (n - t < windowMs)%Z)) by exact Hn.
    destruct (decide (now - t < windowMs)%Z) as [Hnow | Hnow].
    + rewrite !(filter_cons_True (fun t => (now - t < windowMs)%Z)) by exact Hnow.
      by rewrite IH.
    + rewrite !(filter_cons_False (fun t => (now - t < windowMs)%Z)) by exact Hnow.
      exact IH.
  - rewrite (filter_cons_False (fun t => (n - t < windowMs)%Z)) by exact Hn.
    rewrite (filter_cons_False (fun t => (now - t < windowMs)%Z)) by lia.
    exact IH.
Qed.

(** With a clock that never goes back, what is stored for the client and the
    list of its admitted timestamps look the same through every later
    window. *)
Lemma admitted_window windowMs maxRequests ip (times : list Z) m (before : list Z) (from : Z) :
  nondecreasing from times ->
  (forall now, (from <= now)%Z ->
     pruned windowMs now ip m = filter (fun t => (now - t < windowMs)%Z) before) ->
  forall pre a post,
    (before ++ admitted windowMs maxRequests ip times m)%list = (pre ++ a :: post)%list ->
    List.length before <= List.length pre ->
    List.length (filter (fun t => (a - t < windowMs)%Z) pre) < maxRequests.
Proof.
  revert m before from. induction times as [| now rest IH]; intros m before from Hmono Hinv.
  - simpl. intros pre a post Heq Hlen. rewrite app_nil_r in Heq.
    apply (f_equal (@List.length Z)) in Heq. rewrite length_app in Heq. simpl in Heq. lia.
  - destruct Hmono as [Hfrom Hrest]. cbn [admitted].
    destruct (decide (List.length (pruned windowMs now ip m) < maxRequests)) as [Hlt | Hge].
    + rewrite (checkLimit_admit _ _ _ _ _ Hlt).
      intros pre a post Heq Hlen.
      change (([now] ++ admitted windowMs maxRequests ip rest
                 (<[ip := (pruned windowMs now ip m ++ [now])%list]> m))%list)
        with (now :: admitted windowMs maxRequests ip rest
                 (<[ip := (pruned windowMs now ip m ++ [now])%list]> m)) in Heq.
      destruct (decide (List.length pre = List.length before)) as [Hsame | Hlonger].
      * apply app_inj_1 in Heq as [<- [= <- _]]; [| lia].
        rewrite <- (Hinv now Hfrom). exact Hlt.
      * apply (IH (<[ip := (pruned windowMs now ip m ++ [now])%list]> m)
                  (before ++ [now])%list now Hrest) with (post := post).
        -- intros now' Hnow'. rewrite pruned_insert, !filter_app.
           rewrite (Hinv now Hfrom), filter_window_twice by exact Hnow'.
           reflexivity.
        -- by rewrite <- app_assoc.
        -- rewrite length_app. simpl. lia.
    + rewrite checkLimit_reject by lia. simpl.
      apply (IH m before now Hrest).
      intros now' Hnow'. apply Hinv. lia.
Qed.

(** X1: with a clock that never goes back, whenever a request of a client that
    started with no record is admitted, fewer than the maximum of its earlier
    admitted requests lie within the window before it. *)
Theorem admitted_within_window windowMs maxRequests ip (times : list Z) m (from : Z) :
  m !! ip = None ->
  nondecreasing from times ->
  forall pre a post,
    admitted windowMs maxRequests ip times m = (pre ++ a :: post)%list ->
    List.length (filter (fun t => (a - t < windowMs)%Z) pre) < maxRequests.
Proof.
  intros Hfresh Hmono pre a post Heq.
  apply (admitted_window windowMs maxRequests ip times m [] from Hmono) with (post := post).
  - intros now _. by rewrite (pruned_fresh _ _ _ _ Hfresh).
  - exact Heq.
  - simpl. lia.
Qed.

Lemma admitted_within_window_witness :
  (∅ : gmap string (list Z)) !! "203.0.113.7" = None
  /\ nondecreasing 0 [0; 300; 600; 999; 1999]%Z
  /\ List.length (filter (fun t => (1999 - t < 1000)%Z) [0; 300; 600]%Z) < 3.
Proof.
  assert (H1 : (∅ : gmap string (list Z)) !! "203.0.113.7" = None) by reflexivity.
  assert (H2 : nondecreasing 0 [0; 300; 600; 999; 1999]%Z) by (simpl; lia).
  split; [exact H1 |]. split; [exact H2 |].
  apply (admitted_within_window 1000 3 "203.0.113.7" [0; 300; 600; 999; 1999]%Z ∅ 0 H1 H2
           [0; 300; 600]%Z 1999%Z []).
  reflexivity.
Defined.

(** X2: a check of one client leaves the record of every other client alone,
    and no stored record ever grows beyond the maximum. *)
Theorem checkLimit_clients_independent windowMs maxRequests now ip m :
  (forall ip', ip' <> ip ->
     snd (checkLimit windowMs maxRequests now ip m) !! ip' = m !! ip')
  /\ ((forall ip' l, m !! ip' = Some l -> List.length l <= maxRequests) ->
      forall ip' l, snd (checkLimit windowMs maxRequests now ip m) !! ip' = Some l ->
                    List.length l <= maxRequests).
Proof.
  destruct (decide (List.length (pruned windowMs now ip m) < maxRequests)) as [Hlt | Hge].
  - rewrite (checkLimit_admit _ _ _ _ _ Hlt). simpl. split.
    + intros ip' Hne. by rewrite lookup_insert_ne.
    + intros Hbound ip' l. destruct (decide (ip = ip')) as [<- | Hne].
      * rewrite lookup_insert_eq. intros [= <-]. rewrite length_app. simpl. lia.
      * rewrite lookup_insert_ne by exact Hne. apply Hbound.
  - rewrite checkLimit_reject by lia. simpl. split; [reflexivity | auto].
Qed.

Lemma checkLimit_clients_independent_witness :
  "198.51.100.2" <> "203.0.113.7"
  /\ snd (checkLimit 1000 3 10 "203.0.113.7" {[ "198.51.100.2" := [1; 2; 3]%Z ]})
       !! "198.51.100.2"
     = ({[ "198.51.100.2" := [1; 2; 3]%Z ]} : gmap string (list Z)) !! "198.51.100.2".
Proof.
  assert (H : "198.51.100.2" <> "203.0.113.7") by discriminate.
  split; [exact H |].
  apply (proj1 (checkLimit_clients_independent 1000 3 10 "203.0.113.7"
                  {[ "198.51.100.2" := [1; 2; 3]%Z ]}) "198.51.100.2" H).
Defined.



Lemma filter_all_out (P : Z -> Prop) `{forall t, Decision (P t)} (l : list Z) :
  (forall t, In t l -> ~ P t) -> filter P l = [].
Proof.
  induction l as [| t l IH]; intros Hall; [reflexivity |].
  rewrite filter_cons_False by (apply Hall; by left).
  apply IH. intros t' Hin. apply Hall. by right.
Qed.

(** X3: a request answered 429 leaves the map as it was, tells the client to
    retry after 60 seconds, and comes from a client with 30 requests or more
    on record in the last 60000 ms. When the clock has not gone back on that
    record, a request of the same client that many seconds later, or more,
    is passed on, provided the record of the client is still the one the
    429 left: whatever the other clients did meanwhile, the client itself
    had no request admitted. *)
Theorem retry_after_honoured (NODE_ENV : option string) (req : request)
    (now : Z) (m m' : gmap string (list Z)) (error message : string) (retryAfter : Z) :
  rateLimitMiddleware NODE_ENV req now m = (TooManyRequests error message retryAfter, m') ->
  m' = m /\ retryAfter = 60%Z
  /\ 30 <= List.length (pruned 60000 now (client_key req) m)
  /\ (forall (later : Z) (m2 : gmap string (list Z)),
        (forall t, In t (default [] (m !! client_key req)) -> (t <= now)%Z) ->
        m2 !! client_key req = m !! client_key req ->
        (now + retryAfter * 1000 <= later)%Z ->
        fst (rateLimitMiddleware NODE_ENV req later m2) = Next).
Proof.
  intros Hanswer. unfold rateLimitMiddleware in *.
  destruct (opt_is NODE_ENV "development"
            && (opt_is (req_ip req) "127.0.0.1" || opt_is (req_ip req) "::1"));
    [discriminate Hanswer |].
  unfold checkRateLimit in *.
  destruct (decide (List.length (pruned RATE_LIMIT_WINDOW now (client_key req) m)
                    < RATE_LIMIT_MAX_REQUESTS)) as [Hlt | Hge].
  - rewrite (checkLimit_admit _ _ _ _ _ Hlt) in Hanswer. discriminate Hanswer.
  - rewrite checkLimit_reject in Hanswer by lia.
    injection Hanswer as _ _ <- <-.
    split; [reflexivity |]. split; [reflexivity |].
    split; [unfold RATE_LIMIT_WINDOW, RATE_LIMIT_MAX_REQUESTS in Hge; lia |].
    intros later m2 Hpast Hsame Hlater.
    rewrite checkLimit_admit; [reflexivity |].
    unfold pruned. rewrite Hsame.
    rewrite filter_all_out; [unfold RATE_LIMIT_MAX_REQUESTS; simpl; lia |].
    intros t Hin. specialize (Hpast t Hin).
    unfold RATE_LIMIT_WINDOW in *. change ((60000 + 999) / 1000)%Z with 60%Z in Hlater. lia.
Qed.

Lemma retry_after_honoured_witness :
  rateLimitMiddleware None busy_client 2000 busy_map
  = (TooManyRequests "Too many requests" "Rate limit exceeded. Please try again later." 60,
     busy_map)
  /\ (forall t, In t (default [] (busy_map !! client_key busy_client)) -> (t <= 2000)%Z)
  /\ fst (rateLimitMiddleware None busy_client 62000
            (<["198.51.100.2" := [61500%Z]]> busy_map)) = Next.
Proof.
  assert (H1 : rateLimitMiddleware None busy_client 2000 busy_map
               = (TooManyRequests "Too many requests"
                    "Rate limit exceeded. Please try again later." 60, busy_map))
    by reflexivity.
  assert (H2 : forall t, In t (default [] (busy_map !! client_key busy_client))
                         -> (t <= 2000)%Z).
  { intros t Hin. change (In t (repeat 1000%Z 30)) in Hin.
    apply repeat_spec in Hin. lia. }
  split; [exact H1 |]. split; [exact H2 |].
  apply (proj2 (proj2 (proj2 (retry_after_honoured None busy_client 2000 busy_map busy_map
                                _ _ 60 H1)))
           62000%Z (<["198.51.100.2" := [61500%Z]]> busy_map) H2);
    [reflexivity | lia].
Defined.

(** The proviso is needed: a client that had 30 requests admitted after the
    429 is refused again at the time the 429 named. *)
Example retry_refused_after_new_requests :
  fst (rateLimitMiddleware None busy_client 62000 busy_again_map)
  = TooManyRequests "Too many requests" "Rate limit exceeded. Please try again later." 60.
Proof. reflexivity. Qed.

End RateLimitMore.

(** ** Trimming *)

Section TrimFacts.

Implicit Types (s t : string) (c : ascii).

Lemma trimStart_first s :
  match trimStart s with
  | EmptyString => True
  | String c _ => is_space c = false
  end.
Proof.
  induction s as [| c s IH]; simpl; [exact I |].
  destruct (is_space c) eqn:E; [exact IH | exact E].
Qed.

Lemma trimEnd_cons c s :
  trimEnd (String c s)
  = match trimEnd s with
    | EmptyString => if is_space c then EmptyString else String c EmptyString
    | t => String c t
    end.
Proof. reflexivity. Qed.

Lemma trimEnd_first c s :
  is_space c = false -> exists t, trimEnd (String c s) = String c t.
Proof.
  intros Hc. rewrite trimEnd_cons. destruct (trimEnd s) as [| x t].
  - rewrite Hc. by eexists.
  - by eexists.
Qed.

Lemma trimEnd_last s :
  match last_char (trimEnd s) with
  | Some l => is_space l = false
  | None => True
  end.
Proof.
  induction s as [| c s IH]; [exact I |].
  rewrite trimEnd_cons. destruct (trimEnd s) as [| x t].
  - destruct (is_space c) eqn:E; simpl; [exact I | exact E].
  - exact IH.
Qed.

Lemma trimEnd_fixed s l :
  last_char s = Some l -> is_space l = false -> trimEnd s = s.
Proof.
  induction s as [| c s IH]; [discriminate |].
  intros Hlast Hl. rewrite trimEnd_cons. destruct s as [| x s'].
  - simpl in Hlast. injection Hlast as ->. simpl. by rewrite Hl.
  - rewrite (IH Hlast Hl). reflexivity.
Qed.

Lemma last_char_some c s : exists l, last_char (String c s) = Some l.
Proof.
  revert c. induction s as [| x s IH]; intros c; [by exists c |].
  destruct (IH x) as [l E]. exists l. exact E.
Qed.

Lemma trim_no_outer_space s : no_outer_space (trim s) = true.
Proof.
  unfold trim. pose proof (trimStart_first s) as Hfirst.
  destruct (trimStart s) as [| c t]; [reflexivity |].
  destruct (trimEnd_first c t Hfirst) as [t' E].
  pose proof (trimEnd_last (String c t)) as Hlast. rewrite E in *.
  unfold no_outer_space. rewrite Hfirst. simpl negb. cbn [andb].
  destruct (last_char (String c t')); [by rewrite Hlast | reflexivity].
Qed.

Lemma trim_fixed s : no_outer_space s = true -> trim s = s.
Proof.
  unfold no_outer_space, trim. destruct s as [| c t]; [reflexivity |].
  intros [Hc Hl]%andb_prop. apply negb_true_iff in Hc.
  cbn [trimStart]. rewrite Hc.
  destruct (last_char (String c t)) as [l |] eqn:E.
  - apply negb_true_iff in Hl. by apply (trimEnd_fixed _ l).
  - destruct (last_char_some c t) as [l E']. congruence.
Qed.

(** X4: the server's sanitizeInput leaves every value that is not a string
    alone, gives a string without white space at either end, and is
    idempotent. *)
Theorem sanitizeInput_idempotent (v : value) :
  sanitizeInput (sanitizeInput v) = sanitizeInput v
  /\ (is_string v = false -> sanitizeInput v = v)
  /\ (forall s, v = VString s ->
        exists t, sanitizeInput v = VString t /\ no_outer_space t = true).
Proof.
  split; [| split].
  - destruct v; try reflexivity. simpl. by rewrite trim_fixed by apply trim_no_outer_space.
  - by destruct v.
  - intros s ->. exists (trim s). split; [reflexivity | apply trim_no_outer_space].
Qed.

Lemma sanitizeInput_idempotent_witness :
  is_string (VNumber (number_of_Z 5)) = false
  /\ sanitizeInput (VNumber (number_of_Z 5)) = VNumber (number_of_Z 5).
Proof.
  split; [reflexivity |].
  apply (proj1 (proj2 (sanitizeInput_idempotent (VNumber (number_of_Z 5))))). reflexivity.
Defined.

Lemma strip_angle_clean s :
  all_chars (fun c => negb (Ascii.eqb c "<" || Ascii.eqb c ">")) (strip_angle s) = true.
Proof.
  induction s as [| c s IH]; [reflexivity |]. simpl.
  destruct (Ascii.eqb c "<" || Ascii.eqb c ">") eqn:E; [exact IH |].
  simpl. by rewrite E, IH.
Qed.

(** X5: the front end's sanitizeInput never returns a string with an angle
    bracket in it, but it can leave white space at the front that a second
    pass removes: it is not idempotent. *)
Theorem frontend_sanitizeInput_no_angle :
  (forall s, exists t,
      frontend_sanitizeInput (VString s) = VString t
      /\ all_chars (fun c => negb (Ascii.eqb c "<" || Ascii.eqb c ">")) t = true)
  /\ frontend_sanitizeInput (VString "<  a") = VString "  a"
  /\ frontend_sanitizeInput (VString "  a") = VString "a".
Proof.
  split; [| split; reflexivity].
  intros s. eexists. split; [reflexivity | apply strip_angle_clean].
Qed.

End TrimFacts.

(** ** The UUID test *)

Section UuidFacts.

Implicit Types (r : regex) (s : string) (c : captures).

Lemma run_walk ci inp r :
  linear r ->
  forall s c,
    run ci inp r s c = match walk ci inp r s with Some s' => [(s', c)] | None => [] end.
Proof.
  induction r as [| a | p | | | | r1 IH1 r2 IH2 | r1 IH1 r2 IH2 | r0 IH | i r0 IH];
    intros Hlin s c; try contradiction; cbn [run walk].
  - reflexivity.
  - destruct s as [| x s']; [reflexivity |]. by destruct (char_eq ci a x).
  - destruct s as [| x s']; [reflexivity |]. by destruct (class_has ci p x).
  - by destruct (Nat.eqb _ _).
  - by destruct (is_empty s).
  - destruct Hlin as [L1 L2]. rewrite (IH1 L1).
    destruct (walk ci inp r1 s) as [s' |]; [| reflexivity].
    simpl. rewrite app_nil_r. apply (IH2 L2).
Qed.

(** A pattern that starts with [^] matches at the start of the input only. *)
Lemma search_anchored ci inp r s :
  String.length s < String.length inp -> search ci inp (Seq Bol r) s = None.
Proof.
  induction s as [| x s IH]; intros Hlen; cbn [search run].
  - destruct (Nat.eqb_spec (String.length "") (String.length inp)) as [E | _]; [lia |].
    reflexivity.
  - destruct (Nat.eqb_spec (String.length (String x s)) (String.length inp)) as [E | _];
      [lia |].
    simpl. apply IH. simpl in Hlen. lia.
Qed.

Lemma test_anchored (r : regex) (flag : bool) s :
  linear r ->
  test {| re := Seq Bol r; ignoreCase := flag |} s
  = match walk flag s r s with Some _ => true | None => false end.
Proof.
  intros Hlin. unfold test, exec. simpl re. simpl ignoreCase.
  assert (Hrun : run flag s (Seq Bol r) s []
                 = match walk flag s r s with Some s' => [(s', [])] | None => [] end).
  { cbn [run]. rewrite Nat.eqb_refl. simpl. rewrite app_nil_r. by apply run_walk. }
  destruct s as [| x s'].
  - cbn [search]. rewrite Hrun. by destruct (walk flag "" r "").
  - cbn [search]. rewrite Hrun.
    destruct (walk flag (String x s') r (String x s')); [reflexivity |].
    rewrite search_anchored; [reflexivity | simpl; lia].
Qed.

Lemma strip_app (ps qs : list (ascii -> bool)) s :
  strip (ps ++ qs) s = match strip ps s with Some s' => strip qs s' | None => None end.
Proof.
  revert s. induction ps as [| p ps IH]; intros s; [reflexivity |].
  simpl. destruct s as [| x rest]; [reflexivity |]. destruct (p x); [apply IH | reflexivity].
Qed.

Lemma walk_unanchored ci inp r : unanchored r -> forall s, walk ci inp r s = strip (shape_of ci r) s.
Proof.
  induction r as [| a | p | | | | r1 IH1 r2 IH2 | r1 IH1 r2 IH2 | r0 IH | i r0 IH];
    intros Hp s; try contradiction; cbn [walk shape_of].
  - reflexivity.
  - simpl. destruct s as [| x s']; [reflexivity |]. by destruct (char_eq ci a x).
  - simpl. destruct s as [| x s']; [reflexivity |]. by destruct (class_has ci p x).
  - destruct Hp as [P1 P2]. rewrite strip_app, (IH1 P1).
    destruct (strip (shape_of ci r1) s); [apply (IH2 P2) | reflexivity].
Qed.

Lemma strip_fits (ps : list (ascii -> bool)) s :
  match strip ps s with Some EmptyString => true | _ => false end = fits ps s.
Proof.
  revert s. induction ps as [| p ps IH]; intros s.
  - by destruct s.
  - simpl. destruct s as [| x rest]; [reflexivity |]. destruct (p x); [apply IH | reflexivity].
Qed.

Lemma fits_ext (ps qs : list (ascii -> bool)) s :
  Forall2 (fun p q => forall x, p x = q x) ps qs -> fits ps s = fits qs s.
Proof.
  intros H. revert s. induction H as [| p q ps qs Hpq _ IH]; intros s; [reflexivity |].
  simpl. destruct s as [| x rest]; [reflexivity |]. by rewrite Hpq, IH.
Qed.

Lemma fits_length (ps : list (ascii -> bool)) s :
  fits ps s = true -> String.length s = List.length ps.
Proof.
  revert s. induction ps as [| p ps IH]; intros s; destruct s as [| x rest]; simpl;
    try discriminate; [reflexivity |].
  intros [_ H]%andb_prop. by rewrite (IH _ H).
Qed.

Lemma hex_class_ci (x : ascii) :
  class_has true (fun y => is_digit y || in_range 97 102 y) x = is_hex x.
Proof.
  revert x.
  assert (H : forall x, Bool.eqb (class_has true (fun y => is_digit y || in_range 97 102 y) x)
                                 (is_hex x) = true).
  { apply for_all_ascii. vm_compute. reflexivity. }
  intros x. apply eqb_prop, H.
Qed.

Lemma dash_ci (x : ascii) : char_eq true "-" x = is_dash x.
Proof.
  revert x.
  assert (H : forall x, Bool.eqb (char_eq true "-" x) (is_dash x) = true).
  { apply for_all_ascii. vm_compute. reflexivity. }
  intros x. apply eqb_prop, H.
Qed.

Lemma walk_seqs_snoc ci inp (r : regex) (rs : list regex) (d : regex) s :
  walk ci inp (seqs ((r :: rs) ++ [d])) s = walk ci inp (Seq (seqs (r :: rs)) d) s.
Proof.
  revert r s. induction rs as [| r' rest IH]; intros r s; [reflexivity |].
  change (seqs ((r :: r' :: rest) ++ [d])) with (Seq r (seqs ((r' :: rest) ++ [d]))).
  change (seqs (r :: r' :: rest)) with (Seq r (seqs (r' :: rest))).
  cbn [walk]. destruct (walk ci inp r s) as [s' |]; [| reflexivity].
  rewrite IH. reflexivity.
Qed.

Lemma uuid_test s : test uuidRegex s = fits uuid_shape s.
Proof.
  change uuidRegex with
    {| re := Seq Bol (seqs [Rep 8 hex; Chr "-"; Rep 4 hex; Chr "-"; Rep 4 hex; Chr "-";
                            Rep 4 hex; Chr "-"; Rep 12 hex; Eol]);
       ignoreCase := true |}.
  rewrite test_anchored by (cbn; tauto).
  assert (Hre : forall t,
             walk true s (seqs [Rep 8 hex; Chr "-"; Rep 4 hex; Chr "-"; Rep 4 hex; Chr "-";
                                Rep 4 hex; Chr "-"; Rep 12 hex; Eol]) t
             = walk true s (Seq uuid_body Eol) t).
  { intros t. unfold uuid_body. rewrite <- walk_seqs_snoc. reflexivity. }
  rewrite Hre. cbn [walk]. rewrite walk_unanchored by (cbn; tauto).
  rewrite <- (fits_ext (shape_of true uuid_body) uuid_shape).
  - rewrite <- strip_fits. destruct (strip (shape_of true uuid_body) s) as [[| x t] |];
      reflexivity.
  - cbn. repeat (constructor; [first [exact hex_class_ci | exact dash_ci] |]). constructor.
Qed.

Lemma validateEnvironmentId_uuid (v : value) :
  validateEnvironmentId v = true ->
  exists s, v = VString s /\ fits uuid_shape (trim s) = true.
Proof.
  destruct v as [| | b | n | s | items | entries]; try discriminate.
  simpl. destruct (is_empty s); [discriminate |].
  rewrite uuid_test. intros H. by exists s.
Qed.

(** X6: validateEnvironmentId accepts exactly the strings that, once trimmed,
    are 36 characters long with a dash at the positions 8, 13, 18 and 23 and
    a hexadecimal digit of either case everywhere else; no value that is not
    a string is accepted. *)
Theorem validateEnvironmentId_shape (v : value) :
  validateEnvironmentId v = true
  <-> exists s, v = VString s /\ fits uuid_shape (trim s) = true.
Proof.
  split.
  - apply validateEnvironmentId_uuid.
  - intros (s & -> & H). simpl. rewrite uuid_test.
    destruct s as [| x s']; [discriminate H | exact H].
Qed.

Lemma validateEnvironmentId_shape_witness :
  validateEnvironmentId (VString " 123E4567-e89b-12d3-a456-426614174000") = true.
Proof.
  apply (proj2 (validateEnvironmentId_shape
                  (VString " 123E4567-e89b-12d3-a456-426614174000"))).
  exists " 123E4567-e89b-12d3-a456-426614174000". split; reflexivity.
Defined.

End UuidFacts.

(** ** What the sanitizer returns *)

Section SanitizerMore.

Implicit Types (key cmd : string) (v : value) (options : object).

Lemma not_internal_not_proto key :
  startsWith key "_" = false -> String.eqb key "__proto__" = false.
Proof.
  unfold startsWith. destruct key as [| c rest]; [reflexivity |].
  simpl. destruct (ascii_dec "_" c) as [<- | Hne].
  - by destruct rest.
  - intros _. destruct (Ascii.eqb_spec c "_") as [-> | _]; [contradiction | reflexivity].
Qed.

Lemma sanitize_loop_entries options (sanitized : CommandOptions) (errors : list string) :
  entries (fst (sanitize_loop options sanitized errors))
  = (entries sanitized ++ map sanitized_entry (List.filter not_proto options))%list.
Proof.
  revert sanitized errors. induction options as [| [k v] rest IH]; intros san errs.
  - simpl. by rewrite app_nil_r.
  - cbn [sanitize_loop List.filter]. unfold not_proto at 1, sanitized_entry at 1. simpl fst.
    destruct (startsWith k "_") eqn:Hint.
    + rewrite IH. unfold assign. destruct (String.eqb k "__proto__") eqn:Hp; simpl.
      * by destruct v.
      * rewrite Hint. simpl. by rewrite <- app_assoc.
    + rewrite IH. unfold assign. rewrite (not_internal_not_proto k Hint). simpl.
      rewrite Hint. simpl. by rewrite <- app_assoc.
Qed.

Lemma flat_map_nil_inv {A B} (f : A -> list B) (l : list A) (x : A) :
  flat_map f l = [] -> In x l -> f x = [].
Proof.
  induction l as [| a l IH]; [intros _ [] |].
  simpl. intros [Ha Hl]%app_eq_nil [<- | Hin]; [exact Ha | by apply IH].
Qed.

Lemma validateApiKey_length v n :
  validateApiKey v n = true -> exists s, v = VString s /\ n <= String.length (trim s).
Proof.
  destruct v as [| | b | z | s | items | es]; try discriminate.
  simpl. destruct (is_empty s); [discriminate |].
  intros H. exists s. split; [reflexivity | by apply Nat.leb_le].
Qed.

(** X7: when the sanitizer returns, the own entries of its result are the
    entries of the input in their order, the key [__proto__] apart, with
    every string value of a key that is not internal trimmed and everything
    else unchanged; and every truthy value under a key that is not internal
    has passed the check of its kind: an environment identifier is a string
    that is a UUID once trimmed, an API key a string of at least 10
    characters once trimmed, a file path one that [validateFilePath] accepts. *)
Theorem sanitizer_result cmd options (sanitized : CommandOptions) :
  validateAndSanitizeOptions cmd options = Returned sanitized ->
  entries sanitized = map sanitized_entry (List.filter not_proto options)
  /\ (forall key v,
        In (key, v) options -> startsWith key "_" = false -> truthy v = true ->
        (key_is_environment_id key = true ->
           exists s, v = VString s /\ fits uuid_shape (trim s) = true)
        /\ (key_is_api_key key = true ->
              exists s, v = VString s /\ 10 <= String.length (trim s))
        /\ (key_is_file_path key = true -> validateFilePath v 500 = true)).
Proof.
  unfold validateAndSanitizeOptions.
  destruct (sanitize_loop options _ []) as [san errs] eqn:E.
  pose proof (sanitize_loop_errors options {| entries := []; inherited := [] |} [])
    as Herrs.
  pose proof (sanitize_loop_entries options {| entries := []; inherited := [] |} [])
    as Hents.
  rewrite E in Herrs, Hents. simpl in Herrs, Hents. subst errs.
  destruct (flat_map errors_of options) as [| e rest] eqn:F; [| discriminate].
  simpl. intros [= <-]. split; [exact Hents |].
  intros key v Hin Hint Htruthy.
  pose proof (flat_map_nil_inv errors_of options (key, v) F Hin) as Hnone.
  unfold errors_of in Hnone. simpl in Hnone. rewrite Hint in Hnone.
  unfold entry_errors in Hnone. rewrite Htruthy in Hnone.
  apply app_eq_nil in Hnone as [H1 [H2 H3]%app_eq_nil].
  split; [| split]; intros Hkind; rewrite Hkind in *; simpl in *.
  - destruct (validateEnvironmentId v) eqn:Hv; [| discriminate].
    by apply validateEnvironmentId_uuid.
  - destruct (validateApiKey v 10) eqn:Hv; [| discriminate].
    by apply validateApiKey_length.
  - by destruct (validateFilePath v 500).
Qed.

Lemma sanitizer_result_witness :
  validateAndSanitizeOptions "environment backup"
    [("environmentId", VString " 123e4567-e89b-12d3-a456-426614174000 ");
     ("_note", VString " kept ")]
  = Returned {| entries := [("environmentId", VString "123e4567-e89b-12d3-a456-426614174000");
                            ("_note", VString " kept ")];
                inherited := [] |}
  /\ entries {| entries := [("environmentId", VString "123e4567-e89b-12d3-a456-426614174000");
                            ("_note", VString " kept ")];
                inherited := [] |}
     = map sanitized_entry
         (List.filter not_proto
            [("environmentId", VString " 123e4567-e89b-12d3-a456-426614174000 ");
             ("_note", VString " kept ")]).
Proof.
  split; [reflexivity |].
  apply (proj1 (sanitizer_result "environment backup"
                  [("environmentId", VString " 123e4567-e89b-12d3-a456-426614174000 ");
                   ("_note", VString " kept ")] _ eq_refl)).
Defined.

(** X8: the entity route creates the management client only for a request
    whose [environmentId] is a string that is a UUID once trimmed and whose
    [apiKey] is a string of at least 10 characters once trimmed; both are
    handed on as they came, untrimmed. Every other request is answered 400. *)
Theorem fetch_entities_gate_checks (body : object) :
  match fetch_entities_gate body with
  | FetchProceeds e k =>
      e = get body "environmentId" /\ k = get body "apiKey"
      /\ (exists s, e = VString s /\ fits uuid_shape (trim s) = true)
      /\ (exists t, k = VString t /\ 10 <= String.length (trim t))
  | FetchRejected status _ _ => status = 400
  end.
Proof.
  unfold fetch_entities_gate.
  destruct (negb (truthy (get body "environmentId")) || negb (truthy (get body "apiKey")));
    [reflexivity |].
  destruct (validateEnvironmentId (get body "environmentId")) eqn:He; [| reflexivity].
  destruct (validateApiKey (get body "apiKey") 10) eqn:Hk; [| reflexivity].
  simpl. repeat split.
  - by apply validateEnvironmentId_uuid.
  - by apply validateApiKey_length.
Qed.

End SanitizerMore.

(** ** The execute route as a whole *)

Section RouteMore.

Lemma reject_json msg : exists status err sol, reject msg = Json status err sol /\ status = 500.
Proof. destruct (reject_is_json msg) as (err & sol & ->). by repeat eexists. Qed.

(** The handler of the execute route alone. *)
Lemma execute_route_cases (env : environment) (body : object) (spawns : spawn_log) :
  match execute_route env body spawns with
  | (EventStream r, spawns') =>
      exists cmd sanitized,
        get body "command" = VString cmd
        /\ well_formed body = true
        /\ validateAndSanitizeOptions cmd (request_options body) = Returned sanitized
        /\ valid (validateCommandOptions cmd (properties sanitized)) = true
        /\ cli_exists env = true
        /\ r = open_stream cmd
        /\ spawns' = (spawns ++ [("node" :: DATA_OPS_CLI env
                                  :: buildDataOpsArgs cmd (entries sanitized))%list])%list
  | (Json status _ _, spawns') => spawns' = spawns /\ (status = 400 \/ status = 500)
  end.
Proof.
  unfold execute_route.
  destruct (get body "command") as [| | b | n | cmd | items | es] eqn:Hcmd;
    try (split; [reflexivity | by left]).
  destruct (is_empty cmd) eqn:Hne; [split; [reflexivity | by left] |].
  destruct (Nat.ltb (List.length (split " " cmd)) 2 || Nat.ltb 3 (List.length (split " " cmd)))
    eqn:Hparts; [split; [reflexivity | by left] |].
  destruct (truthy (get body "options") && negb (is_object (get body "options"))) eqn:Hopts;
    [split; [reflexivity | by left] |].
  fold (request_options body).
  unfold executeDataOpsCommand, execute_try.
  destruct (validateAndSanitizeOptions cmd (request_options body)) as [san | msg] eqn:Hs.
  - destruct (valid (validateCommandOptions cmd (properties san))) eqn:Hv; simpl.
    + destruct (cli_exists env) eqn:Hcli; simpl.
      * exists cmd, san. apply orb_false_elim in Hparts as [H2 H3].
        apply Nat.ltb_ge in H2, H3.
        apply Nat.leb_le in H2, H3.
        split; [reflexivity |].
        split; [unfold well_formed; by rewrite Hcmd, Hne, Hopts, H2, H3 |].
        by repeat split.
      * match goal with
        | |- context [reject ?m] => destruct (reject_json m) as (st & err & sol & -> & ->)
        end.
        split; [reflexivity | by right].
    + match goal with
      | |- context [if includes ?m "not found" then _ else _] =>
          destruct (includes m "not found")
      end;
      match goal with
      | |- context [reject ?m] => destruct (reject_json m) as (st & err & sol & -> & ->)
      end; (split; [reflexivity | by right]).
  - destruct (includes msg "not found");
      match goal with
      | |- context [reject ?m] => destruct (reject_json m) as (st & err & sol & -> & ->)
      end; (split; [reflexivity | by right]).
Qed.

Lemma execute_route_streams (env : environment) (body : object) (spawns : spawn_log)
    (cmd : string) (sanitized : CommandOptions) :
  get body "command" = VString cmd ->
  well_formed body = true ->
  validateAndSanitizeOptions cmd (request_options body) = Returned sanitized ->
  valid (validateCommandOptions cmd (properties sanitized)) = true ->
  cli_exists env = true ->
  execute_route env body spawns
  = (EventStream (open_stream cmd),
     (spawns ++ [("node" :: DATA_OPS_CLI env
                  :: buildDataOpsArgs cmd (entries sanitized))%list])%list).
Proof.
  intros Hcmd Hwf Hs Hv Hcli. unfold execute_route, well_formed in *.
  rewrite Hcmd in *.
  apply andb_prop in Hwf as [[[H1 H2]%andb_prop H3]%andb_prop H4].
  apply negb_true_iff in H1, H4. rewrite H1, H4.
  apply Nat.leb_le in H2, H3.
  replace (Nat.ltb (List.length (split " " cmd)) 2
           || Nat.ltb 3 (List.length (split " " cmd))) with false.
  2: { symmetry. apply orb_false_intro; apply Nat.ltb_ge; lia. }
  fold (request_options body). unfold executeDataOpsCommand, execute_try.
  by rewrite Hs, Hv, Hcli.
Qed.

(** X9: POST /api/execute, the rate-limit middleware followed by the handler,
    opens the event stream exactly for a request that the middleware passes
    on, that passes the format checks, whose options the sanitizer returns
    and the validator accepts, on a server whose CLI is in place; it then
    creates exactly one process, [node] with the CLI path and the arguments
    built from the own entries of the sanitized options. Every other request
    creates no process: it is answered 429 by the middleware, with the
    rate-limit map unchanged, or gets a JSON answer with status 400 or 500
    from the handler. *)
Theorem execute_route_outcome (NODE_ENV : option string) (req : request) (now : Z)
    (rateLimitMap : gmap string (list Z)) (env : environment) (body : object)
    (spawns : spawn_log) :
  match post_execute NODE_ENV req now rateLimitMap env body spawns with
  | (Answered (EventStream r), m, spawns') =>
      rateLimitMiddleware NODE_ENV req now rateLimitMap = (Next, m)
      /\ exists cmd sanitized,
           get body "command" = VString cmd
           /\ well_formed body = true
           /\ validateAndSanitizeOptions cmd (request_options body) = Returned sanitized
           /\ valid (validateCommandOptions cmd (properties sanitized)) = true
           /\ cli_exists env = true
           /\ r = open_stream cmd
           /\ spawns' = (spawns ++ [("node" :: DATA_OPS_CLI env
                                     :: buildDataOpsArgs cmd (entries sanitized))%list])%list
  | (Answered (Json status _ _), m, spawns') =>
      rateLimitMiddleware NODE_ENV req now rateLimitMap = (Next, m)
      /\ spawns' = spawns /\ (status = 400 \/ status = 500)
  | (RateLimited error message retryAfter, m, spawns') =>
      rateLimitMiddleware NODE_ENV req now rateLimitMap
      = (TooManyRequests error message retryAfter, m)
      /\ m = rateLimitMap /\ spawns' = spawns
  end
  /\ (forall m cmd sanitized,
        rateLimitMiddleware NODE_ENV req now rateLimitMap = (Next, m) ->
        get body "command" = VString cmd ->
        well_formed body = true ->
        validateAndSanitizeOptions cmd (request_options body) = Returned sanitized ->
        valid (validateCommandOptions cmd (properties sanitized)) = true ->
        cli_exists env = true ->
        post_execute NODE_ENV req now rateLimitMap env body spawns
        = (Answered (EventStream (open_stream cmd)), m,
           (spawns ++ [("node" :: DATA_OPS_CLI env
                        :: buildDataOpsArgs cmd (entries sanitized))%list])%list)).
Proof.
  split.
  - unfold post_execute.
    destruct (rateLimitMiddleware NODE_ENV req now rateLimitMap) as [[| error message ra] m]
      eqn:Hmw.
    + pose proof (execute_route_cases env body spawns) as Hcases.
      destruct (execute_route env body spawns) as [[status err sol | r] spawns'].
      * by split.
      * by split.
    + split; [reflexivity |]. split; [| reflexivity].
      unfold rateLimitMiddleware in Hmw.
      destruct (opt_is NODE_ENV "development"
                && (opt_is (req_ip req) "127.0.0.1" || opt_is (req_ip req) "::1"));
        [discriminate Hmw |].
      unfold RateLimit.checkRateLimit, RateLimit.checkLimit in Hmw.
      destruct (decide _); [by injection Hmw as _ _ _ <- | discriminate Hmw].
  - intros m cmd san Hmw Hcmd Hwf Hs Hv Hcli. unfold post_execute. rewrite Hmw.
    by rewrite (execute_route_streams env body spawns cmd san Hcmd Hwf Hs Hv Hcli).
Qed.

Lemma execute_route_outcome_witness :
  rateLimitMiddleware None busy_client 2000 ∅
  = (Next, {[ "203.0.113.7" := [2000%Z] ]})
  /\ get clean_request "command" = VString "environment clean"
  /\ well_formed clean_request = true
  /\ cli_exists some_env = true
  /\ post_execute None busy_client 2000 ∅ some_env clean_request []
     = (Answered (EventStream (open_stream "environment clean")),
        {[ "203.0.113.7" := [2000%Z] ]},
        [["node"; DATA_OPS_CLI some_env; "environment"; "clean"; "--environment-id";
          "123e4567-e89b-12d3-a456-426614174000"; "--api-key"; "aaaaaaaaaaaaaaaaaaaa";
          "--skip-warning"]]).
Proof.
  assert (H : rateLimitMiddleware None busy_client 2000 ∅
              = (Next, {[ "203.0.113.7" := [2000%Z] ]})) by reflexivity.
  split; [exact H |]. split; [reflexivity |]. split; [reflexivity |].
  split; [reflexivity |].
  apply (proj2 (execute_route_outcome None busy_client 2000 ∅ some_env clean_request [])
           _ "environment clean"
           {| entries := [("environmentId", VString "123e4567-e89b-12d3-a456-426614174000");
                          ("apiKey", VString "aaaaaaaaaaaaaaaaaaaa");
                          ("skipWarning", VBool true)];
              inherited := [] |} H);
    reflexivity.
Defined.

(** A busy client gets no stream, however good its request. *)
Example rate_limited_gets_no_stream :
  post_execute None busy_client 2000 busy_map some_env clean_request []
  = (RateLimited "Too many requests" "Rate limit exceeded. Please try again later." 60,
     busy_map, []).
Proof. reflexivity. Qed.

End RouteMore.

(** ** Further properties of the stream relay *)

Section RelayMore.

Implicit Types (r : relay) (e : event) (msg : StreamMessage).

Lemma same_kill_write msg r : same_kill r (write msg r).
Proof. unfold write. destruct (ended r); by split. Qed.

Lemma same_kill_fold {A} (f : relay -> A -> relay) (l : list A) r :
  (forall r0 a, same_kill r0 (f r0 a)) -> same_kill r (fold_left f l r).
Proof.
  intros Hf. revert r. induction l as [| a l IH]; intros r; simpl; [by split |].
  destruct (IH (f r a)) as [K S]. destruct (Hf r a) as [K' S']. split; congruence.
Qed.

Lemma same_kill_stage_scan stages now line r : same_kill r (stage_scan stages now line r).
Proof.
  induction stages as [| stg rest IH]; simpl; [by split |].
  destruct (test (pattern stg) line && (500 <? now - lastProgressUpdate r)%Z); [| exact IH].
  destruct (same_kill_write (Progress (stage_percent stg) line (stage_name stg)) r).
  by split.
Qed.

Lemma same_kill_handle e r : is_request_close e = false -> same_kill r (handle r e).
Proof.
  destruct e as [now data | data | code | m |]; try discriminate; intros _; simpl.
  - apply same_kill_fold. intros r0 line. unfold on_stdout_line.
    destruct (same_kill_write (Output "info" line) (stage_scan (commandStages r0) now line r0)).
    destruct (same_kill_stage_scan (commandStages r0) now line r0). split; congruence.
  - apply same_kill_fold. intros r0 line. apply same_kill_write.
  - unfold on_close. destruct code as [[| |] |];
      match goal with |- same_kill _ (end_response (write ?m _)) =>
        destruct (same_kill_write m r) end; by split.
  - destruct (same_kill_write (ErrorEvent m None) r). by split.
Qed.

Lemma kill_state events r :
  killed (handle_all events r) = killed r || existsb is_request_close events
  /\ kill_signals (handle_all events r)
     = (kill_signals r
        ++ if negb (killed r) && existsb is_request_close events then ["SIGTERM"] else [])%list.
Proof.
  revert r. induction events as [| e rest IH]; intros r.
  - simpl. by rewrite orb_false_r, andb_false_r, app_nil_r.
  - change (handle_all (e :: rest) r) with (handle_all rest (handle r e)).
    destruct (IH (handle r e)) as [K S]. rewrite K, S. clear K S IH.
    destruct (is_request_close e) eqn:He.
    + destruct e; try discriminate. cbn [handle existsb is_request_close].
      destruct (killed r) eqn:Hk.
      * rewrite Hk. by split.
      * cbn [kill killed kill_signals negb andb orb]. by rewrite app_nil_r.
    + destruct (same_kill_handle e r He) as [K S]. rewrite K, S.
      cbn [existsb]. rewrite He. by split.
Qed.

(** X10: from any state of an execution, and whatever events follow, the
    handlers of the execute route call kill on the child process at most
    once, with SIGTERM, and exactly when the request closes while the
    process is not yet marked as killed; data, exit and error events never
    signal the process. *)
Theorem kill_only_on_request_close (r : relay) (events : list event) :
  kill_signals (handle_all events r)
  = (kill_signals r
     ++ if negb (killed r) && existsb is_request_close events then ["SIGTERM"] else [])%list
  /\ (existsb is_request_close events = false ->
      killed (handle_all events r) = killed r).
Proof.
  destruct (kill_state events r) as [K S]. split; [exact S |].
  intros Hnone. by rewrite K, Hnone, orb_false_r.
Qed.

Lemma kill_only_on_request_close_witness :
  existsb is_request_close [StdoutData 10 "syncing"; Close (Some 1%Z)] = false
  /\ killed (handle_all [StdoutData 10 "syncing"; Close (Some 1%Z)] (open_stream "sync run"))
     = false.
Proof.
  split; [reflexivity |].
  apply (proj2 (kill_only_on_request_close (open_stream "sync run")
                  [StdoutData 10 "syncing"; Close (Some 1%Z)])).
  reflexivity.
Defined.

Lemma split_parts_clean (sep : ascii) (s : string) :
  Forall (fun part => all_chars (fun c => negb (Ascii.eqb c sep)) part = true) (split sep s)
  /\ split sep s <> [].
Proof.
  induction s as [| c s [IH Hne]]; [split; [by repeat constructor | discriminate] |].
  simpl. destruct (Ascii.eqb c sep) eqn:E.
  - split; [by constructor | discriminate].
  - destruct (split sep s) as [| h t]; [contradiction |].
    inversion IH as [| ? ? Hh Ht]; subst. split; [| discriminate].
    constructor; [simpl; by rewrite E, Hh | exact Ht].
Qed.

Lemma grows_write msg r : ended r = false -> grows r (write msg r) [msg].
Proof. intros Hopen. unfold write, grows. rewrite Hopen. simpl. by repeat split. Qed.

Lemma grows_trans r1 r2 r3 m1 m2 :
  grows r1 r2 m1 -> grows r2 r3 m2 -> grows r1 r3 (m1 ++ m2).
Proof.
  intros (W1 & E1 & S1) (W2 & E2 & S2). unfold grows.
  rewrite W2, W1, <- app_assoc, E2, S2, S1. by repeat split.
Qed.

Lemma grows_refl r : ended r = false -> grows r r [].
Proof. intros Hopen. unfold grows. rewrite app_nil_r. by repeat split. Qed.

Lemma grows_stage_scan stages now line r :
  ended r = false ->
  exists more, grows r (stage_scan stages now line r) more
               /\ List.filter is_output more = [].
Proof.
  intros Hopen. induction stages as [| stg rest IH]; simpl.
  - exists []. split; [by apply grows_refl | reflexivity].
  - destruct (test (pattern stg) line && (500 <? now - lastProgressUpdate r)%Z); [| exact IH].
    exists [Progress (stage_percent stg) line (stage_name stg)].
    split; [| reflexivity].
    destruct (grows_write (Progress (stage_percent stg) line (stage_name stg)) r Hopen)
      as (W & E & S).
    by repeat split.
Qed.

Lemma grows_stdout_line now line r :
  ended r = false ->
  exists more, grows r (on_stdout_line now r line) more
               /\ List.filter is_output more = [Output "info" line].
Proof.
  intros Hopen. unfold on_stdout_line.
  destruct (grows_stage_scan (commandStages r) now line r Hopen) as (more & G & F).
  exists (more ++ [Output "info" line])%list. split.
  - apply (grows_trans _ _ _ _ _ G), grows_write. by destruct G as (_ & E & _).
  - by rewrite List.filter_app, F.
Qed.

Lemma grows_stdout now (lines : list string) r :
  ended r = false ->
  exists more, grows r (fold_left (on_stdout_line now) lines r) more
               /\ List.filter is_output more = map (Output "info") lines.
Proof.
  revert r. induction lines as [| line rest IH]; intros r Hopen; simpl.
  - exists []. split; [by apply grows_refl | reflexivity].
  - destruct (grows_stdout_line now line r Hopen) as (m1 & G1 & F1).
    destruct (IH (on_stdout_line now r line)) as (m2 & G2 & F2);
      [by destruct G1 as (_ & E & _) |].
    exists (m1 ++ m2)%list. split; [exact (grows_trans _ _ _ _ _ G1 G2) |].
    by rewrite List.filter_app, F1, F2.
Qed.

Lemma grows_stderr (lines : list string) r :
  ended r = false ->
  grows r (fold_left on_stderr_line lines r) (map (Output "error") lines).
Proof.
  revert r. induction lines as [| line rest IH]; intros r Hopen; simpl.
  - by apply grows_refl.
  - pose proof (grows_write (Output "error" line) r Hopen) as G1.
    apply (grows_trans _ _ _ [Output "error" line] _ G1), IH.
    by destruct G1 as (_ & E & _).
Qed.

Lemma split_whole (sep : ascii) (s : string) :
  all_chars (fun c => negb (Ascii.eqb c sep)) s = true -> split sep s = [s].
Proof.
  induction s as [| c s IH]; [reflexivity |]. simpl.
  intros [Hc Hs]%andb_prop. apply negb_true_iff in Hc. by rewrite Hc, (IH Hs).
Qed.

Lemma split_at (sep : ascii) (a b : string) :
  split sep (a ++ String sep b) = (split sep a ++ split sep b)%list.
Proof.
  induction a as [| c a IH].
  - simpl. by rewrite Ascii.eqb_refl.
  - change (String c a ++ String sep b) with (String c (a ++ String sep b)).
    cbn [split]. rewrite IH. destruct (Ascii.eqb c sep); [reflexivity |].
    destruct (split_parts_clean sep a) as [_ Hne].
    destruct (split sep a) as [| h t]; [contradiction | reflexivity].
Qed.

(** The lines of a text are found again by splitting it at the line feeds. *)
Lemma split_lf_joined (segs : list string) :
  segs <> [] ->
  Forall (fun seg => no_line_feed seg = true) segs ->
  split line_feed (lf_joined segs) = segs.
Proof.
  intros Hne Hsegs. induction Hsegs as [| seg rest Hseg Hrest IH]; [contradiction |].
  destruct rest as [| seg' rest'].
  - simpl. by apply split_whole.
  - change (lf_joined (seg :: seg' :: rest'))
      with (seg ++ String line_feed (lf_joined (seg' :: rest'))).
    rewrite split_at, IH by discriminate. by rewrite (split_whole _ _ Hseg).
Qed.

Lemma lf_joined_split (data : string) : lf_joined (split line_feed data) = data.
Proof.
  induction data as [| c s IH]; [reflexivity |].
  cbn [split]. destruct (split_parts_clean line_feed s) as [_ Hne].
  destruct (Ascii.eqb_spec c line_feed) as [-> | Hc].
  - destruct (split line_feed s) as [| h t]; [contradiction |].
    change (lf_joined ("" :: h :: t)) with ("" ++ String line_feed (lf_joined (h :: t))).
    by rewrite IH.
  - destruct (split line_feed s) as [| h t]; [contradiction |].
    destruct t as [| h' t'].
    + simpl in *. by rewrite IH.
    + change (lf_joined (String c h :: h' :: t'))
        with (String c (h ++ String line_feed (lf_joined (h' :: t')))).
      change (lf_joined (h :: h' :: t'))
        with (h ++ String line_feed (lf_joined (h' :: t'))) in IH.
      by rewrite IH.
Qed.

(** Trimming leaves nothing exactly of the strings made of white space. *)
Lemma trim_empty_blank (s : string) : is_empty (trim s) = blank s.
Proof.
  unfold trim, blank. induction s as [| c s IH]; [reflexivity |].
  cbn [trimStart all_chars]. destruct (is_space c) eqn:Hc; [exact IH |].
  destruct (trimEnd_first c s Hc) as [t ->]. reflexivity.
Qed.

Lemma lines_of_lf_joined (segs : list string) :
  segs <> [] ->
  Forall (fun seg => no_line_feed seg = true) segs ->
  lines_of (lf_joined segs) = List.filter not_blank segs.
Proof.
  intros Hne Hsegs. unfold lines_of.
  change "010"%char with line_feed. rewrite (split_lf_joined segs Hne Hsegs).
  apply List.filter_ext. intros seg. unfold not_blank. by rewrite trim_empty_blank.
Qed.

(** X11: every chunk of output is a sequence of lines separated by line
    feeds. While the response is open, a chunk of standard output is relayed
    as one info output event for each of its lines that is not all white
    space, in the order of the lines and with the line as it came, whatever
    progress events come with them; a chunk of standard error is relayed as
    exactly one error output event for each such line and nothing else. *)
Theorem data_relayed_line_by_line :
  (forall data, exists segs,
      segs <> [] /\ Forall (fun seg => no_line_feed seg = true) segs
      /\ data = lf_joined segs)
  /\ (forall (r : relay) (now : Z) (segs : list string),
        ended r = false ->
        segs <> [] ->
        Forall (fun seg => no_line_feed seg = true) segs ->
        (exists more,
            written (handle r (StdoutData now (lf_joined segs))) = (written r ++ more)%list
            /\ List.filter is_output more = map (Output "info") (List.filter not_blank segs))
        /\ written (handle r (StderrData (lf_joined segs)))
           = (written r ++ map (Output "error") (List.filter not_blank segs))%list).
Proof.
  split.
  - intros data. exists (split line_feed data).
    destruct (split_parts_clean line_feed data) as [Hparts Hne].
    split; [exact Hne |]. split; [exact Hparts | by rewrite lf_joined_split].
  - intros r now segs Hopen Hne Hsegs. cbn [handle].
    rewrite (lines_of_lf_joined segs Hne Hsegs). split.
    + destruct (grows_stdout now (List.filter not_blank segs) r Hopen)
        as (more & (W & _ & _) & F).
      by exists more.
    + by destruct (grows_stderr (List.filter not_blank segs) r Hopen) as (W & _ & _).
Qed.

Lemma data_relayed_line_by_line_witness :
  ended (open_stream "sync run") = false
  /\ written (handle (open_stream "sync run")
                (StderrData (lf_joined ["first"; ""; "  "; "  second "; "third"])))
     = [Connected "Connected to command stream"; Output "error" "first";
        Output "error" "  second "; Output "error" "third"].
Proof.
  split; [reflexivity |].
  assert (Hne : ["first"; ""; "  "; "  second "; "third"] <> []) by discriminate.
  assert (Hlf : Forall (fun seg => no_line_feed seg = true)
                       ["first"; ""; "  "; "  second "; "third"])
    by (by repeat constructor).
  apply (proj2 (proj2 data_relayed_line_by_line (open_stream "sync run") 0%Z
                  ["first"; ""; "  "; "  second "; "third"] eq_refl Hne Hlf)).
Defined.

(** X12: when the child process reports an error while the command is running,
    the stream is the connection event, then output and progress events
    only, then exactly one error event with the error's message, and nothing
    is written after it. *)
Theorem error_ends_stream command (before after : list event) (message : string) :
  forallb running_event before = true ->
  exists outs,
    written (handle_all (before ++ ProcessError message :: after) (open_stream command))
    = (Connected "Connected to command stream" :: outs ++ [ErrorEvent message None])%list
    /\ forallb relayed outs = true
    /\ ended (handle_all (before ++ ProcessError message :: after) (open_stream command))
       = true.
Proof.
  intros Hbefore. unfold handle_all. rewrite fold_left_app. simpl.
  destruct (handle_all_running relayed before (open_stream command) Hbefore)
    as (outs & W & Pouts & E & _ & _); [done | done |].
  fold (handle_all before (open_stream command)) in *.
  set (r := handle_all before (open_stream command)) in *.
  simpl in W, E.
  assert (Herr : written (end_response (write (ErrorEvent message None) r))
                 = (written r ++ [ErrorEvent message None])%list
                 /\ ended (end_response (write (ErrorEvent message None) r)) = true).
  { unfold write. rewrite E. simpl. by split. }
  destruct Herr as [We Ee].
  destruct (handle_all_ended after _ Ee) as [Wa Ea].
  unfold handle_all in Wa, Ea.
  exists outs. rewrite Wa, Ea, We, W. by repeat split.
Qed.

Lemma error_ends_stream_witness :
  forallb running_event [StdoutData 1000 "Backing up content"] = true
  /\ exists outs,
       written (handle_all ([StdoutData 1000 "Backing up content"]
                            ++ ProcessError "spawn node ENOENT" :: [Close (Some (-2)%Z)])
                           (open_stream "environment backup"))
       = (Connected "Connected to command stream" :: outs
          ++ [ErrorEvent "spawn node ENOENT" None])%list
       /\ forallb relayed outs = true
       /\ ended (handle_all ([StdoutData 1000 "Backing up content"]
                             ++ ProcessError "spawn node ENOENT" :: [Close (Some (-2)%Z)])
                            (open_stream "environment backup")) = true.
Proof.
  split; [reflexivity |].
  apply (error_ends_stream "environment backup" [StdoutData 1000 "Backing up content"]
           [Close (Some (-2)%Z)] "spawn node ENOENT").
  reflexivity.
Defined.

End RelayMore.

(** ** The command table and the validator *)

Section TableMore.

Lemma entities_given options :
  entities_missing options = false ->
  present options "entities" = true
  /\ exists x rest, get options "entities" = VArray (x :: rest).
Proof.
  unfold entities_missing, present.
  destruct (get options "entities") as [| | b | n | s | [| x rest] | es]; simpl;
    rewrite ?orb_true_r; try discriminate; try (destruct (negb _); discriminate).
  intros _. split; [reflexivity | by eexists; eexists].
Qed.

(** X13: for each of the six declared commands, the validator accepts a
    mapping only if every option that the command table declares required is
    given; and none of the declared commands is unknown to it. *)
Theorem required_options_enforced (command : string) (spec : list CommandOption)
    (options : object) :
  In (command, spec) getCommands ->
  known_domain command = true
  /\ (valid (validateCommandOptions command options) = true ->
      forall o, In o spec -> required o = true -> given options o = true).
Proof.
  unfold getCommands. cbn [In].
  intros [H | [H | [H | [H | [H | [H | []]]]]]]; injection H as <- <-;
    (split; [reflexivity |]); unfold validateCommandOptions; cbn -[get truthy entities_missing outPath_blank];
    intros Hvalid o Hin Hreq; cbn [In] in Hin;
    repeat match type of Hvalid with
           | context [if ?b then _ else _] => destruct b eqn:?
           end; try discriminate Hvalid;
    repeat match goal with
           | H : (_ || _)%bool = false |- _ => apply orb_false_elim in H as [? ?]
           | H : negb _ = false |- _ => apply negb_false_iff in H
           end;
    repeat (destruct Hin as [<- | Hin]; [try discriminate Hreq |]); try contradiction;
    unfold given, present; cbn [id type opt];
    try match goal with
        | H : entities_missing _ = false |- _ =>
            destruct (entities_given _ H) as (Hp & x & rest & ->); reflexivity
        end;
    match goal with
    | H : truthy (get options ?k) = true |- context [truthy (get options ?k)] =>
        rewrite H; reflexivity
    end.
Qed.

Lemma required_options_enforced_witness :
  In ("environment restore",
      [opt "environmentId" text true; opt "apiKey" password true; opt "fileName" text true;
       entities_opt "include"; entities_opt "exclude";
       opt "excludeInactiveLanguages" checkbox false; opt "kontentUrl" text false])
     getCommands
  /\ known_domain "environment restore" = true.
Proof.
  assert (H : In ("environment restore",
      [opt "environmentId" text true; opt "apiKey" password true; opt "fileName" text true;
       entities_opt "include"; entities_opt "exclude";
       opt "excludeInactiveLanguages" checkbox false; opt "kontentUrl" text false])
     getCommands) by (right; left; reflexivity).
  split; [exact H |].
  apply (proj1 (required_options_enforced _ _ [] H)).
Defined.

End TableMore.

(** ** The path check *)

Section PathMore.

Lemma dotdot_stays (stack : list string) (seg : string) :
  In ".." stack -> In ".." (normalize_step true stack seg).
Proof.
  intros Hin. unfold normalize_step.
  destruct (is_empty seg || String.eqb seg "."); [exact Hin |].
  destruct (String.eqb seg "..") eqn:Eseg; [| by right].
  destruct stack as [| top below]; [destruct Hin |].
  destruct (String.eqb top "..") eqn:Etop; [by right |].
  destruct Hin as [-> | Hin]; [discriminate Etop | exact Hin].
Qed.

Lemma dotdot_stays_fold (segments stack : list string) :
  In ".." stack -> In ".." (fold_left (normalize_step true) segments stack).
Proof.
  revert stack. induction segments as [| seg rest IH]; intros stack Hin; [exact Hin |].
  simpl. by apply IH, dotdot_stays.
Qed.

Lemma climbs_leaves_dotdot (segments names ups : list string) :
  Forall (fun n => String.eqb n ".." = false) names ->
  Forall (fun u => u = "..") ups ->
  climbs (List.length names) segments = true ->
  In ".." (fold_left (normalize_step true) segments (names ++ ups)%list).
Proof.
  revert names ups. induction segments as [| seg rest IH]; intros names ups Hn Hu; [discriminate |].
  cbn [climbs fold_left]. unfold normalize_step at 2.
  destruct (is_empty seg || String.eqb seg "."); [by apply IH |].
  destruct (String.eqb seg "..") eqn:Eseg.
  - apply String.eqb_eq in Eseg as ->.
    destruct names as [| top names']; simpl.
    + intros _. apply dotdot_stays_fold.
      destruct ups as [| u ups']; [by left |].
      inversion Hu as [| ? ? -> _]; subst. simpl. by left.
    + inversion Hn as [| ? ? Htop Hn']; subst. rewrite Htop. by apply IH.
  - intros Hc. apply (IH (seg :: names) ups); [by constructor | exact Hu | exact Hc].
Qed.

Lemma includes_join_member (e : string) (parts : list string) (tail : string) :
  In e parts -> includes (join "/" parts ++ tail) e = true.
Proof.
  intros Hin. destruct (join_member "/" e parts Hin) as (a & b & ->).
  rewrite !append_assoc_string. apply includes_middle.
Qed.

(** X14: the server's path check rejects every relative path that climbs above
    the directory it starts from, whatever the length bound. *)
Theorem validateFilePath_rejects_climbing (s : string) (maxLength : nat) :
  startsWith s "/" = false ->
  climbs 0 (split "/" s) = true ->
  validateFilePath (VString s) maxLength = false.
Proof.
  intros Hrel Hclimbs. unfold validateFilePath.
  destruct (is_empty s) eqn:Hs; [reflexivity |].
  assert (Hin : In ".." (rev (fold_left (normalize_step true) (split "/" s) []))).
  { apply in_rev. rewrite rev_involutive.
    by apply (climbs_leaves_dotdot (split "/" s) [] []). }
  assert (Hinc : forall tail, includes (normalizeString s true ++ tail) ".." = true).
  { intros tail. by apply includes_join_member. }
  unfold path_normalize. rewrite Hs, Hrel. cbn [negb].
  destruct (is_empty (normalizeString s true)) eqn:Hp.
  - pose proof (Hinc "") as H. destruct (normalizeString s true); discriminate.
  - destruct (match last_char s with Some c => Ascii.eqb c "/" | None => false end).
    + by rewrite Hinc.
    + pose proof (Hinc "") as H. rewrite append_empty_r in H. by rewrite H.
Qed.

Lemma validateFilePath_rejects_climbing_witness :
  startsWith "backups/../../secrets.zip" "/" = false
  /\ climbs 0 (split "/" "backups/../../secrets.zip") = true
  /\ validateFilePath (VString "backups/../../secrets.zip") 500 = false.
Proof.
  split; [reflexivity |]. split; [reflexivity |].
  apply (validateFilePath_rejects_climbing "backups/../../secrets.zip" 500); reflexivity.
Defined.

End PathMore.

Section PathPlain.

Lemma split_not_nil (sep : ascii) (s : string) : split sep s <> [].
Proof.
  destruct s as [| c s]; simpl; [discriminate |].
  destruct (Ascii.eqb c sep); [discriminate |]. destruct (split sep s); discriminate.
Qed.

Lemma join_cons2 (sep p q : string) (rest : list string) :
  join sep (p :: q :: rest) = p ++ sep ++ join sep (q :: rest).
Proof. reflexivity. Qed.

Lemma join_split (s : string) : join "/" (split "/" s) = s.
Proof.
  induction s as [| c s IH]; [reflexivity |].
  simpl split. pose proof (split_not_nil "/" s) as Hne.
  destruct (Ascii.eqb c "/") eqn:E.
  - apply Ascii.eqb_eq in E as ->. destruct (split "/" s) as [| h t]; [contradiction |].
    rewrite join_cons2, IH. reflexivity.
  - destruct (split "/" s) as [| h t]; [contradiction |].
    destruct t as [| q t'].
    + simpl in *. by rewrite IH.
    + rewrite join_cons2, append_cons, <- join_cons2, IH. reflexivity.
Qed.

Lemma split_app (a b : string) :
  split "/" (a ++ String "/" b) = (split "/" a ++ split "/" b)%list.
Proof.
  induction a as [| c a IH]; [reflexivity |].
  rewrite append_cons. simpl split. rewrite IH.
  destruct (Ascii.eqb c "/"); [reflexivity |].
  pose proof (split_not_nil "/" a) as Hne.
  destruct (split "/" a) as [| h t]; [contradiction | reflexivity].
Qed.

Lemma last_char_slash (s : string) :
  last_char s = Some "/"%char -> exists s0, s = s0 ++ "/".
Proof.
  induction s as [| c s IH]; [discriminate |].
  destruct s as [| d s'].
  - intros [= ->]. by exists "".
  - intros H. destruct (IH H) as (s0 & E). exists (String c s0). by rewrite append_cons, <- E.
Qed.

Lemma prefix_app (t e b : string) :
  String.prefix t e = true -> String.prefix t (e ++ b) = true.
Proof.
  revert e. induction t as [| x t IH]; intros e H; [by destruct (e ++ b) |].
  destruct e as [| y e]; [discriminate |]. simpl in *.
  destruct (ascii_dec x y); [by apply IH | discriminate].
Qed.

Lemma includes_app_l (e b t : string) :
  includes e t = true -> includes (e ++ b) t = true.
Proof.
  induction e as [| y e IH]; intros H.
  - simpl in H. rewrite orb_false_r in H. rewrite includes_unfold.
    by rewrite (prefix_app t "" b H).
  - rewrite includes_unfold in H. apply orb_true_iff in H as [H | H].
    + rewrite includes_unfold, (prefix_app _ _ b H). reflexivity.
    + rewrite append_cons, includes_unfold, (IH H). apply orb_true_r.
Qed.

Lemma includes_segment (e t : string) (parts : list string) :
  In e parts -> includes e t = true -> includes (join "/" parts) t = true.
Proof.
  intros Hin Hinc. destruct (join_member "/" e parts Hin) as (a & b & ->).
  by apply includes_app_r, includes_app_l.
Qed.

Lemma dots_across_slash (a t : string) :
  includes (a ++ String "/" t) ".." = includes a ".." || includes t "..".
Proof.
  induction a as [| c a IH]; [reflexivity |].
  rewrite append_cons, (includes_unfold (String c (a ++ String "/" t))), IH.
  rewrite (includes_unfold (String c a)), <- orb_assoc. f_equal.
  destruct a as [| d a']; rewrite ?append_cons; cbn [String.prefix];
    destruct (ascii_dec "." c); try reflexivity.
  destruct (ascii_dec "." d); [| reflexivity].
  generalize (a' ++ String "/" t). intros u. by destruct a', u.
Qed.

Lemma dots_in_join (parts : list string) :
  includes (join "/" parts) ".." = true ->
  exists e, In e parts /\ includes e ".." = true.
Proof.
  induction parts as [| p rest IH]; [discriminate |].
  destruct rest as [| q rest'].
  - intros H. exists p. split; [by left | exact H].
  - rewrite join_cons2. change (p ++ "/" ++ join "/" (q :: rest'))
      with (p ++ String "/" (join "/" (q :: rest'))).
    rewrite dots_across_slash. intros H. apply orb_true_iff in H as [H | H].
    + exists p. split; [by left | exact H].
    + destruct (IH H) as (e & Hin & He). exists e. split; [by right | exact He].
Qed.

Lemma normalize_step_keeps (P : string -> Prop) allowAboveRoot stack seg :
  Forall P stack -> P seg -> Forall P (normalize_step allowAboveRoot stack seg).
Proof.
  intros Hs Hseg. unfold normalize_step.
  destruct (is_empty seg || String.eqb seg "."); [exact Hs |].
  destruct (String.eqb seg "..").
  - destruct stack as [| top below].
    + destruct allowAboveRoot; by repeat constructor.
    + destruct (String.eqb top "..").
      * destruct allowAboveRoot; [by constructor | exact Hs].
      * by inversion Hs.
  - by constructor.
Qed.

Lemma normalize_fold_keeps (P : string -> Prop) allowAboveRoot segments stack :
  Forall P stack -> Forall P segments ->
  Forall P (fold_left (normalize_step allowAboveRoot) segments stack).
Proof.
  revert stack. induction segments as [| seg rest IH]; intros stack Hs Hsegs; [exact Hs |].
  inversion Hsegs; subst. simpl. by apply IH; [apply normalize_step_keeps |].
Qed.

Lemma weight_cons p l : weight (p :: l) = S (String.length p) + weight l.
Proof. reflexivity. Qed.

Lemma weight_join (l : list string) :
  l <> [] -> S (String.length (join "/" l)) = weight l.
Proof.
  induction l as [| p rest IH]; [contradiction |]. intros _.
  destruct rest as [| q rest']; [unfold weight; simpl; lia |].
  rewrite join_cons2, !length_append_string, (weight_cons p).
  rewrite <- IH by discriminate. simpl String.length. lia.
Qed.

Lemma weight_rev (l : list string) : weight (rev l) = weight l.
Proof.
  induction l as [| p rest IH]; [reflexivity |].
  simpl rev. unfold weight in *. rewrite map_app, list_sum_app, IH. simpl. lia.
Qed.

Lemma weight_step allowAboveRoot stack seg :
  weight (normalize_step allowAboveRoot stack seg) + (if is_empty seg then 1 else 0)
  <= weight stack + S (String.length seg).
Proof.
  unfold normalize_step. destruct seg as [| c seg']; [simpl; lia |].
  cbn [is_empty orb]. destruct (String.eqb (String c seg') "."); [lia |].
  destruct (String.eqb (String c seg') "..").
  - destruct stack as [| top below].
    + destruct allowAboveRoot; unfold weight; simpl; lia.
    + destruct (String.eqb top ".."); [destruct allowAboveRoot |];
        rewrite ?weight_cons; simpl; lia.
  - rewrite weight_cons. lia.
Qed.

Lemma weight_fold allowAboveRoot segments stack :
  weight (fold_left (normalize_step allowAboveRoot) segments stack) + empties segments
  <= weight stack + weight segments.
Proof.
  revert stack. induction segments as [| seg rest IH]; intros stack;
    [unfold weight, empties; simpl; lia |].
  cbn [fold_left]. specialize (IH (normalize_step allowAboveRoot stack seg)).
  pose proof (weight_step allowAboveRoot stack seg) as Hstep.
  rewrite (weight_cons seg). unfold empties in *.
  cbn [List.filter]. destruct (is_empty seg); simpl List.length; lia.
Qed.

Lemma empties_split (s : string) :
  is_empty s = false ->
  (if startsWith s "/" then 1 else 0)
  + (match last_char s with Some c => if Ascii.eqb c "/" then 1 else 0 | None => 0 end)
  <= empties (split "/" s).
Proof.
  intros Hs. unfold empties.
  assert (Habs : startsWith s "/" = true -> exists s', s = String "/" s').
  { destruct s as [| c s']; [discriminate |]. unfold startsWith. cbn [String.prefix].
    destruct (ascii_dec "/" c) as [<- |]; [by exists s' | discriminate]. }
  assert (Hfirst : forall s', 1 <= empties (split "/" (String "/" s'))).
  { intros s'. unfold empties. simpl. lia. }
  unfold empties in Hfirst.
  destruct (last_char s) as [c |] eqn:Hlast.
  - destruct (Ascii.eqb c "/") eqn:Ec.
    + apply Ascii.eqb_eq in Ec as ->. destruct (last_char_slash s Hlast) as (s0 & ->).
      change (s0 ++ "/") with (s0 ++ String "/" "") in *. rewrite split_app.
      rewrite List.filter_app, length_app. simpl (List.length (List.filter is_empty (split "/" ""))).
      destruct (startsWith (s0 ++ String "/" "") "/") eqn:Ea; [| lia].
      destruct s0 as [| d s0']; [simpl; lia |].
      destruct (Habs eq_refl) as (s' & E). rewrite append_cons in E. injection E as Hd _. subst d.
      specialize (Hfirst s0'). lia.
    + destruct (startsWith s "/") eqn:Ea; [| lia].
      destruct (Habs eq_refl) as (s' & ->). specialize (Hfirst s'). lia.
  - destruct s as [| c s']; [discriminate |]. exfalso. clear -Hlast.
    revert c Hlast. induction s' as [| d s' IH]; intros c H; [discriminate |].
    exact (IH d H).
Qed.

Lemma plain_path_accepted (s : string) (maxLength : nat) :
  is_empty s = false ->
  includes s ".." = false ->
  String.length s < maxLength ->
  validateFilePath (VString s) maxLength = true.
Proof.
  intros Hs Hdots Hlen. unfold validateFilePath. rewrite Hs. cbv zeta.
  set (allow := negb (startsWith s "/")).
  set (stack := fold_left (normalize_step allow) (split "/" s) []).
  assert (Hclean : Forall (fun e => includes e ".." = false) stack).
  { apply normalize_fold_keeps; [constructor |]. apply List.Forall_forall. intros e Hin.
    destruct (includes e "..") eqn:He; [| reflexivity].
    rewrite <- Hdots, <- (join_split s). symmetry. by apply (includes_segment e). }
  assert (Hp : includes (join "/" (rev stack)) ".." = false).
  { destruct (includes (join "/" (rev stack)) "..") eqn:E; [| reflexivity].
    destruct (dots_in_join _ E) as (e & Hin & He). apply in_rev in Hin.
    rewrite List.Forall_forall in Hclean. by rewrite (Hclean e Hin) in He. }
  pose proof (weight_fold allow (split "/" s) []) as Hw. fold stack in Hw.
  pose proof (empties_split s Hs) as He.
  assert (Hnil : weight [] = 0) by reflexivity.
  assert (Hws : S (String.length s) = weight (split "/" s)).
  { rewrite <- (join_split s) at 1. apply weight_join, split_not_nil. }
  assert (Hsl : 1 <= String.length s) by (destruct s; [discriminate | simpl; lia]).
  unfold path_normalize. rewrite Hs. unfold normalizeString. fold allow. fold stack.
  destruct (is_empty (join "/" (rev stack))) eqn:Hpe.
  - destruct (startsWith s "/") eqn:Ea.
    + simpl. apply Nat.ltb_lt. lia.
    + destruct (last_char s) as [c |] eqn:Hlast; [| simpl; apply Nat.ltb_lt; lia].
      destruct (Ascii.eqb c "/") eqn:Ec; [| simpl; apply Nat.ltb_lt; lia].
      simpl. apply Nat.ltb_lt. apply Ascii.eqb_eq in Ec as ->.
      destruct (last_char_slash s Hlast) as (s0 & ->).
      destruct s0 as [| d s0']; [discriminate Ea |].
      rewrite length_append_string in Hlen. simpl in *. lia.
  - assert (Hne : rev stack <> []) by (intros E; rewrite E in Hpe; discriminate).
    pose proof (weight_join _ Hne) as Hwp. rewrite weight_rev in Hwp.
    set (p := join "/" (rev stack)) in *.
    assert (Hpl : 1 <= String.length p) by (destruct p; [discriminate | simpl; lia]).
    destruct (startsWith s "/") eqn:Ea;
      destruct (match last_char s with Some c => Ascii.eqb c "/" | None => false end) eqn:Et.
    + change ("/" ++ p ++ "/") with ("" ++ String "/" (p ++ String "/" "")).
      rewrite !dots_across_slash, Hp. simpl.
      rewrite length_append_string. simpl.
      destruct (last_char s) as [c |]; [| discriminate]. rewrite Et in He.
      rewrite ?andb_true_iff, ?Nat.ltb_lt; simpl in *; lia.
    + change ("/" ++ p) with ("" ++ String "/" p).
      rewrite dots_across_slash, Hp. simpl.
      rewrite ?andb_true_iff, ?Nat.ltb_lt; simpl in *; lia.
    + change (p ++ "/") with (p ++ String "/" "").
      rewrite dots_across_slash, Hp. simpl. rewrite length_append_string. simpl.
      destruct (last_char s) as [c |]; [| discriminate]. rewrite Et in He.
      rewrite ?andb_true_iff, ?Nat.ltb_lt; simpl in *; lia.
    + rewrite Hp. simpl. rewrite ?andb_true_iff, ?Nat.ltb_lt; simpl in *; lia.
Qed.


Lemma prefix_dots c s :
  String.prefix ".." (String c s)
  = if ascii_dec "." c then
      match s with
      | String d _ => if ascii_dec "." d then true else false
      | EmptyString => false
      end
    else false.
Proof.
  cbn [String.prefix]. destruct (ascii_dec "." c); [| reflexivity].
  destruct s as [| d s']; [reflexivity |].
  cbn [String.prefix]. destruct (ascii_dec "." d); [by destruct s' | reflexivity].
Qed.

Lemma includes_dots_cons c s :
  includes (String c s) ".." = String.prefix ".." (String c s) || includes s "..".
Proof. reflexivity. Qed.

Lemma space_not_dot c : is_space c = true -> "."%char <> c.
Proof. intros H <-. discriminate H. Qed.

Lemma includes_trimStart s : includes (trimStart s) ".." = includes s "..".
Proof.
  induction s as [| c s IH]; [reflexivity |].
  cbn [trimStart]. destruct (is_space c) eqn:E; [| reflexivity].
  rewrite IH, includes_dots_cons, prefix_dots.
  by destruct (ascii_dec "." c) as [Hc |]; [destruct (space_not_dot c E Hc) |].
Qed.

Lemma trimEnd_head s :
  match trimEnd s, s with
  | String d _, String x _ => d = x
  | String _ _, EmptyString => False
  | EmptyString, String x _ => is_space x = true
  | EmptyString, EmptyString => True
  end.
Proof.
  destruct s as [| c s]; [exact I |].
  rewrite trimEnd_cons. destruct (trimEnd s); [| reflexivity].
  by destruct (is_space c).
Qed.

Lemma includes_trimEnd s : includes (trimEnd s) ".." = includes s "..".
Proof.
  induction s as [| c s IH]; [reflexivity |].
  rewrite trimEnd_cons. pose proof (trimEnd_head s) as Hhead.
  rewrite (includes_dots_cons c s), <- IH, (prefix_dots c s).
  destruct (trimEnd s) as [| d t].
  - destruct s as [| x s'].
    + destruct (is_space c); [by destruct (ascii_dec "." c) |].
      rewrite includes_dots_cons, prefix_dots. reflexivity.
    + destruct (ascii_dec "." x) as [Hx |]; [destruct (space_not_dot x Hhead Hx) |].
      destruct (is_space c); [by destruct (ascii_dec "." c) |].
      rewrite includes_dots_cons, prefix_dots. by destruct (ascii_dec "." c).
  - destruct s as [| x s']; [contradiction |]. subst x.
    rewrite (includes_dots_cons c), (prefix_dots c). reflexivity.
Qed.

Lemma includes_trim s : includes (trim s) ".." = includes s "..".
Proof. unfold trim. by rewrite includes_trimEnd, includes_trimStart. Qed.

(** X15: the server's path check accepts every path that is not empty, holds
    no two dots in a row and is shorter than the bound; in particular it
    accepts, under any bound above the length of the path as typed, every
    path that the utility module's isValidFilePath accepts. *)
Theorem validateFilePath_accepts_plain (s : string) (maxLength : nat) :
  String.length s < maxLength ->
  (is_empty s = false /\ includes s ".." = false
   \/ exists bound, isValidFilePath (VString s) bound = true) ->
  validateFilePath (VString s) maxLength = true.
Proof.
  intros Hlen [[Hs Hdots] | [bound H]]; [by apply plain_path_accepted |].
  unfold isValidFilePath in H. destruct (is_empty s) eqn:Hs; [discriminate |].
  apply andb_true_iff in H as [H _]. apply andb_true_iff in H as [_ H].
  apply negb_true_iff in H. rewrite includes_trim in H.
  by apply plain_path_accepted.
Qed.

Lemma validateFilePath_accepts_plain_witness :
  String.length " exports/./site backup.zip " < 500
  /\ isValidFilePath (VString " exports/./site backup.zip ") 100 = true
  /\ validateFilePath (VString " exports/./site backup.zip ") 500 = true.
Proof.
  assert (H1 : String.length " exports/./site backup.zip " < 500) by (simpl; lia).
  assert (H2 : isValidFilePath (VString " exports/./site backup.zip ") 100 = true)
    by reflexivity.
  split; [exact H1 |]. split; [exact H2 |].
  apply (validateFilePath_accepts_plain " exports/./site backup.zip " 500 H1).
  right. by exists 100.
Defined.

End PathPlain.
